(** * OrchidETLPipeline: a shallow embedding of [etl_pipeline.py] and
    [query_output.py], and the properties of their transform stages.

    Conventions of the embedding.
    - A Python [str] is a [string]; each [ascii] stands for one code point
      below 256, so that [String.compare] is Python's code-point order.
      Text read from a profile file is a list of code points ([N]), because
      the byte-order mark U+FEFF has to be representable there.
    - A pandas [DataFrame] is a mutable object: stage functions receive and
      return references into a store of frames, and [df[c] = ...] updates
      the stored frame.
    - A column is its cells; its dtype is the one pandas infers for those
      cells, which is the dtype of every column that [read_csv],
      [read_json], [Series.apply], [concat] and [merge] make.
    - Exceptions are values of [exn]; a computation returns [result].
    - Logging calls are diagnostics only and are left out. *)

From Stdlib Require Import ZArith NArith Nnat String Ascii List Lia Bool.
From Stdlib Require Import OrderedTypeEx DecimalString HexadecimalString.
From Stdlib Require HexadecimalFacts HexadecimalN HexadecimalPos.
From stdpp Require Import gmap strings list fin_maps.

Set Warnings "-register-all".

Open Scope Z_scope.
Open Scope string_scope.
Open Scope list_scope.

(** ** Exceptions and results

    [EngineError] stands for the exceptions of the query engine;
    [ReferenceError] is the answer of the store for a reference that points
    to no frame, which no Python program can hold. *)

Inductive exn :=
| KeyError (key : string)
| TypeError (msg : string)
| ValueError (msg : string)
| FileNotFoundError (msg : string)
| RuntimeError (msg : string)
| EngineError (msg : string)
| ReferenceError.

Inductive result (A : Type) :=
| Ok (a : A)
| Raise (e : exn).
Arguments Ok {A} a.
Arguments Raise {A} e.

Definition rbind {A B} (r : result A) (k : A -> result B) : result B :=
  match r with
  | Ok a => k a
  | Raise e => Raise e
  end.

(** ** Python values held in the cells of a frame *)

(** A float is kept by class; a finite float by its [repr] text. *)
Inductive pyfloat :=
| FNaN
| FInf
| FNegInf
| FFinite (repr : string).

Inductive value :=
| VNone
| VBool (b : bool)
| VInt (z : Z)
| VFloat (f : pyfloat)
| VStr (s : string)
| VList (l : list value)
| VDict (items : list (string * value))
| VTimestamp (ns : Z)
| VNaT
| VDate (days : Z).

(** Induction over values that goes through the lists and dicts. *)
Section value_nested_ind.
Variable P : value -> Prop.
Hypothesis HNone : P VNone.
Hypothesis HBool : forall b, P (VBool b).
Hypothesis HInt : forall z, P (VInt z).
Hypothesis HFloat : forall f, P (VFloat f).
Hypothesis HStr : forall s, P (VStr s).
Hypothesis HList : forall l, Forall P l -> P (VList l).
Hypothesis HDict : forall items, Forall (fun kv => P (snd kv)) items -> P (VDict items).
Hypothesis HTimestamp : forall ns, P (VTimestamp ns).
Hypothesis HNaT : P VNaT.
Hypothesis HDate : forall days, P (VDate days).

Fixpoint value_nested_ind (v : value) : P v :=
  match v with
  | VNone => HNone
  | VBool b => HBool b
  | VInt z => HInt z
  | VFloat f => HFloat f
  | VStr s => HStr s
  | VList l =>
      HList l
        ((fix all (l : list value) : Forall P l :=
            match l with
            | [] => @List.Forall_nil _ P
            | x :: l' => @List.Forall_cons _ P x l' (value_nested_ind x) (all l')
            end) l)
  | VDict items =>
      HDict items
        ((fix all (l : list (string * value)) : Forall (fun kv => P (snd kv)) l :=
            match l with
            | [] => @List.Forall_nil _ _
            | kv :: l' =>
                @List.Forall_cons _ (fun kv => P (snd kv)) kv l'
                  (value_nested_ind (snd kv)) (all l')
            end) items)
  | VTimestamp ns => HTimestamp ns
  | VNaT => HNaT
  | VDate days => HDate days
  end.
End value_nested_ind.

(** pandas' notion of a missing cell ([pd.isna]): [None], [NaN] and
    [NaT]. *)
Definition is_null (v : value) : bool :=
  match v with
  | VNone | VFloat FNaN | VNaT => true
  | _ => false
  end.

(** [d.get(key)] on the items of a dict *)
Fixpoint dict_get (key : string) (items : list (string * value)) : option value :=
  match items with
  | [] => None
  | (k, v) :: rest => if String.eqb k key then Some v else dict_get key rest
  end.

(** ** [sorted(set(...))] on lists of strings *)

Fixpoint insert_sorted (x : string) (l : list string) : list string :=
  match l with
  | [] => [x]
  | y :: l' => if String.leb x y then x :: y :: l' else y :: insert_sorted x l'
  end.

(** [sorted(xs)] for strings: ascending in code-point order. *)
Definition sorted (l : list string) : list string :=
  foldr insert_sorted [] l.

(** [set(xs)]: the distinct elements; Python fixes no iteration order, here
    the order of first occurrence is taken ([sorted_perm_unique] shows that
    [sorted] gives the same list for every other order). *)
Definition py_set (l : list string) : list string := remove_dups l.

(** [x if x else []] for an optional list argument: [None] and the empty
    list are both falsy. *)
Definition or_empty (fields : option (list string)) : list string :=
  match fields with
  | Some (f :: fs) => f :: fs
  | _ => []
  end.

(** Lines 61-62 of [extract_details_fields]. *)
Definition extract_default_fields : list string :=
  ["page_url"; "button_id"; "item_id"].

Definition extract_all_fields (fields : option (list string)) : list string :=
  sorted (py_set (extract_default_fields ++ or_empty fields)).

(** Lines 94-100 of [select_final_columns]. *)
Definition select_base_columns : list string :=
  ["event_id"; "user_id"; "name"; "location"; "registration_date";
   "event_type"; "timestamp"; "event_date"; "details_raw"].

Definition select_default_fields : list string :=
  ["page_url"; "button_id"; "item_id"].

Definition select_all_fields (extra_fields : option (list string)) : list string :=
  sorted (py_set (select_default_fields ++ or_empty extra_fields)).

Definition select_final_column_list (extra_fields : option (list string)) : list string :=
  select_base_columns ++ select_all_fields extra_fields.

(** The effective field set in the words of the specification: a list that
    is strictly ascending (hence without repetition) and whose members are
    exactly the defaults and the caller's names. *)
Inductive strictly_ascending : list string -> Prop :=
| sa_nil : strictly_ascending []
| sa_one x : strictly_ascending [x]
| sa_cons x y l :
    String.ltb x y = true -> strictly_ascending (y :: l) ->
    strictly_ascending (x :: y :: l).

Definition is_effective_field_set (caller : list string) (l : list string) : Prop :=
  strictly_ascending l /\
  forall x, x ∈ l <-> x ∈ ["page_url"; "button_id"; "item_id"] \/ x ∈ caller.

(** ** [json.dumps] with its default arguments

    [ensure_ascii=True], separators [", "] and [": "], [allow_nan=True],
    no key sorting.  A value of a type the encoder does not know raises
    [TypeError]. *)

Definition hex_digit (n : N) : ascii :=
  match n with
  | 0 => "0" | 1 => "1" | 2 => "2" | 3 => "3" | 4 => "4" | 5 => "5"
  | 6 => "6" | 7 => "7" | 8 => "8" | 9 => "9" | 10 => "a" | 11 => "b"
  | 12 => "c" | 13 => "d" | 14 => "e" | _ => "f"
  end%N%char.

Definition dquote : ascii := ascii_of_N 34.
Definition backslash : ascii := ascii_of_N 92.

(** The 4-digit [u] escape of the encoder, for a code point below 256 *)
Definition escape_u4 (c : ascii) : string :=
  let n := N_of_ascii c in
  String backslash (String "u" (String "0" (String "0"
    (String (hex_digit (n / 16)) (String (hex_digit (n mod 16)) EmptyString))))).

(** The replacement of one character in [py_encode_basestring_ascii]:
    the [ESCAPE_DCT] entries, and the [u] escape for everything else
    outside the range from space to tilde. *)
Definition escape_char (c : ascii) : string :=
  let n := N_of_ascii c in
  if (n =? 34)%N then String backslash (String dquote EmptyString)
  else if (n =? 92)%N then String backslash (String backslash EmptyString)
  else if (n =? 10)%N then String backslash "n"
  else if (n =? 13)%N then String backslash "r"
  else if (n =? 9)%N then String backslash "t"
  else if (n =? 12)%N then String backslash "f"
  else if (n =? 8)%N then String backslash "b"
  else if ((32 <=? n) && (n <=? 126))%N then String c EmptyString
  else escape_u4 c.

Fixpoint escape_body (s : string) : string :=
  match s with
  | EmptyString => EmptyString
  | String c s' => escape_char c +:+ escape_body s'
  end.

Definition encode_basestring_ascii (s : string) : string :=
  String dquote (escape_body s +:+ String dquote EmptyString).

(** [int.__repr__] *)
Definition int_repr (z : Z) : string :=
  DecimalString.NilZero.string_of_int (Z.to_int z).

(** [float.__repr__], with the encoder's names for the non-finite floats *)
Definition float_repr (f : pyfloat) : string :=
  match f with
  | FNaN => "NaN"
  | FInf => "Infinity"
  | FNegInf => "-Infinity"
  | FFinite r => r
  end.

(** ** [float(z)] for an integer, and its [repr] *)

(** The integer nearest to [a >= 0] that has at most 53 significant bits,
    ties going to the even significand: the value of [float(a)]. *)
Definition round_to_double (a : Z) : Z :=
  let n := Z.log2 a + 1 in
  if Z.leb n 53 then a
  else
    let s := n - 53 in
    let q := Z.shiftr a s in
    let r := a - Z.shiftl q s in
    let half := Z.shiftl 1 (s - 1) in
    let q' := if Z.ltb half r || (Z.eqb r half && Z.odd q) then q + 1 else q in
    Z.shiftl q' s.

(** Half the distance from the double [v >= 10 ^ 16] to its neighbours
    below and above, and whether a value that far away still rounds to
    [v] (it does when the significand of [v] is even). *)
Definition double_reach (v : Z) : Z * Z * bool :=
  let e := Z.log2 v - 52 in
  let m := Z.shiftr v e in
  let up := Z.shiftl 1 (e - 1) in
  let down := if Z.eqb m (Z.shiftl 1 52) then Z.shiftl 1 (e - 2) else up in
  (down, up, Z.even m).

Definition decimal_digits (a : Z) : Z :=
  Z.of_nat (String.length (int_repr a)).

(** The multiple of [10 ^ k] nearest to [v] that rounds to [v], if any. *)
Definition short_candidate (v k : Z) : option Z :=
  let '(down, up, incl) := double_reach v in
  let p := 10 ^ k in
  let lo := Z.mul (Z.div v p) p in
  let hi := lo + p in
  let ok_lo := if incl then Z.leb (v - lo) down else Z.ltb (v - lo) down in
  let ok_hi := if incl then Z.leb (hi - v) up else Z.ltb (hi - v) up in
  let lo_nearer :=
    Z.ltb (v - lo) (hi - v) || (Z.eqb (v - lo) (hi - v) && Z.even (Z.div v p)) in
  if ok_lo && (lo_nearer || negb ok_hi) then Some lo
  else if ok_hi then Some hi
  else None.

(** The shortest decimal that rounds to [v]: tried with [fuel] fewer
    digits first. *)
Fixpoint shortest_decimal (fuel : nat) (v k : Z) : Z :=
  match fuel with
  | O => v
  | S fuel' =>
      match short_candidate v k with
      | Some d => d
      | None => shortest_decimal fuel' v (k - 1)
      end
  end.

Fixpoint strip_zeros_rev (l : list ascii) : list ascii :=
  match l with
  | c :: l' => if Ascii.eqb c "0" then strip_zeros_rev l' else l
  | [] => []
  end.

(** The digits of [s] without the zeros at its end. *)
Definition strip_trailing_zeros (s : string) : string :=
  string_of_list_ascii (rev (strip_zeros_rev (rev (list_ascii_of_string s)))).

(** [repr(float(a))] for [0 <= a < 2 ^ 1024]: positional up to sixteen
    digits, else the shortest digits that round to the same double with
    an exponent. *)
Definition nonneg_float_repr (a : Z) : string :=
  let v := round_to_double a in
  if Z.ltb v (10 ^ 16) then int_repr v +:+ ".0"
  else
    let n := decimal_digits v in
    let d := shortest_decimal 17 v (n - 1) in
    let digits := strip_trailing_zeros (int_repr d) in
    let e := decimal_digits d - 1 in
    match digits with
    | String c EmptyString => String c ("e+" +:+ int_repr e)
    | String c rest => String c ("." +:+ rest +:+ "e+" +:+ int_repr e)
    | EmptyString => EmptyString
    end.

(** [float(z)]: the cast of an integer cell to [float64].  (Python
    raises [OverflowError] from [2 ^ 1024] on; the model takes such an
    integer to the infinity of its sign.) *)
Definition float_of_int (z : Z) : pyfloat :=
  if Z.leb (2 ^ 1024) (round_to_double (Z.abs z)) then
    (if Z.ltb z 0 then FNegInf else FInf)
  else if Z.ltb z 0 then FFinite ("-" +:+ nonneg_float_repr (Z.abs z))
  else FFinite (nonneg_float_repr z).

(** [sep.join(parts)] *)
Fixpoint str_join (sep : string) (parts : list string) : string :=
  match parts with
  | [] => EmptyString
  | [p] => p
  | p :: rest => p +:+ sep +:+ str_join sep rest
  end.

Fixpoint json_dumps (v : value) : result string :=
  match v with
  | VNone => Ok "null"
  | VBool true => Ok "true"
  | VBool false => Ok "false"
  | VInt z => Ok (int_repr z)
  | VFloat f => Ok (float_repr f)
  | VStr s => Ok (encode_basestring_ascii s)
  | VList l =>
      rbind
        ((fix elems (l : list value) : result (list string) :=
            match l with
            | [] => Ok []
            | x :: l' =>
                rbind (json_dumps x) (fun sx =>
                rbind (elems l') (fun sl => Ok (sx :: sl)))
            end) l)
        (fun parts => Ok ("[" +:+ str_join ", " parts +:+ "]"))
  | VDict items =>
      rbind
        ((fix members (l : list (string * value)) : result (list string) :=
            match l with
            | [] => Ok []
            | (k, x) :: l' =>
                rbind (json_dumps x) (fun sx =>
                rbind (members l') (fun sl =>
                Ok ((encode_basestring_ascii k +:+ ": " +:+ sx) :: sl)))
            end) items)
        (fun parts => Ok ("{" +:+ str_join ", " parts +:+ "}"))
  | VTimestamp _ =>
      Raise (TypeError "Object of type Timestamp is not JSON serializable")
  | VNaT =>
      Raise (TypeError "Object of type NaTType is not JSON serializable")
  | VDate _ =>
      Raise (TypeError "Object of type date is not JSON serializable")
  end.

(** The values [json.dumps] accepts: everything built without timestamps,
    [NaT] and dates. *)
Fixpoint json_serializable (v : value) : bool :=
  match v with
  | VList l => forallb json_serializable l
  | VDict items =>
      (fix members (l : list (string * value)) : bool :=
         match l with
         | [] => true
         | (_, x) :: l' => json_serializable x && members l'
         end) items
  | VTimestamp _ | VNaT | VDate _ => false
  | _ => true
  end.

(** ** Frames

    A frame is its index length and its columns in order, each a label and
    the cells of that column.  [len(df)] is the index length, which an
    empty column list does not determine. *)

Record DataFrame := mkDF {
  index_len : nat;
  data : list (string * list value)
}.

(** [df.columns] *)
Definition columns (df : DataFrame) : list string := map fst (data df).

Fixpoint column_lookup (c : string) (d : list (string * list value))
  : option (list value) :=
  match d with
  | [] => None
  | (k, cells) :: rest =>
      if String.eqb k c then Some cells else column_lookup c rest
  end.

(** [df[c] = cells] on the column list: an existing label keeps its place
    and gets the new cells, a new label is appended on the right. *)
Fixpoint column_assign (c : string) (cells : list value)
  (d : list (string * list value)) : list (string * list value) :=
  match d with
  | [] => [(c, cells)]
  | (k, old) :: rest =>
      if String.eqb k c then (k, cells) :: rest
      else (k, old) :: column_assign c cells rest
  end.

(** [df[c]] *)
Definition frame_getitem (df : DataFrame) (c : string) : result (list value) :=
  match column_lookup c (data df) with
  | Some cells => Ok cells
  | None => Raise (KeyError c)
  end.

(** [df[c] = cells], for cells as long as the index *)
Definition frame_setitem (df : DataFrame) (c : string) (cells : list value)
  : result DataFrame :=
  if Nat.eqb (length cells) (index_len df)
  then Ok (mkDF (index_len df) (column_assign c cells (data df)))
  else Raise (ValueError "Length of values does not match length of index").

Definition label_in (c : string) (labels : list string) : bool :=
  existsb (String.eqb c) labels.

(** [df[labels]]: a new frame with, for each requested label in turn, the
    columns that carry it; [KeyError] for a label the frame does not have. *)
Definition frame_select (df : DataFrame) (labels : list string) : result DataFrame :=
  match List.find (fun l => negb (label_in l (columns df))) labels with
  | Some l => Raise (KeyError l)
  | None =>
      Ok (mkDF (index_len df)
            (flat_map
               (fun l => List.filter (fun cd => String.eqb (fst cd) l) (data df))
               labels))
  end.

(** *** The dtype of a column and the cast of cells *)

Inductive dtype := Dbool | Dint64 | Duint64 | Dfloat64 | Ddatetime | Dobject.

Definition is_int64 (z : Z) : bool := Z.leb (- 2 ^ 63) z && Z.ltb z (2 ^ 63).
Definition is_uint64 (z : Z) : bool := Z.leb 0 z && Z.ltb z (2 ^ 64).

Definition is_bool_cell (v : value) : bool :=
  match v with VBool _ => true | _ => false end.
Definition is_int_cell (v : value) : bool :=
  match v with VInt _ => true | _ => false end.
Definition is_float_cell (v : value) : bool :=
  match v with VFloat _ => true | _ => false end.
Definition is_none_cell (v : value) : bool :=
  match v with VNone => true | _ => false end.
Definition is_str_cell (v : value) : bool :=
  match v with VStr _ => true | _ => false end.
Definition is_timestamp_cell (v : value) : bool :=
  match v with VTimestamp _ => true | _ => false end.
Definition is_date_cell (v : value) : bool :=
  match v with VDate _ => true | _ => false end.

(** The dtype pandas infers for the cells of a column; a column without
    cells is taken as [object]. *)
Definition column_dtype (cells : list value) : dtype :=
  match cells with
  | [] => Dobject
  | _ =>
      if forallb is_bool_cell cells then Dbool
      else if forallb (fun v => match v with VInt z => is_int64 z | _ => false end) cells
      then Dint64
      else if forallb (fun v => match v with VInt z => is_uint64 z | _ => false end) cells
      then Duint64
      else if forallb is_float_cell cells then Dfloat64
      else if forallb (fun v => match v with VTimestamp _ | VNaT => true | _ => false end)
                cells
      then Ddatetime
      else Dobject
  end.

(** [str(dtype)] *)
Definition dtype_name (d : dtype) : string :=
  match d with
  | Dbool => "bool"
  | Dint64 => "int64"
  | Duint64 => "uint64"
  | Dfloat64 => "float64"
  | Ddatetime => "datetime64[ns]"
  | Dobject => "object"
  end.

(** The cast of a cell to [float64]: an integer becomes the nearest
    float, [None] becomes [NaN]. *)
Definition to_float64 (v : value) : value :=
  match v with
  | VInt z => VFloat (float_of_int z)
  | VNone => VFloat FNaN
  | _ => v
  end.

(** *** The dtype inference of [Series.apply]

    [Series.apply] collects the results of the function as objects and
    converts them with [lib.maybe_convert_objects]; the [Series] made of
    them reads timestamps as [datetime64]. *)

(** The scan of the results stops with [object] at an integer that fits
    neither [int64] nor [uint64], or when both a negative integer and one
    above [int64] were met; it looks at the range of integers only until
    it meets the first [None]. *)
Fixpoint int_scan_bails (cells : list value) (uint sint : bool) : bool :=
  match cells with
  | [] => false
  | VNone :: _ => false
  | VInt z :: rest =>
      let uint' := uint || (Z.leb (2 ^ 63) z && Z.ltb z (2 ^ 64)) in
      let sint' := sint || (Z.leb (- 2 ^ 63) z && Z.ltb z 0) in
      if (uint' && sint') || Z.leb (2 ^ 64) z || Z.ltb z (- 2 ^ 63) then true
      else int_scan_bails rest uint' sint'
  | _ :: rest => int_scan_bails rest uint sint
  end.

(** Strings, lists, dicts, dates and timestamps stay objects. *)
Definition is_pyobject_cell (v : value) : bool :=
  match v with
  | VStr _ | VList _ | VDict _ | VTimestamp _ | VNaT | VDate _ => true
  | _ => false
  end.

Definition infer_objects (cells : list value) : list value :=
  if existsb is_pyobject_cell cells then
    if forallb (fun v => is_timestamp_cell v || is_null v) cells
       && existsb is_timestamp_cell cells
    then map (fun v => if is_null v then VNaT else v) cells
    else cells
  else if existsb is_bool_cell cells then cells
  else if int_scan_bails cells false false then cells
  else if existsb is_float_cell cells
          || (existsb is_none_cell cells && existsb is_int_cell cells)
  then map to_float64 cells
  else cells.

(** *** [DataFrame.merge(right, on=key, how='left')] *)

(** [==] on floats: [NaN] equals nothing, the two zeros are equal. *)
Definition is_zero_repr (r : string) : bool :=
  String.eqb r "0.0" || String.eqb r "-0.0".

Definition pyfloat_eqb (a b : pyfloat) : bool :=
  match a, b with
  | FInf, FInf | FNegInf, FNegInf => true
  | FFinite r1, FFinite r2 =>
      String.eqb r1 r2 || (is_zero_repr r1 && is_zero_repr r2)
  | _, _ => false
  end.

(** [z == f] for an integer and a float: the float is the integer
    exactly. *)
Definition int_eq_float (z : Z) (f : pyfloat) : bool :=
  Z.eqb (round_to_double (Z.abs z)) (Z.abs z) && pyfloat_eqb (float_of_int z) f.

(** Python's [==] on the scalars a key column can hold: numbers compare
    by value whatever their type, a bool being 0 or 1. *)
Definition py_eqb (a b : value) : bool :=
  match a, b with
  | VBool x, VBool y => Bool.eqb x y
  | VBool x, VInt z | VInt z, VBool x => Z.eqb (Z.b2z x) z
  | VBool x, VFloat f | VFloat f, VBool x => int_eq_float (Z.b2z x) f
  | VInt x, VInt y => Z.eqb x y
  | VInt z, VFloat f | VFloat f, VInt z => int_eq_float z f
  | VFloat x, VFloat y => pyfloat_eqb x y
  | VStr x, VStr y => String.eqb x y
  | VTimestamp x, VTimestamp y => Z.eqb x y
  | VDate x, VDate y => Z.eqb x y
  | _, _ => false
  end.

(** Two join keys match when they are equal; missing keys match each
    other, as pandas joins them. *)
Definition key_eqb (a b : value) : bool :=
  (is_null a && is_null b) || py_eqb a b.

(** The check and the cast of the two key columns
    ([_maybe_coerce_merge_keys] and [_factorize_keys]).  Key columns of
    one dtype are compared as they are; an integer and a float column
    are both cast to [float64]; a datetime column joins only a datetime
    column; an [object] column of strings (or of no integer at all)
    does not join a column of numbers.  Keys compared as objects have to
    be hashable.  Nothing is checked when one of the columns is
    empty. *)
Definition merge_error (dl dr : dtype) (name : string) : exn :=
  ValueError ("You are trying to merge on " +:+ dtype_name dl +:+ " and " +:+
              dtype_name dr +:+ " columns for key '" +:+ name +:+
              "'. If you wish to proceed you should use pd.concat").

(** What [lib.infer_dtype] calls [string] or [mixed] in an [object]
    column: no integer in it, and not dates only or timestamps only. *)
Definition string_like (cells : list value) : bool :=
  negb (existsb is_int_cell cells)
  && negb (forallb (fun v => is_date_cell v || is_null v) cells
           && existsb is_date_cell cells)
  && negb (forallb (fun v => is_timestamp_cell v || is_null v) cells
           && existsb is_timestamp_cell cells).

Definition check_hashable (lk rk : list value) : result (list value * list value) :=
  match List.find (fun v => match v with VList _ | VDict _ => true | _ => false end)
          (lk ++ rk) with
  | Some (VList _) => Raise (TypeError "unhashable type: 'list'")
  | Some _ => Raise (TypeError "unhashable type: 'dict'")
  | None => Ok (lk, rk)
  end.

Definition is_number_dtype (d : dtype) : bool :=
  match d with
  | Dint64 | Duint64 | Dfloat64 => true
  | _ => false
  end.

Definition coerce_merge_keys (name : string) (lk rk : list value)
  : result (list value * list value) :=
  match lk, rk with
  | [], _ | _, [] => check_hashable lk rk
  | _, _ =>
      let dl := column_dtype lk in
      let dr := column_dtype rk in
      match dl, dr with
      | Dbool, Dbool | Dint64, Dint64 | Duint64, Duint64
      | Dfloat64, Dfloat64 | Ddatetime, Ddatetime => Ok (lk, rk)
      | Ddatetime, _ | _, Ddatetime => Raise (merge_error dl dr name)
      | Dobject, Dobject | Dobject, Dbool | Dbool, Dobject => check_hashable lk rk
      | Dbool, _ | _, Dbool => Ok (lk, rk)
      | Dobject, _ =>
          if string_like lk then Raise (merge_error dl dr name)
          else check_hashable lk rk
      | _, Dobject =>
          if string_like rk then Raise (merge_error dl dr name)
          else check_hashable lk rk
      | _, _ => Ok (map to_float64 lk, map to_float64 rk)
      end
  end.

(** The positions of the right-hand keys that match [k], counted from [j]. *)
Fixpoint match_positions (k : value) (rkeys : list value) (j : nat) : list nat :=
  match rkeys with
  | [] => []
  | rk :: rest =>
      if key_eqb k rk then j :: match_positions k rest (S j)
      else match_positions k rest (S j)
  end.

(** The row pairs of the left join, in the order of the left rows: one pair
    per matching right row, or a single pair without a right row. *)
Fixpoint left_indexer (lkeys rkeys : list value) (i : nat) : list (nat * option nat) :=
  match lkeys with
  | [] => []
  | k :: rest =>
      match match_positions k rkeys 0 with
      | [] => [(i, None)]
      | js => map (fun j => (i, Some j)) js
      end ++ left_indexer rest rkeys (S i)
  end.

(** The missing-value marker pandas fills unmatched cells with. *)
Definition NA : value := VFloat FNaN.

Definition take_left (cells : list value) (ix : list (nat * option nat)) : list value :=
  map (fun p => nth (fst p) cells NA) ix.

(** Every left row has found a right row. *)
Definition all_matched (ix : list (nat * option nat)) : bool :=
  forallb (fun p => match snd p with Some _ => true | None => false end) ix.

(** The cells of a right-hand column along the row pairs.  Where a left
    row has no right row the cell is missing: [NaT] in a datetime
    column, [NaN] in every other, and an integer column that gets a
    missing cell becomes a float column. *)
Definition take_right (cells : list value) (ix : list (nat * option nat)) : list value :=
  let d := column_dtype cells in
  let fill := match d with Ddatetime => VNaT | _ => NA end in
  let cast :=
    if all_matched ix then (fun v : value => v)
    else match d with
         | Dint64 | Duint64 => to_float64
         | _ => (fun v : value => v)
         end in
  map (fun p => match snd p with
                | Some j => cast (nth j cells NA)
                | None => fill
                end) ix.

(** [Index.duplicated()]: for each label, whether it repeats an earlier
    one. *)
Fixpoint duplicated (seen l : list string) : list bool :=
  match l with
  | [] => []
  | x :: l' => label_in x seen :: duplicated (x :: seen) l'
  end.

(** The labels that repeat an earlier label once the suffixes are put on
    and did not before. *)
Fixpoint pick_suffix_dups (renamed : list string) (now before : list bool)
  : list string :=
  match renamed, now, before with
  | x :: l, n :: ns, b :: bs =>
      if n && negb b then x :: pick_suffix_dups l ns bs
      else pick_suffix_dups l ns bs
  | _, _, _ => []
  end.

Definition suffix_dups (labels renamed : list string) : list string :=
  pick_suffix_dups renamed (duplicated [] renamed) (duplicated [] labels).

(** pandas' [MergeError] is a [ValueError]; Python prints the labels as
    a set, in an order it does not fix: here the order of the columns. *)
Definition suffix_error (dups : list string) : exn :=
  ValueError ("Passing 'suffixes' which cause duplicate columns {" +:+
              str_join ", " (map (fun l => "'" +:+ l +:+ "'") (remove_dups dups)) +:+
              "} is not allowed.").

(** The labels of the two sides in the result: a label carried by both
    frames gets the suffix [_x] on the left and [_y] on the right; the
    key is a label of the left side only. *)
Definition left_label (right_labels : list string) (l : string) : string :=
  if label_in l right_labels then l +:+ "_x" else l.

Definition right_label (left_labels : list string) (l : string) : string :=
  if label_in l left_labels then l +:+ "_y" else l.

(** The key column comes from the left frame, the other columns of the
    right frame follow those of the left.  The merge refuses suffixes
    that make two labels of one side equal. *)
Definition merge_left (left right : DataFrame) (key : string) : result DataFrame :=
  rbind (frame_getitem left key) (fun lkeys =>
  rbind (frame_getitem right key) (fun rkeys =>
  rbind (coerce_merge_keys key lkeys rkeys) (fun keys =>
  let ix := left_indexer (fst keys) (snd keys) 0 in
  let rdata := List.filter (fun cd => negb (String.eqb (fst cd) key)) (data right) in
  let llabels := map (left_label (map fst rdata)) (columns left) in
  let rlabels := map (right_label (columns left)) (map fst rdata) in
  match suffix_dups (columns left) llabels ++ suffix_dups (map fst rdata) rlabels with
  | [] =>
      Ok (mkDF (length ix)
            (map (fun cd => (left_label (map fst rdata) (fst cd),
                             take_left (snd cd) ix)) (data left) ++
             map (fun cd => (right_label (columns left) (fst cd),
                             take_right (snd cd) ix)) rdata))
  | dups => Raise (suffix_error dups)
  end))).

(** ** [uuid.uuid4] and [str(UUID)] *)

(** [UUID(bytes=b, version=4)]: the variant and version bits are forced on
    the integer read from the 16 bytes. *)
Definition uuid_v4_of_int (b : Z) : Z :=
  let i := Z.land b (Z.lnot (Z.shiftl 0xc000 48)) in
  let i := Z.lor i (Z.shiftl 0x8000 48) in
  let i := Z.land i (Z.lnot (Z.shiftl 0xf000 64)) in
  Z.lor i (Z.shiftl 4 76).

(** The bits of the random integer that survive in the identifier. *)
Definition uuid_random_bits : Z :=
  Z.ldiff (Z.ones 128) (Z.lor (Z.shiftl 0xc000 48) (Z.shiftl 0xf000 64)).

Fixpoint zeros (n : nat) : string :=
  match n with
  | O => EmptyString
  | S n' => String "0" (zeros n')
  end.

(** ['%032x' % i] for a non-negative [i] *)
Definition hex32 (i : Z) : string :=
  let digits := HexadecimalString.NilZero.string_of_uint (N.to_hex_uint (Z.to_N i)) in
  zeros (32 - String.length digits) +:+ digits.

(** [s[lo:hi]] *)
Definition str_slice (s : string) (lo hi : nat) : string :=
  string_of_list_ascii (take (hi - lo) (drop lo (list_ascii_of_string s))).

(** [UUID.__str__] *)
Definition uuid_str (i : Z) : string :=
  let hex := hex32 i in
  str_slice hex 0 8 +:+ "-" +:+ str_slice hex 8 12 +:+ "-" +:+
  str_slice hex 12 16 +:+ "-" +:+ str_slice hex 16 20 +:+ "-" +:+
  str_slice hex 20 32.

(** ** The world of a run: the store of frames and the entropy source

    [entropy k] is the integer value of the [k]-th 16-byte answer of
    [os.urandom]; only its low 128 bits are used. *)

Record world := mkWorld {
  frames : gmap nat DataFrame;
  entropy : nat -> Z;
  drawn : nat
}.

Definition M (A : Type) : Type := world -> result A * world.

Definition ret {A} (a : A) : M A := fun w => (Ok a, w).

Definition raise {A} (e : exn) : M A := fun w => (Raise e, w).

Definition bind {A B} (m : M A) (k : A -> M B) : M B :=
  fun w =>
    match m w with
    | (Ok a, w') => k a w'
    | (Raise e, w') => (Raise e, w')
    end.

Notation "x <- c ;; k" := (bind c (fun x => k))
  (at level 100, c at next level, right associativity).
Notation "c ;;; k" := (bind c (fun _ => k))
  (at level 100, right associativity).

Definition lift {A} (r : result A) : M A := fun w => (r, w).

Definition set_frames (w : world) (fs : gmap nat DataFrame) : world :=
  mkWorld fs (entropy w) (drawn w).

(** Reading the frame a reference points to. *)
Definition deref (r : nat) : M DataFrame :=
  fun w =>
    match frames w !! r with
    | Some df => (Ok df, w)
    | None => (Raise ReferenceError, w)
    end.

(** Replacing the frame a reference points to: every holder of the
    reference sees the new contents. *)
Definition update (r : nat) (df : DataFrame) : M unit :=
  fun w => (Ok tt, set_frames w (<[r := df]> (frames w))).

(** A new frame object, at a reference not in use. *)
Definition new_frame (df : DataFrame) : M nat :=
  fun w =>
    let r := fresh (dom (frames w)) in
    (Ok r, set_frames w (<[r := df]> (frames w))).

(** [int.from_bytes(os.urandom(16))] *)
Definition os_urandom16 : M Z :=
  fun w =>
    (Ok (entropy w (drawn w) mod 2 ^ 128),
     mkWorld (frames w) (entropy w) (S (drawn w))).

Definition uuid4 : M Z :=
  b <- os_urandom16 ;;
  ret (uuid_v4_of_int b).

(** [df[c]], [df[c] = cells], [len(df)], [df.columns], [df[labels]] and
    [left.merge(right, on=key, how='left')] on references. *)
Definition df_getitem (r : nat) (c : string) : M (list value) :=
  df <- deref r ;;
  lift (frame_getitem df c).

Definition df_setitem (r : nat) (c : string) (cells : list value) : M unit :=
  df <- deref r ;;
  df' <- lift (frame_setitem df c cells) ;;
  update r df'.

Definition df_len (r : nat) : M nat :=
  df <- deref r ;;
  ret (index_len df).

Definition df_columns (r : nat) : M (list string) :=
  df <- deref r ;;
  ret (columns df).

Definition df_select (r : nat) (labels : list string) : M nat :=
  df <- deref r ;;
  df' <- lift (frame_select df labels) ;;
  new_frame df'.

Definition df_merge_left (l r : nat) (key : string) : M nat :=
  left <- deref l ;;
  right <- deref r ;;
  out <- lift (merge_left left right key) ;;
  new_frame out.

(** [for x in xs: body(x)] *)
Fixpoint for_each {A} (xs : list A) (body : A -> M unit) : M unit :=
  match xs with
  | [] => ret tt
  | x :: xs' => body x ;;; for_each xs' body
  end.

(** [[e for _ in range(n)]] *)
Fixpoint list_of_range {A} (n : nat) (e : M A) : M (list A) :=
  match n with
  | O => ret []
  | S n' =>
      x <- e ;;
      xs <- list_of_range n' e ;;
      ret (x :: xs)
  end.

(** The results of [f] on the cells in turn, up to the first exception *)
Fixpoint map_cells (f : value -> result value) (cells : list value)
  : result (list value) :=
  match cells with
  | [] => Ok []
  | x :: rest =>
      rbind (f x) (fun y =>
      rbind (map_cells f rest) (fun ys => Ok (y :: ys)))
  end.

(** [series.apply(f)] for an [f] that may raise: the results, in the
    dtype inferred for them *)
Definition series_apply (f : value -> result value) (cells : list value)
  : result (list value) :=
  rbind (map_cells f cells) (fun ys => Ok (infer_objects ys)).

(** ** The stages of [etl_pipeline.py] *)

(** [lambda x: x.get(field) if isinstance(x, dict) else None] *)
Definition details_get (field : string) (x : value) : value :=
  match x with
  | VDict items =>
      match dict_get field items with
      | Some v => v
      | None => VNone
      end
  | _ => VNone
  end.

Definition extract_details_fields (df : nat) (fields : option (list string)) : M nat :=
  details <- df_getitem df "details" ;;
  raw <- lift (series_apply
                 (fun x => rbind (json_dumps x) (fun s => Ok (VStr s))) details) ;;
  df_setitem df "details_raw" raw ;;;
  let all_fields := extract_all_fields fields in
  for_each all_fields (fun field =>
    details <- df_getitem df "details" ;;
    projected <- lift (series_apply (fun x => Ok (details_get field x)) details) ;;
    df_setitem df field projected) ;;;
  ret df.

Definition join_data (profiles_df events_df : nat) : M nat :=
  df <- df_merge_left events_df profiles_df "user_id" ;;
  ret df.

Definition generate_event_id (df : nat) : M nat :=
  n <- df_len df ;;
  ids <- list_of_range n (u <- uuid4 ;; ret (VStr (uuid_str u))) ;;
  df_setitem df "event_id" ids ;;;
  ret df.

Definition select_final_columns (df : nat) (extra_fields : option (list string)) : M nat :=
  let final_columns := select_final_column_list extra_fields in
  cols <- df_columns df ;;
  let available_columns := List.filter (fun col => label_in col cols) final_columns in
  df_select df available_columns.

(** The transform part of [run_etl], between the loaders and the writer. *)
Definition run_transform (profiles events : nat) (extract_fields : option (list string))
  : M nat :=
  events <- extract_details_fields events extract_fields ;;
  full_data <- join_data profiles events ;;
  full_data <- generate_event_id full_data ;;
  select_final_columns full_data extract_fields.

(** ** The profile loader: the text repair of [load_user_profiles]

    Text is a list of code points here. *)

Definition BOM : N := 0xFEFF%N.
Definition LF : N := 10%N.
Definition CR : N := 13%N.
Definition QUOTE : N := 34%N.

(** [str.isspace] on one character *)
Definition is_space (c : N) : bool :=
  ((9 <=? c) && (c <=? 13) || (28 <=? c) && (c <=? 32) ||
   (c =? 0x85) || (c =? 0xA0) || (c =? 0x1680) ||
   (0x2000 <=? c) && (c <=? 0x200A) ||
   (c =? 0x2028) || (c =? 0x2029) || (c =? 0x202F) || (c =? 0x205F) ||
   (c =? 0x3000))%N.

Definition is_quote (c : N) : bool := (c =? QUOTE)%N.

Fixpoint lstrip (p : N -> bool) (l : list N) : list N :=
  match l with
  | [] => []
  | c :: l' => if p c then lstrip p l' else l
  end.

Definition rstrip (p : N -> bool) (l : list N) : list N :=
  rev (lstrip p (rev l)).

(** [s.strip()] is [strip is_space s]; [s.strip(q)], for [q] the string of
    the one quote character, is [strip is_quote s]: every leading and every
    trailing character of the class is removed. *)
Definition strip (p : N -> bool) (l : list N) : list N :=
  rstrip p (lstrip p l).

(** The [utf-8-sig] codec on text already decoded as UTF-8: one leading
    byte-order mark is dropped. *)
Definition decode_sig (t : list N) : list N :=
  match t with
  | c :: rest => if (c =? BOM)%N then rest else t
  | [] => []
  end.

(** Text mode with universal newlines: CR LF and a lone CR read as LF. *)
Fixpoint universal_newlines (t : list N) : list N :=
  match t with
  | [] => []
  | c :: rest =>
      if (c =? CR)%N then
        LF :: match rest with
              | [] => []
              | d :: rest' =>
                  if (d =? LF)%N then universal_newlines rest'
                  else universal_newlines rest
              end
      else c :: universal_newlines rest
  end.

(** [for line in f]: the lines, each with its line feed; [cur] is the part
    of the current line read so far. *)
Fixpoint file_lines (t : list N) (cur : list N) : list (list N) :=
  match t with
  | [] => match cur with [] => [] | _ => [cur] end
  | c :: rest =>
      if (c =? LF)%N then (cur ++ [c]) :: file_lines rest []
      else file_lines rest (cur ++ [c])
  end.

(** Line 28: strip white space, then strip the quote character. *)
Definition repair_line (line : list N) : list N :=
  strip is_quote (strip is_space line).

Fixpoint text_join (sep : list N) (parts : list (list N)) : list N :=
  match parts with
  | [] => []
  | [p] => p
  | p :: rest => p ++ sep ++ text_join sep rest
  end.

(** Lines 27-29: from the decoded bytes of one file to [fixed_csv]. *)
Definition fixed_csv_of (decoded : list N) : list N :=
  let f := universal_newlines (decode_sig decoded) in
  let lines := map repair_line (file_lines f []) in
  text_join [LF] lines.

(** The repair the specification describes: at most one quote character
    is taken from each end of the stripped line. *)
Definition strip_one_quote_layer (l : list N) : list N :=
  let l1 := match l with
            | c :: l' => if is_quote c then l' else l
            | [] => []
            end in
  match rev l1 with
  | c :: r' => if is_quote c then rev r' else l1
  | [] => []
  end.

Definition repair_line_single_layer (line : list N) : list N :=
  strip_one_quote_layer (strip is_space line).

(** [pd.concat(dfs, ignore_index=True)].  The labels of a frame are
    taken to be distinct, as [read_csv] and [read_json] make them. *)

Definition dtype_eqb (a b : dtype) : bool :=
  match a, b with
  | Dbool, Dbool | Dint64, Dint64 | Duint64, Duint64 | Dfloat64, Dfloat64
  | Ddatetime, Ddatetime | Dobject, Dobject => true
  | _, _ => false
  end.

(** [find_common_type] on the dtypes of the blocks of a column: their
    dtype when they have one, [float64] for integer and float blocks
    together, [object] otherwise. *)
Definition common_dtype (ds : list dtype) : dtype :=
  match ds with
  | [] => Dobject
  | d :: rest =>
      if forallb (dtype_eqb d) rest then d
      else if forallb is_number_dtype ds then Dfloat64
      else Dobject
  end.

(** The dtype that holds the cells of [d] and a missing cell. *)
Definition hold_na (d : dtype) : dtype :=
  match d with
  | Dint64 | Duint64 => Dfloat64
  | Dbool => Dobject
  | _ => d
  end.

(** A frame without rows and without columns is left out of the
    concatenation, unless every frame is such a frame. *)
Definition is_empty_frame (df : DataFrame) : bool :=
  Nat.eqb (index_len df) 0 && match data df with [] => true | _ => false end.

Definition non_empties (dfs : list DataFrame) : list DataFrame :=
  match List.filter (fun df => negb (is_empty_frame df)) dfs with
  | [] => dfs
  | kept => kept
  end.

(** The dtype of column [c] of the result: the common dtype of the
    blocks that have rows; a frame that does not carry [c] brings missing
    cells, which an integer or boolean column cannot hold. *)
Definition concat_dtype (c : string) (dfs : list DataFrame) : dtype :=
  let d := common_dtype
             (flat_map (fun df => match column_lookup c (data df) with
                                  | Some (x :: cells) => [column_dtype (x :: cells)]
                                  | _ => []
                                  end) dfs) in
  if forallb (fun df => label_in c (columns df)) dfs then d else hold_na d.

Definition cast_cells (d : dtype) (cells : list value) : list value :=
  if dtype_eqb (column_dtype cells) d then cells
  else match d with
       | Dfloat64 => map to_float64 cells
       | _ => cells
       end.

(** The cells of column [c]: those of each frame in turn, cast to the
    dtype of the column, and missing cells ([NaT] in a datetime column,
    [NaN] in every other) for the rows of a frame that does not carry
    [c]. *)
Definition concat_cells (c : string) (dfs : list DataFrame) : list value :=
  let d := concat_dtype c dfs in
  flat_map (fun df => match column_lookup c (data df) with
                      | Some cells => cast_cells d cells
                      | None =>
                          repeat (match d with Ddatetime => VNaT | _ => NA end)
                            (index_len df)
                      end) dfs.

(** The rows of the frames one after the other, over the union of their
    labels in order of first appearance. *)
Definition concat (dfs : list DataFrame) : result DataFrame :=
  match dfs with
  | [] => Raise (ValueError "No objects to concatenate")
  | _ =>
      let kept := non_empties dfs in
      let labels := remove_dups (flat_map columns kept) in
      Ok (mkDF (foldr (fun df n => (index_len df + n)%nat) 0%nat kept)
            (map (fun c => (c, concat_cells c kept)) labels))
  end.

Section Loader.

(** The file system and the CSV parser are outside the program:
    [open_utf8 path] is the UTF-8 decoding of the file's bytes (or the
    exception [open] or the decoder raises), [read_csv text parse_dates]
    is [pd.read_csv(StringIO(text), parse_dates=parse_dates)]. *)
Variable open_utf8 : string -> result (list N).
Variable read_csv : list N -> list string -> result DataFrame.

Definition load_profile_file (csv_path : string) : result DataFrame :=
  rbind (open_utf8 csv_path) (fun decoded =>
  let fixed_csv := fixed_csv_of decoded in
  read_csv fixed_csv ["registration_date"]).

Fixpoint load_profile_files (csv_paths : list string) : result (list DataFrame) :=
  match csv_paths with
  | [] => Ok []
  | p :: rest =>
      rbind (load_profile_file p) (fun df =>
      rbind (load_profile_files rest) (fun dfs => Ok (df :: dfs)))
  end.

Definition load_user_profiles (csv_paths : list string) : M nat :=
  dfs <- lift (load_profile_files csv_paths) ;;
  combined <- lift (concat dfs) ;;
  new_frame combined.

End Loader.

(** ** [query_output.py] *)

(** [str(e)]; a [KeyError] shows its key between quotes. *)
Definition exn_str (e : exn) : string :=
  match e with
  | KeyError k => "'" +:+ k +:+ "'"
  | TypeError m | ValueError m | FileNotFoundError m
  | RuntimeError m | EngineError m => m
  | ReferenceError => EmptyString
  end.

(** [s.replace(old, new)] for a non-empty [old]: occurrences are replaced
    from the left and do not overlap; [skip] counts the characters of a
    replaced occurrence still to pass over. *)
Fixpoint str_replace_from (old new s : string) (skip : nat) : string :=
  match s with
  | EmptyString => EmptyString
  | String c s' =>
      match skip with
      | S k => str_replace_from old new s' k
      | O =>
          if String.prefix old s
          then new +:+ str_replace_from old new s' (String.length old - 1)
          else String c (str_replace_from old new s' 0)
      end
  end.

(** With an empty [old], [new] goes before every character and at the end. *)
Fixpoint str_replace_empty (new s : string) : string :=
  match s with
  | EmptyString => new
  | String c s' => new +:+ String c (str_replace_empty new s')
  end.

Definition str_replace (s old new : string) : string :=
  match old with
  | EmptyString => str_replace_empty new s
  | _ => str_replace_from old new s 0
  end.

(** The character [c] occurs in [s]. *)
Fixpoint occurs (c : ascii) (s : string) : bool :=
  match s with
  | EmptyString => false
  | String d s' => Ascii.eqb c d || occurs c s'
  end.

Fixpoint ends_with_slash (p : string) : bool :=
  match p with
  | EmptyString => false
  | String c EmptyString => Ascii.eqb c "/"
  | String _ p' => ends_with_slash p'
  end.

(** [str(path / rel)] for an absolute POSIX [path] and a relative [rel] *)
Definition path_join (path rel : string) : string :=
  if ends_with_slash path then path +:+ rel else path +:+ "/" +:+ rel.

Inductive engine_event :=
| Connect
| Execute (query : string)
| Close.

Section Query.

(** The file system and the embedded engine are outside the program:
    [path_resolve p] is [str(Path(p).resolve())], [path_exists] is
    [Path.exists], [engine_run q] is [con.execute(q).df()] on a fresh
    connection. *)
Variable path_resolve : string -> string.
Variable path_exists : string -> bool.
Variable engine_run : string -> result DataFrame.

(** The result and the trace of calls made to the engine. *)
Definition query_output_parquet (query parquet_path : string)
  : result DataFrame * list engine_event :=
  let resolved_path := path_resolve parquet_path in
  if negb (path_exists resolved_path) then
    (Raise (FileNotFoundError
              ("Provided path does not exist: " +:+ resolved_path)), [])
  else
    let formatted_query :=
      str_replace query "{parquet_path}" (path_join resolved_path "**/*.parquet") in
    match engine_run formatted_query with
    | Ok result_df => (Ok result_df, [Connect; Execute formatted_query; Close])
    | Raise e =>
        (Raise (RuntimeError ("Query failed: " +:+ exn_str e)),
         [Connect; Execute formatted_query; Close])
    end.

End Query.

(** ** Readings of the stages on frames, used to state their properties *)

(** The cell [json.dumps] leaves in [details_raw]. *)
Definition dumps_cell (x : value) : result value :=
  rbind (json_dumps x) (fun s => Ok (VStr s)).

(** The loop of lines 64-65 on the columns of the frame: each field in
    turn is assigned the projection of the [details] column as it stands
    at that moment, in the dtype [Series.apply] infers for it. *)
Fixpoint project_fields (fs : list string) (d : list (string * list value))
  : list (string * list value) :=
  match fs with
  | [] => d
  | f :: fs' =>
      match column_lookup "details" d with
      | Some det =>
          project_fields fs'
            (column_assign f (infer_objects (map (details_get f) det)) d)
      | None => d
      end
  end.

(** The [details] cells the projection of [f] reads: the original ones,
    unless [details] is itself a requested field that sorts before [f]. *)
Definition details_seen_by (fs : list string) (f : string) (det : list value)
  : list value :=
  if label_in "details" fs && String.ltb "details" f
  then infer_objects (map (details_get "details") det)
  else det.

(** The world after the frame at [r] has been replaced. *)
Definition put (w : world) (r : nat) (df : DataFrame) : world :=
  set_frames w (<[r := df]> (frames w)).

(** The number of profile keys an event key matches. *)
Definition match_count (k : value) (pkeys : list value) : nat :=
  length (List.filter (key_eqb k) pkeys).

(** A stage is a pure transform when the frame it was given is the same
    after the call as before. *)
Definition leaves_input_unchanged (stage : nat -> M nat) : Prop :=
  forall w r df, frames w !! r = Some df -> frames (snd (stage r w)) !! r = Some df.

(** The names of [names] that are not among the [existing] labels. *)
Definition fresh_labels (names existing : list string) : list string :=
  List.filter (fun f => negb (label_in f existing)) names.

(** A raw cell holds the [json.dumps] text of the [details] cell. *)
Definition serialized_cell (x y : value) : Prop :=
  exists s, json_dumps x = Ok s /\ y = VStr s.

(** The [details_raw] column of [df] holds, row by row, the text of the
    [details] cells [det]. *)
Definition details_raw_holds_text (det : list value) (df : DataFrame) : Prop :=
  exists raw, column_lookup "details_raw" (data df) = Some raw /\
              Forall2 serialized_cell det raw.

(** ** The scenario of the specification, as frames *)

Definition scenario_events : DataFrame :=
  mkDF 2
    [("user_id", [VInt 1; VInt 3]);
     ("event_type", [VStr "click"; VStr "view"]);
     ("timestamp", [VTimestamp 1706781600; VTimestamp 1706871600]);
     ("details", [VDict [("page_url", VStr "/x")]; VNone]);
     ("event_date", [VDate 19754; VDate 19755])].

Definition scenario_profiles : DataFrame :=
  mkDF 2
    [("user_id", [VInt 1; VInt 2]);
     ("name", [VStr "A"; VStr "B"]);
     ("registration_date", [VTimestamp 1704067200; VTimestamp 1704412800])].

(** Profiles at reference 0, events at reference 1; the entropy source
    answers [7 * k + 1] at its [k]-th call. *)
Definition scenario_world : world :=
  mkWorld (<[1%nat := scenario_events]> (<[0%nat := scenario_profiles]> ∅))
          (fun k => 7 * Z.of_nat k + 1) 0.

(** An event frame whose only other column is [user_id] and whose single
    [details] cell has a [user_id] key of its own. *)
Definition collision_events : DataFrame :=
  mkDF 1
    [("user_id", [VInt 1]);
     ("details", [VDict [("user_id", VInt 7)]])].

Definition collision_world : world :=
  mkWorld (<[0%nat := collision_events]> ∅) (fun _ => 0) 0.

(** The bits every version-4 identifier carries: variant and version. *)
Definition uuid_fixed_bits : Z :=
  Z.lor (Z.shiftl 0x8000 48) (Z.shiftl 4 76).

(** The world after [n] more draws from the entropy source. *)
Definition advance (w : world) (n : nat) : world :=
  mkWorld (frames w) (entropy w) (drawn w + n).

(** The identifier made from the [k]-th answer of the entropy source. *)
Definition event_id_of_draw (w : world) (k : nat) : value :=
  VStr (uuid_str (uuid_v4_of_int (entropy w k mod 2 ^ 128))).

(** [str(UUID)] on the characters of the 32 hexadecimal digits. *)
Definition uuid_chars (l : list ascii) : list ascii :=
  take 8 l ++ "-"%char :: take 4 (drop 8 l) ++ "-"%char ::
  take 4 (drop 12 l) ++ "-"%char :: take 4 (drop 16 l) ++ "-"%char ::
  take 12 (drop 20 l).

(** [k] leading zero digits in front of a hexadecimal numeral. *)
Fixpoint pad_zeros (k : nat) (d : Hexadecimal.uint) : Hexadecimal.uint :=
  match k with
  | O => d
  | S k' => Hexadecimal.D0 (pad_zeros k' d)
  end.

(** ** Effects of a computation on the store of frames *)

(** No frame that exists before the computation is changed by it. *)
Definition preserves_frames {A} (m : M A) : Prop :=
  forall w r df, frames w !! r = Some df -> frames (snd (m w)) !! r = Some df.

(** The computation changes no reference other than [r]. *)
Definition touches_only (r : nat) {A} (m : M A) : Prop :=
  forall w q, q <> r -> frames (snd (m w)) !! q = frames w !! q.

(** When the computation succeeds, it returns a reference that was not in
    use before and that points to a frame afterwards. *)
Definition returns_fresh (m : M nat) : Prop :=
  forall w r', fst (m w) = Ok r' ->
    frames w !! r' = None /\ is_Some (frames (snd (m w)) !! r').

(** When the computation succeeds, it returns the reference [r]. *)
Definition returns_ref (r : nat) (m : M nat) : Prop :=
  forall w r', fst (m w) = Ok r' -> r' = r.

(** Neither the first nor the last character of [l] is of class [p]. *)
Definition no_edge (p : N -> bool) (l : list N) : Prop :=
  (forall c, head l = Some c -> p c = false) /\
  (forall c, last l = Some c -> p c = false).

(** [s] is [l] without some leading and some trailing characters, all of
    class [p]. *)
Definition trimmed_of (p : N -> bool) (l s : list N) : Prop :=
  exists a b, l = a ++ s ++ b /\
              Forall (fun c => p c = true) a /\ Forall (fun c => p c = true) b.

(** Profiles in which the [user_id] 1 appears twice. *)
Definition duplicate_profiles : DataFrame :=
  mkDF 3
    [("user_id", [VInt 1; VInt 2; VInt 1]);
     ("name", [VStr "A"; VStr "B"; VStr "A2"])].


(** ** Readings used to state the properties of the stages *)

(** The cell [y] holds the value [x] in the dtype of its column: the
    value itself, a missing cell for a missing value, or the float of an
    integer. *)
Definition stored_as (x y : value) : Prop :=
  y = x \/
  (is_null x = true /\ is_null y = true) \/
  (exists z, x = VInt z /\ y = VFloat (float_of_int z)).

(** Every integer in the value fits in 64 bits, signed or unsigned, as
    the integers that [read_json] reads do. *)
Fixpoint ints_fit (v : value) : bool :=
  match v with
  | VInt z => is_int64 z || is_uint64 z
  | VList l => forallb ints_fit l
  | VDict items =>
      (fix members (l : list (string * value)) : bool :=
         match l with
         | [] => true
         | (_, x) :: l' => ints_fit x && members l'
         end) items
  | _ => true
  end.

(** Key columns of one kind: 64-bit integers, or strings. *)
Definition int_keys (keys : list value) : Prop :=
  Forall (fun k => exists z, k = VInt z /\ is_int64 z = true) keys.

Definition str_keys (keys : list value) : Prop :=
  Forall (fun k => exists s, k = VStr s) keys.

Definition same_kind_keys (lkeys rkeys : list value) : Prop :=
  (int_keys lkeys /\ int_keys rkeys) \/ (str_keys lkeys /\ str_keys rkeys).

(** The suffixes of the merge make no label of one side equal to
    another label of that side. *)
Definition no_suffix_clash (left right : DataFrame) (key : string) : Prop :=
  let rlabels :=
    map fst (List.filter (fun cd => negb (String.eqb (fst cd) key)) (data right)) in
  suffix_dups (columns left) (map (left_label rlabels) (columns left)) = [] /\
  suffix_dups rlabels (map (right_label (columns left)) rlabels) = [].


(** [UUID.version]: bits 76 to 79 of the integer. *)
Definition uuid_version (u : Z) : Z := Z.land (Z.shiftr u 76) 0xf.

(** The two bits by which [UUID.variant] tells the RFC 4122 layout (they
    are 1 then 0) from the NCS and Microsoft ones. *)
Definition uuid_variant_bits (u : Z) : Z := Z.land (Z.shiftr u 62) 3.

(** The text of a version-4 identifier in the RFC 4122 layout. *)
Definition is_uuid4_text (s : string) : Prop :=
  exists u, s = uuid_str u /\ 0 <= u < 2 ^ 128 /\
            uuid_version u = 4 /\ uuid_variant_bits u = 2.

(** Events without a [details] column, as a file in which no record has
    that key gives them. *)
Definition plain_events : DataFrame :=
  mkDF 2
    [("user_id", [VInt 1; VInt 3]);
     ("event_type", [VStr "click"; VStr "view"])].

Definition plain_world : world :=
  mkWorld (<[0%nat := plain_events]> ∅) (fun _ => 0) 0.

(** Events whose [details] hold a date object: a frame built in Python,
    not one read from JSON. *)
Definition dated_details_events : DataFrame :=
  mkDF 1
    [("user_id", [VInt 1]);
     ("details", [VDict [("seen", VDate 19754)]])].

Definition dated_details_world : world :=
  mkWorld (<[0%nat := dated_details_events]> ∅) (fun _ => 0) 0.

(** Events whose [item_id] is an integer on one row and missing on the
    other. *)
Definition item_events : DataFrame :=
  mkDF 2
    [("user_id", [VInt 1; VInt 3]);
     ("details", [VDict [("item_id", VInt 5)]; VNone])].

Definition item_world : world :=
  mkWorld (<[0%nat := item_events]> ∅) (fun _ => 0) 0.

(** ** Further inputs used to exercise the stages *)

(** Events that carry neither a [user_id] nor a [timestamp]. *)
Definition keyless_events : DataFrame :=
  mkDF 1
    [("event_type", [VStr "view"]);
     ("details", [VNone])].

(** The scenario's profiles at reference 0, the keyless events at
    reference 1. *)
Definition keyless_world : world :=
  mkWorld (<[1%nat := keyless_events]> (<[0%nat := scenario_profiles]> ∅))
          (fun _ => 0) 0.

(** Profiles whose keys were read as text. *)
Definition text_key_profiles : DataFrame :=
  mkDF 2
    [("user_id", [VStr "1"; VStr "2"]);
     ("name", [VStr "A"; VStr "B"])].

Definition text_key_world : world :=
  mkWorld (<[1%nat := scenario_events]> (<[0%nat := text_key_profiles]> ∅))
          (fun _ => 0) 0.

(** [s.endswith(suffix)] *)
Fixpoint has_suffix (suffix s : string) : bool :=
  String.eqb s suffix ||
  match s with
  | EmptyString => false
  | String _ s' => has_suffix suffix s'
  end.

(** A digit of [%x]: [0] to [9] or [a] to [f]. *)
Definition is_lower_hex (c : ascii) : bool :=
  let n := N_of_ascii c in
  ((48 <=? n) && (n <=? 57) || (97 <=? n) && (n <=? 102))%N.

(** Every column of the frame has one cell per row. *)
Definition full_columns (df : DataFrame) : Prop :=
  Forall (fun cd => length (snd cd) = index_len df) (data df).

(** [sum(len(df) for df in dfs)] *)
Definition total_rows (dfs : list DataFrame) : nat :=
  foldr (fun df n => (index_len df + n)%nat) 0%nat dfs.

(** A line that needs no repair: no line feed or carriage return inside,
    no white space and no quote at either end. *)
Definition clean_line (body : list N) : Prop :=
  (LF ∉ body) /\ (CR ∉ body) /\ no_edge is_space body /\ no_edge is_quote body.

(** A character from space to tilde. *)
Definition is_printable (c : ascii) : bool :=
  let n := N_of_ascii c in ((32 <=? n) && (n <=? 126))%N.

Definition printable (s : string) : Prop :=
  Forall (fun c => is_printable c = true) (list_ascii_of_string s).

(** The [repr] texts of the finite floats inside a value are printable, as
    those of Python floats are. *)
Fixpoint float_reprs_printable (v : value) : Prop :=
  match v with
  | VFloat (FFinite r) => printable r
  | VList l =>
      (fix all (l : list value) : Prop :=
         match l with
         | [] => True
         | x :: l' => float_reprs_printable x /\ all l'
         end) l
  | VDict items =>
      (fix all (l : list (string * value)) : Prop :=
         match l with
         | [] => True
         | (_, x) :: l' => float_reprs_printable x /\ all l'
         end) items
  | _ => True
  end.





(** ** The event loader *)

Section EventLoader.

(** The JSON reader and the date parser are outside the program:
    [read_json path] is [pd.read_json(path)], [to_datetime cells] is
    [pd.to_datetime] on a column, [dt_date cells] is the [.dt.date] of a
    column; each gives the cells of the resulting column, or the
    exception raised. *)
Variable read_json : string -> result DataFrame.
Variable to_datetime : list value -> result (list value).
Variable dt_date : list value -> result (list value).

Fixpoint load_event_files (json_paths : list string) : result (list DataFrame) :=
  match json_paths with
  | [] => Ok []
  | p :: rest =>
      rbind (read_json p) (fun df =>
      rbind (load_event_files rest) (fun dfs => Ok (df :: dfs)))
  end.

Definition load_user_events (json_paths : list string) : M nat :=
  dfs <- lift (load_event_files json_paths) ;;
  combined <- lift (concat dfs) ;;
  df_all <- new_frame combined ;;
  raw <- df_getitem df_all "timestamp" ;;
  parsed <- lift (to_datetime raw) ;;
  df_setitem df_all "timestamp" parsed ;;;
  stamps <- df_getitem df_all "timestamp" ;;
  dates <- lift (dt_date stamps) ;;
  df_setitem df_all "event_date" dates ;;;
  ret df_all.

End EventLoader.

(** The cells of column [c] over the rows of the frames [dfs], one frame
    after the other. *)
Definition stacked_cells (c : string) (dfs : list DataFrame) : list value :=
  flat_map (fun df => match column_lookup c (data df) with
                      | Some cells => cells
                      | None => repeat NA (index_len df)
                      end) dfs.

(** Column [c] has one dtype over the frames: every frame carries it,
    and its blocks that have rows have the same dtype. *)
Definition one_dtype (c : string) (dfs : list DataFrame) : Prop :=
  exists d,
    Forall (fun df => exists cells,
              column_lookup c (data df) = Some cells /\
              (cells = [] \/ column_dtype cells = d)) dfs.

(** No label of the frames ends in [suffix]. *)
Definition plain_labels (suffix : string) (dfs : list DataFrame) : Prop :=
  Forall (fun df => Forall (fun c => has_suffix suffix c = false) (columns df)) dfs.

(** The frame [pd.concat] makes of a non-empty list of frames. *)
Definition concatenated (dfs : list DataFrame) : DataFrame :=
  let kept := non_empties dfs in
  mkDF (total_rows kept)
    (map (fun c => (c, concat_cells c kept)) (remove_dups (flat_map columns kept))).

(** The event frame once its dates are set. *)
Definition with_dates (parsed dates : list value) (df : DataFrame) : DataFrame :=
  mkDF (index_len df)
    (column_assign "event_date" dates
       (column_assign "timestamp" parsed (data df))).

(** The events of a file whose reader leaves the time stamps as text. *)
Definition raw_events : DataFrame :=
  mkDF 2
    [("user_id", [VInt 1; VInt 3]);
     ("event_type", [VStr "click"; VStr "view"]);
     ("timestamp", [VStr "2024-02-01T10:00:00"; VStr "2024-02-02T11:00:00"]);
     ("details", [VDict [("page_url", VStr "/x")]; VNone])].

(** A parser that knows the two instants of [raw_events], and the day of
    an instant counted in seconds. *)
Definition sample_to_datetime (cells : list value) : result (list value) :=
  Ok (map (fun x => match x with
                    | VStr "2024-02-01T10:00:00" => VTimestamp 1706781600
                    | VStr "2024-02-02T11:00:00" => VTimestamp 1706871600
                    | _ => NA
                    end) cells).

Definition sample_dt_date (cells : list value) : result (list value) :=
  Ok (map (fun x => match x with
                    | VTimestamp t => VDate (t / 86400)
                    | _ => NA
                    end) cells).

(** ** Readings of the transform stages on frames *)

(** The event frame after the flattener, [raw] being the texts of its
    [details] cells. *)
Definition flattened (fields : option (list string)) (raw : list value)
  (ef : DataFrame) : DataFrame :=
  mkDF (index_len ef)
    (project_fields (extract_all_fields fields)
       (column_assign "details_raw" raw (data ef))).

(** The frame the projector makes from [df]. *)
Definition projected (fields : option (list string)) (df : DataFrame) : DataFrame :=
  mkDF (index_len df)
    (flat_map (fun l => List.filter (fun cd => String.eqb (fst cd) l) (data df))
       (List.filter (fun col => label_in col (columns df))
          (select_final_column_list fields))).

(** Profiles that carry an [event_date] column of their own. *)
Definition dated_profiles : DataFrame :=
  mkDF 2
    [("user_id", [VInt 1; VInt 2]);
     ("name", [VStr "A"; VStr "B"]);
     ("event_date", [VDate 19700; VDate 19701])].

Definition dated_world : world :=
  mkWorld (<[1%nat := scenario_events]> (<[0%nat := dated_profiles]> ∅))
          (fun k => 7 * Z.of_nat k + 1) 0.

(** ** The writer and the pipeline runner *)

(** Where [to_parquet] writes: the output directory itself, or a file
    in it. *)
Inductive parquet_target :=
| Directory (output_path : string)
| FileIn (output_path : string) (name : string).

(** The calls made to the file system. *)
Inductive fs_event :=
| Mkdir (output_path : string)
| ToParquet (df : DataFrame) (target : parquet_target)
    (partition_cols : option (list string)).

Section Runner.

(** Outside the program, besides the readers of the loaders:
    [mkdir p] is [Path(p).mkdir(parents=True, exist_ok=True)] and
    [to_parquet df target partition_cols] is [df.to_parquet] without the
    index. *)
Variable open_utf8 : string -> result (list N).
Variable read_csv : list N -> list string -> result DataFrame.
Variable read_json : string -> result DataFrame.
Variable to_datetime : list value -> result (list value).
Variable dt_date : list value -> result (list value).
Variable mkdir : string -> result unit.
Variable to_parquet :
  DataFrame -> parquet_target -> option (list string) -> result unit.

(** The result and the calls made to the file system. *)
Definition write_to_parquet (df : DataFrame) (output_path : string)
  (partition_by_date : bool) : result unit * list fs_event :=
  match mkdir output_path with
  | Raise e => (Raise e, [Mkdir output_path])
  | Ok _ =>
      let target :=
        if partition_by_date then Directory output_path
        else FileIn output_path "output.parquet" in
      let partition_cols :=
        if partition_by_date then Some ["event_date"] else None in
      (to_parquet df target partition_cols,
       [Mkdir output_path; ToParquet df target partition_cols])
  end.

Definition run_etl (profiles_paths events_paths : list string)
  (output_dir : string) (extract_fields : option (list string))
  : world -> (result unit * list fs_event) * world :=
  fun w =>
    match (profiles <- load_user_profiles open_utf8 read_csv profiles_paths ;;
           events <- load_user_events read_json to_datetime dt_date events_paths ;;
           final_df <- run_transform profiles events extract_fields ;;
           deref final_df) w with
    | (Ok final_df, w') => (write_to_parquet final_df output_dir true, w')
    | (Raise e, w') => ((Raise e, []), w')
    end.

End Runner.
(* ================================================================== *)
(** * Properties *)

(** ** String order *)

Lemma leb_refl s : String.leb s s = true.
Proof.
  destruct (String.leb_total s s); assumption.
Qed.

Lemma ltb_leb s t : String.ltb s t = true -> String.leb s t = true.
Proof.
  unfold String.ltb, String.leb. destruct (String.compare s t); congruence.
Qed.

Lemma ltb_irrefl s : String.ltb s s = false.
Proof.
  unfold String.ltb.
  pose proof (String.compare_antisym s s) as H.
  destruct (String.compare s s); simpl in H; congruence.
Qed.

Lemma ltb_trans s t u :
  String.ltb s t = true -> String.ltb t u = true -> String.ltb s u = true.
Proof.
  unfold String.ltb. intros H1 H2.
  assert (Hst : String.compare s t = Lt) by (destruct (String.compare s t); congruence).
  assert (Htu : String.compare t u = Lt) by (destruct (String.compare t u); congruence).
  apply String_as_OT.cmp_lt in Hst. apply String_as_OT.cmp_lt in Htu.
  pose proof (String_as_OT.lt_trans _ _ _ Hst Htu) as Hsu.
  apply String_as_OT.cmp_lt in Hsu. unfold String_as_OT.cmp in Hsu.
  now rewrite Hsu.
Qed.

Lemma leb_false_ltb s t : String.leb s t = false -> String.ltb t s = true.
Proof.
  unfold String.leb, String.ltb. rewrite (String.compare_antisym t s).
  destruct (String.compare s t); simpl; congruence.
Qed.

Lemma leb_ltb_or_eq s t : String.leb s t = true -> String.ltb s t = true \/ s = t.
Proof.
  unfold String.leb, String.ltb. intros H.
  destruct (String.compare s t) eqn:E; try discriminate.
  - right. now apply String.compare_eq_iff.
  - now left.
Qed.

(** ** [sorted(set(...))] *)

Lemma elem_of_insert_sorted x a l : x ∈ insert_sorted a l <-> x = a \/ x ∈ l.
Proof.
  induction l as [|y l IH]; simpl.
  - rewrite list_elem_of_singleton, elem_of_nil. tauto.
  - destruct (String.leb a y).
    + rewrite !elem_of_cons. tauto.
    + rewrite !elem_of_cons, IH. tauto.
Qed.

Lemma elem_of_sorted x l : x ∈ sorted l <-> x ∈ l.
Proof.
  induction l as [|y l IH]; simpl; [reflexivity|].
  rewrite elem_of_insert_sorted, elem_of_cons, IH. tauto.
Qed.

Lemma length_insert_sorted a l : length (insert_sorted a l) = S (length l).
Proof.
  induction l as [|y l IH]; simpl; [reflexivity|].
  destruct (String.leb a y); simpl; [reflexivity|]. now rewrite IH.
Qed.

Lemma length_sorted l : length (sorted l) = length l.
Proof.
  induction l as [|y l IH]; simpl; [reflexivity|].
  now rewrite length_insert_sorted, IH.
Qed.

Lemma strictly_ascending_tail x l :
  strictly_ascending (x :: l) -> strictly_ascending l.
Proof. inversion 1; subst; [constructor | assumption]. Qed.

Lemma strictly_ascending_head x l :
  strictly_ascending (x :: l) -> forall y, y ∈ l -> String.ltb x y = true.
Proof.
  revert x. induction l as [|z l IH]; intros x Hs y Hy.
  - inversion Hy.
  - inversion Hs; subst. apply elem_of_cons in Hy as [->|Hy]; [assumption|].
    eapply ltb_trans; [eassumption|]. now apply IH.
Qed.

Lemma strictly_ascending_NoDup l : strictly_ascending l -> NoDup l.
Proof.
  induction l as [|x l IH]; intros Hs; constructor.
  - intros Hx. pose proof (strictly_ascending_head _ _ Hs x Hx) as H.
    rewrite ltb_irrefl in H. discriminate.
  - apply IH. eapply strictly_ascending_tail; eassumption.
Qed.

Lemma insert_sorted_ascending a l :
  strictly_ascending l -> a ∉ l -> strictly_ascending (insert_sorted a l).
Proof.
  induction l as [|y l IH]; intros Hs Ha; simpl.
  - constructor.
  - destruct (String.leb a y) eqn:E.
    + constructor; [|assumption].
      destruct (leb_ltb_or_eq _ _ E) as [H| ->]; [assumption|].
      exfalso. apply Ha. left.
    + assert (Hya : String.ltb y a = true) by now apply leb_false_ltb.
      assert (Hl : strictly_ascending (insert_sorted a l)).
      { apply IH; [eapply strictly_ascending_tail; eassumption|].
        intros H. apply Ha. now right. }
      destruct l as [|z l]; simpl in *.
      * now constructor.
      * inversion Hs; subst.
        destruct (String.leb a z); constructor; assumption.
Qed.

Lemma sorted_ascending l : NoDup l -> strictly_ascending (sorted l).
Proof.
  induction 1 as [|x l Hx Hl IH]; simpl; [constructor|].
  apply insert_sorted_ascending; [assumption|].
  now rewrite elem_of_sorted.
Qed.

(** Two strictly ascending lists with the same members are the same list. *)
Lemma strictly_ascending_unique l1 l2 :
  strictly_ascending l1 -> strictly_ascending l2 ->
  (forall x, x ∈ l1 <-> x ∈ l2) -> l1 = l2.
Proof.
  revert l2. induction l1 as [|x l1 IH]; intros l2 H1 H2 Hm.
  - destruct l2 as [|y l2]; [reflexivity|].
    exfalso. apply (not_elem_of_nil y), Hm. left.
  - destruct l2 as [|y l2].
    { exfalso. apply (not_elem_of_nil x), Hm. left. }
    assert (Hxy : x = y).
    { assert (Hx : x ∈ y :: l2) by (apply Hm; left).
      assert (Hy : y ∈ x :: l1) by (apply Hm; left).
      apply elem_of_cons in Hx as [?|Hx]; [assumption|].
      apply elem_of_cons in Hy as [?|Hy]; [congruence|].
      pose proof (strictly_ascending_head _ _ H1 y Hy) as A.
      pose proof (strictly_ascending_head _ _ H2 x Hx) as B.
      pose proof (ltb_trans _ _ _ A B) as C. rewrite ltb_irrefl in C. discriminate. }
    subst y. f_equal. apply IH.
    + eapply strictly_ascending_tail; eassumption.
    + eapply strictly_ascending_tail; eassumption.
    + intros z. split; intros Hz.
      * assert (Hz' : z ∈ x :: l2) by (apply Hm; now right).
        apply elem_of_cons in Hz' as [->|?]; [|assumption].
        pose proof (strictly_ascending_head _ _ H1 x Hz) as A.
        rewrite ltb_irrefl in A. discriminate.
      * assert (Hz' : z ∈ x :: l1) by (apply Hm; now right).
        apply elem_of_cons in Hz' as [->|?]; [|assumption].
        pose proof (strictly_ascending_head _ _ H2 x Hz) as A.
        rewrite ltb_irrefl in A. discriminate.
Qed.

(** Whatever order a [set] is iterated in, [sorted] returns the same list. *)
Lemma sorted_perm_unique l l' :
  NoDup l -> l ≡ₚ l' -> sorted l = sorted l'.
Proof.
  intros Hn Hp. apply strictly_ascending_unique.
  - now apply sorted_ascending.
  - apply sorted_ascending. now rewrite <- Hp.
  - intros x. rewrite !elem_of_sorted. now rewrite Hp.
Qed.

Lemma sorted_py_set_effective defaults caller :
  strictly_ascending (sorted (py_set (defaults ++ caller))) /\
  forall x, x ∈ sorted (py_set (defaults ++ caller)) <-> x ∈ defaults \/ x ∈ caller.
Proof.
  split.
  - apply sorted_ascending, NoDup_remove_dups.
  - intros x. unfold py_set.
    now rewrite elem_of_sorted, elem_of_remove_dups, elem_of_app.
Qed.

(** C8: the dynamic field list of the column projection is the same list as
    the effective field set of the detail flattening, for every caller
    argument (omitted, empty or not), and it is the sorted, repetition-free
    union of the three defaults and the caller's names. *)
Theorem C8_projection_fields_agree_with_flattening (fields : option (list string)) :
  select_all_fields fields = extract_all_fields fields /\
  is_effective_field_set (or_empty fields) (select_all_fields fields) /\
  is_effective_field_set (or_empty fields) (extract_all_fields fields).
Proof.
  split; [reflexivity|].
  split; apply sorted_py_set_effective.
Qed.

(** ** Columns of a frame *)

Lemma label_in_spec c l : label_in c l = true <-> c ∈ l.
Proof.
  unfold label_in. rewrite existsb_exists. split.
  - intros (x & Hx & E). apply String.eqb_eq in E. subst. now apply list_elem_of_In.
  - intros H. exists c. split; [now apply list_elem_of_In | apply String.eqb_refl].
Qed.

Lemma label_in_cons c x l :
  label_in c (x :: l) = String.eqb c x || label_in c l.
Proof. reflexivity. Qed.

Lemma label_in_false c l : label_in c l = false <-> c ∉ l.
Proof.
  rewrite <- label_in_spec. destruct (label_in c l); split; congruence.
Qed.

Lemma column_lookup_assign_eq c v d :
  column_lookup c (column_assign c v d) = Some v.
Proof.
  induction d as [|[k old] d IH]; simpl.
  - now rewrite String.eqb_refl.
  - destruct (String.eqb k c) eqn:E; simpl; now rewrite E.
Qed.

Lemma column_lookup_assign_ne c c' v d :
  c <> c' -> column_lookup c' (column_assign c v d) = column_lookup c' d.
Proof.
  intros Hne. induction d as [|[k old] d IH]; simpl.
  - apply String.eqb_neq in Hne. now rewrite Hne.
  - destruct (String.eqb k c) eqn:E; simpl.
    + apply String.eqb_eq in E. subst k.
      apply String.eqb_neq in Hne. now rewrite Hne.
    + now rewrite IH.
Qed.

Lemma column_lookup_Some_label c d cells :
  column_lookup c d = Some cells -> c ∈ map fst d.
Proof.
  induction d as [|[k old] d IH]; simpl; [discriminate|].
  destruct (String.eqb k c) eqn:E.
  - apply String.eqb_eq in E. subst. intros _. left.
  - intros H. right. now apply IH.
Qed.

Lemma column_lookup_None_label c d :
  column_lookup c d = None <-> c ∉ map fst d.
Proof.
  induction d as [|[k old] d IH]; simpl.
  - split; [intros _; apply not_elem_of_nil | reflexivity].
  - destruct (String.eqb k c) eqn:E.
    + apply String.eqb_eq in E. subst. split; [discriminate|].
      intros H. exfalso. apply H. left.
    + apply String.eqb_neq in E. rewrite IH, not_elem_of_cons. split.
      * intros H. split; [congruence | assumption].
      * now intros [_ H].
Qed.

Lemma labels_assign c v d :
  map fst (column_assign c v d) =
  if label_in c (map fst d) then map fst d else map fst d ++ [c].
Proof.
  induction d as [|[k old] d IH]; simpl; [reflexivity|].
  rewrite (String.eqb_sym c k).
  destruct (String.eqb k c) eqn:E; simpl.
  - reflexivity.
  - rewrite IH. now destruct (label_in c (map fst d)).
Qed.

Lemma length_assign c v d :
  length (column_assign c v d) =
  if label_in c (map fst d) then length d else S (length d).
Proof.
  rewrite <- (length_map fst), labels_assign.
  destruct (label_in c (map fst d)).
  - now rewrite length_map.
  - rewrite length_app, length_map. simpl. lia.
Qed.

Lemma Forall_assign (P : string * list value -> Prop) c v d :
  Forall P d -> (forall k, P (k, v)) -> Forall P (column_assign c v d).
Proof.
  intros Hd Hv. induction Hd as [|[k old] d Hk Hd IH]; simpl.
  - constructor; [apply Hv | constructor].
  - destruct (String.eqb k c); constructor; auto.
Qed.

(** ** Running the frame operations *)

Lemma set_frames_same w : set_frames w (frames w) = w.
Proof. now destruct w. Qed.

Lemma put_put w r a b : put (put w r a) r b = put w r b.
Proof.
  unfold put, set_frames. simpl. now rewrite insert_insert_eq.
Qed.

Lemma put_same w r df : frames w !! r = Some df -> put w r df = w.
Proof.
  intros H. unfold put. rewrite insert_id by assumption. apply set_frames_same.
Qed.

Lemma frames_put w r df : frames (put w r df) !! r = Some df.
Proof. unfold put. simpl. apply lookup_insert_eq. Qed.

Lemma frames_put_ne w r r' df : r <> r' -> frames (put w r df) !! r' = frames w !! r'.
Proof. intros H. unfold put. simpl. now apply lookup_insert_ne. Qed.

Lemma run_df_getitem w r df c cells :
  frames w !! r = Some df -> column_lookup c (data df) = Some cells ->
  df_getitem r c w = (Ok cells, w).
Proof.
  intros Hr Hc. unfold df_getitem, bind, deref, lift, frame_getitem.
  now rewrite Hr, Hc.
Qed.

Lemma run_df_getitem_missing w r df c :
  frames w !! r = Some df -> column_lookup c (data df) = None ->
  df_getitem r c w = (Raise (KeyError c), w).
Proof.
  intros Hr Hc. unfold df_getitem, bind, deref, lift, frame_getitem.
  now rewrite Hr, Hc.
Qed.

Lemma run_df_setitem w r df c cells :
  frames w !! r = Some df -> length cells = index_len df ->
  df_setitem r c cells w =
  (Ok tt, put w r (mkDF (index_len df) (column_assign c cells (data df)))).
Proof.
  intros Hr Hl. unfold df_setitem, bind, deref, lift, frame_setitem, update.
  rewrite Hr, Hl, Nat.eqb_refl. reflexivity.
Qed.

(** ** The append of strings *)

Lemma append_cons c s t : String c s +:+ t = String c (s +:+ t).
Proof. reflexivity. Qed.

Lemma append_nil s : EmptyString +:+ s = s.
Proof. reflexivity. Qed.

Lemma length_append s t : String.length (s +:+ t) = (String.length s + String.length t)%nat.
Proof.
  induction s; [reflexivity|]. rewrite append_cons. simpl. congruence.
Qed.

(** ** The dtype inference of [Series.apply] *)

Lemma length_infer_objects cells : length (infer_objects cells) = length cells.
Proof.
  unfold infer_objects.
  repeat match goal with
         | |- context [if ?b then _ else _] => destruct b
         end; now rewrite ?length_map.
Qed.

(** Strings are kept as they are. *)
Lemma infer_objects_strings cells :
  Forall (fun y => exists s, y = VStr s) cells -> infer_objects cells = cells.
Proof.
  intros H. unfold infer_objects.
  destruct (existsb is_pyobject_cell cells); [|
    repeat match goal with
           | |- context [if ?b then _ else _] => destruct b eqn:?
           end; try reflexivity].
  - destruct (forallb _ cells && existsb is_timestamp_cell cells) eqn:E;
      [|reflexivity].
    apply andb_true_iff in E as [_ E]. apply existsb_exists in E as (y & Hy & Ht).
    rewrite Forall_forall in H. apply list_elem_of_In, H in Hy as [s ->].
    discriminate.
  - exfalso.
    match goal with
    | E : existsb is_float_cell cells || _ = true |- _ =>
        apply orb_true_iff in E as [E|E];
        [|apply andb_true_iff in E as [E _]];
        apply existsb_exists in E as (y & Hy & Ht);
        rewrite Forall_forall in H; apply list_elem_of_In, H in Hy as [s ->];
        discriminate
    end.
Qed.

Lemma length_map_cells f cells out :
  map_cells f cells = Ok out -> length out = length cells.
Proof.
  revert out. induction cells as [|x cells IH]; simpl; intros out H.
  - now inversion H.
  - destruct (f x); simpl in H; [|discriminate].
    destruct (map_cells f cells); simpl in H; [|discriminate].
    inversion H; subst. simpl. f_equal. now apply IH.
Qed.

Lemma length_series_apply f cells out :
  series_apply f cells = Ok out -> length out = length cells.
Proof.
  unfold series_apply. destruct (map_cells f cells) as [ys|] eqn:E; [|discriminate].
  cbn [rbind]. intros H. inversion H; subst.
  rewrite length_infer_objects. exact (length_map_cells _ _ _ E).
Qed.

(** The application of a function that does not raise. *)
Lemma map_cells_pure (f : value -> value) cells :
  map_cells (fun x => Ok (f x)) cells = Ok (map f cells).
Proof.
  induction cells as [|x cells IH]; [reflexivity|].
  cbn [map_cells rbind map]. now rewrite IH.
Qed.

Lemma series_apply_pure (f : value -> value) cells :
  series_apply (fun x => Ok (f x)) cells = Ok (infer_objects (map f cells)).
Proof. unfold series_apply. now rewrite map_cells_pure. Qed.

(** ** [json.dumps] is total on the values read from JSON *)

Lemma json_dumps_total v :
  json_serializable v = true -> exists s, json_dumps v = Ok s.
Proof.
  induction v as [| [] | | | | l IH | items IH | | |] using value_nested_ind;
    intros Hs; simpl; eauto; try discriminate.
  - assert (Hl : exists parts,
      (fix elems (l : list value) : result (list string) :=
         match l with
         | [] => Ok []
         | x :: l' =>
             rbind (json_dumps x) (fun sx =>
             rbind (elems l') (fun sl => Ok (sx :: sl)))
         end) l = Ok parts).
    { simpl in Hs. induction IH as [|x l Hx _ IHl]; [eauto|].
      simpl in Hs. apply andb_true_iff in Hs as [Hsx Hsl].
      destruct (Hx Hsx) as [sx ->]. destruct (IHl Hsl) as [sl ->].
      simpl. eauto. }
    destruct Hl as [parts ->]. simpl. eauto.
  - assert (Hl : exists parts,
      (fix members (l : list (string * value)) : result (list string) :=
         match l with
         | [] => Ok []
         | (k, x) :: l' =>
             rbind (json_dumps x) (fun sx =>
             rbind (members l') (fun sl =>
             Ok ((encode_basestring_ascii k +:+ ": " +:+ sx) :: sl)))
         end) items = Ok parts).
    { simpl in Hs. induction IH as [|[k x] l Hx _ IHl]; [eauto|].
      simpl in Hs, Hx. apply andb_true_iff in Hs as [Hsx Hsl].
      destruct (Hx Hsx) as [sx Hsx']. destruct (IHl Hsl) as [sl Hsl'].
      rewrite Hsx', Hsl'. simpl. eauto. }
    destruct Hl as [parts ->]. simpl. eauto.
Qed.

Lemma map_cells_dumps_total det :
  Forall (fun x => json_serializable x = true) det ->
  exists raw, map_cells dumps_cell det = Ok raw.
Proof.
  induction 1 as [|x det Hx _ [raw IH]]; simpl; [eauto|].
  destruct (json_dumps_total x Hx) as [s Hs].
  unfold dumps_cell at 1. rewrite Hs, IH. simpl. eauto.
Qed.

Lemma map_cells_dumps_cells det raw :
  map_cells dumps_cell det = Ok raw ->
  Forall2 (fun x y => exists s, json_dumps x = Ok s /\ y = VStr s) det raw.
Proof.
  revert raw. induction det as [|x det IH]; simpl; intros raw H.
  - inversion H. constructor.
  - unfold dumps_cell at 1 in H. destruct (json_dumps x) as [s|] eqn:Hs; [|discriminate].
    simpl in H. destruct (map_cells dumps_cell det) as [raw'|]; [|discriminate].
    simpl in H. inversion H; subst. constructor; eauto.
Qed.

(** The texts are strings, which the dtype inference keeps. *)
Lemma series_apply_dumps det :
  series_apply dumps_cell det = map_cells dumps_cell det.
Proof.
  unfold series_apply. destruct (map_cells dumps_cell det) as [raw|] eqn:E;
    [|reflexivity].
  cbn [rbind]. f_equal. apply infer_objects_strings.
  apply map_cells_dumps_cells in E. clear -E.
  induction E as [|x y ? ? (s & _ & ->)]; constructor; eauto.
Qed.

Lemma series_apply_dumps_total det :
  Forall (fun x => json_serializable x = true) det ->
  exists raw, series_apply dumps_cell det = Ok raw.
Proof. rewrite series_apply_dumps. apply map_cells_dumps_total. Qed.

(** Every cell of the raw column is the text [json.dumps] gives for the
    [details] cell of the same row. *)
Lemma series_apply_dumps_cells det raw :
  series_apply dumps_cell det = Ok raw ->
  Forall2 (fun x y => exists s, json_dumps x = Ok s /\ y = VStr s) det raw.
Proof. rewrite series_apply_dumps. apply map_cells_dumps_cells. Qed.

(** ** The projection loop *)

Lemma project_fields_details fs : forall d det,
  column_lookup "details" d = Some det ->
  exists det', column_lookup "details" (project_fields fs d) = Some det' /\
               length det' = length det.
Proof.
  induction fs as [|f fs IH]; intros d det Hd; simpl.
  - eauto.
  - rewrite Hd. destruct (String.eqb_spec f "details") as [->|Hne].
    + destruct (IH (column_assign "details"
                      (infer_objects (map (details_get "details") det)) d)
                  (infer_objects (map (details_get "details") det)))
        as (det' & H1 & H2).
      { apply column_lookup_assign_eq. }
      exists det'. split; [assumption|].
      now rewrite H2, length_infer_objects, length_map.
    + apply IH. now rewrite column_lookup_assign_ne.
Qed.

Lemma run_project_loop r n fs : forall w d det,
  frames w !! r = Some (mkDF n d) ->
  column_lookup "details" d = Some det -> length det = n ->
  for_each fs (fun field =>
    details <- df_getitem r "details" ;;
    projected <- lift (series_apply (fun x => Ok (details_get field x)) details) ;;
    df_setitem r field projected) w
  = (Ok tt, put w r (mkDF n (project_fields fs d))).
Proof.
  induction fs as [|f fs IH]; intros w d det Hr Hd Hn; simpl.
  - unfold ret. now rewrite put_same.
  - rewrite Hd. unfold bind at 1. unfold bind at 1.
    rewrite (run_df_getitem w r _ _ det Hr Hd).
    unfold bind at 1. unfold lift at 1. rewrite series_apply_pure.
    rewrite (run_df_setitem w r (mkDF n d))
      by (simpl; first [assumption | now rewrite length_infer_objects, length_map]).
    simpl index_len. simpl data.
    set (d1 := column_assign f (infer_objects (map (details_get f) det)) d).
    assert (Hd1 : exists det1, column_lookup "details" d1 = Some det1 /\ length det1 = n).
    { subst d1. destruct (String.eqb_spec f "details") as [->|Hne].
      - exists (infer_objects (map (details_get "details") det)).
        split; [apply column_lookup_assign_eq
               | now rewrite length_infer_objects, length_map].
      - exists det. split; [now rewrite column_lookup_assign_ne | assumption]. }
    destruct Hd1 as (det1 & Hd1 & Hn1).
    rewrite (IH (put w r (mkDF n d1)) d1 det1 (frames_put _ _ _) Hd1 Hn1).
    now rewrite put_put.
Qed.

(** The whole of [extract_details_fields] on an event frame. *)
Lemma run_extract_details_fields w r df det raw fields :
  frames w !! r = Some df ->
  column_lookup "details" (data df) = Some det ->
  length det = index_len df ->
  series_apply dumps_cell det = Ok raw ->
  extract_details_fields r fields w =
  (Ok r, put w r (mkDF (index_len df)
                    (project_fields (extract_all_fields fields)
                       (column_assign "details_raw" raw (data df))))).
Proof.
  intros Hr Hd Hn Hraw. unfold extract_details_fields.
  unfold bind at 1. rewrite (run_df_getitem w r df _ det Hr Hd).
  unfold bind at 1. unfold lift at 1. fold dumps_cell. rewrite Hraw.
  unfold bind at 1.
  rewrite (run_df_setitem w r df) by
    (try assumption; rewrite (length_series_apply _ _ _ Hraw); assumption).
  unfold bind at 1.
  erewrite run_project_loop; [ | apply frames_put | | exact Hn ].
  - unfold ret. now rewrite put_put.
  - rewrite column_lookup_assign_ne by discriminate. exact Hd.
Qed.

(** Without a [details] column the first line raises and nothing is changed. *)
Lemma run_extract_details_fields_no_details w r df fields :
  frames w !! r = Some df ->
  column_lookup "details" (data df) = None ->
  extract_details_fields r fields w = (Raise (KeyError "details"), w).
Proof.
  intros Hr Hd. unfold extract_details_fields.
  unfold bind at 1. now rewrite (run_df_getitem_missing w r df _ Hr Hd).
Qed.

Lemma project_fields_lookup_other g fs : forall d,
  g ∉ fs -> column_lookup g (project_fields fs d) = column_lookup g d.
Proof.
  induction fs as [|f fs IH]; intros d Hg; simpl; [reflexivity|].
  apply not_elem_of_cons in Hg as [Hgf Hg].
  destruct (column_lookup "details" d) as [det|]; [|reflexivity].
  rewrite IH by assumption. apply column_lookup_assign_ne. congruence.
Qed.

Lemma ltb_asym s t : String.ltb s t = true -> String.ltb t s = false.
Proof.
  intros H. destruct (String.ltb t s) eqn:E; [|reflexivity].
  pose proof (ltb_trans _ _ _ H E) as C. rewrite ltb_irrefl in C. discriminate.
Qed.

(** What the column of a requested field holds when the loop is over. *)
Lemma project_fields_lookup f fs : forall d det,
  strictly_ascending fs ->
  column_lookup "details" d = Some det ->
  f ∈ fs ->
  column_lookup f (project_fields fs d) =
  Some (infer_objects (map (details_get f) (details_seen_by fs f det))).
Proof.
  induction fs as [|h t IH]; intros d det Hs Hd Hf; [inversion Hf|].
  simpl. rewrite Hd.
  assert (Hh : forall y, y ∈ t -> String.ltb h y = true)
    by (apply strictly_ascending_head; assumption).
  assert (Hht : h ∉ t).
  { intros H. specialize (Hh h H). rewrite ltb_irrefl in Hh. discriminate. }
  assert (Ht : strictly_ascending t) by (eapply strictly_ascending_tail; eassumption).
  apply elem_of_cons in Hf as [->|Hf].
  - rewrite project_fields_lookup_other, column_lookup_assign_eq by assumption.
    do 3 f_equal. unfold details_seen_by.
    destruct (label_in "details" (h :: t)) eqn:E; [|reflexivity].
    apply label_in_spec, elem_of_cons in E as [<-|E].
    + now rewrite ltb_irrefl.
    + now rewrite (ltb_asym _ _ (Hh _ E)).
  - destruct (String.eqb_spec h "details") as [->|Hne].
    + rewrite (IH _ (infer_objects (map (details_get "details") det)) Ht
                 (column_lookup_assign_eq _ _ _) Hf).
      do 3 f_equal. unfold details_seen_by.
      assert (E1 : label_in "details" t = false) by now apply label_in_false.
      assert (E2 : label_in "details" ("details" :: t) = true)
        by (apply label_in_spec; left).
      rewrite E1, E2, (Hh _ Hf). reflexivity.
    + rewrite (IH _ det Ht) by
        (try assumption; now rewrite column_lookup_assign_ne).
      do 3 f_equal. unfold details_seen_by.
      rewrite label_in_cons.
      destruct (String.eqb_spec "details" h); [congruence | reflexivity].
Qed.

Lemma label_in_app c l1 l2 : label_in c (l1 ++ l2) = label_in c l1 || label_in c l2.
Proof. unfold label_in. apply existsb_app. Qed.

Lemma fresh_labels_ext names e1 e2 :
  (forall x, x ∈ names -> label_in x e1 = label_in x e2) ->
  fresh_labels names e1 = fresh_labels names e2.
Proof.
  unfold fresh_labels. induction names as [|x names IH]; intros H; [reflexivity|].
  cbn [List.filter]. rewrite (H x) by left.
  rewrite IH; [reflexivity|]. intros y Hy. apply H. now right.
Qed.

Lemma fresh_labels_snoc names existing f :
  f ∉ names -> fresh_labels names (existing ++ [f]) = fresh_labels names existing.
Proof.
  intros Hf. apply fresh_labels_ext. intros x Hx.
  rewrite label_in_app, label_in_cons.
  destruct (String.eqb_spec x f); [congruence|].
  cbn [label_in existsb]. now rewrite !orb_false_r.
Qed.

(** The labels after the loop: the labels before it, then the requested
    fields that were not labels yet, in the order of the loop. *)
Lemma labels_project_fields fs : forall d det,
  NoDup fs -> column_lookup "details" d = Some det ->
  map fst (project_fields fs d) = map fst d ++ fresh_labels fs (map fst d).
Proof.
  induction fs as [|f fs IH]; intros d det Hn Hd; simpl.
  - now rewrite app_nil_r.
  - rewrite Hd. apply NoDup_cons in Hn as [Hf Hn].
    set (d1 := column_assign f (infer_objects (map (details_get f) det)) d).
    assert (Hd1 : exists det1, column_lookup "details" d1 = Some det1).
    { subst d1. destruct (String.eqb_spec f "details") as [->|Hne].
      - eexists. apply column_lookup_assign_eq.
      - exists det. now rewrite column_lookup_assign_ne. }
    destruct Hd1 as [det1 Hd1]. rewrite (IH d1 det1 Hn Hd1).
    subst d1. rewrite labels_assign.
    destruct (label_in f (map fst d)) eqn:E; simpl; [reflexivity|].
    rewrite fresh_labels_snoc by assumption.
    now rewrite <- app_assoc.
Qed.

Lemma fresh_labels_cons_existing names existing c :
  c ∈ existing -> fresh_labels names (c :: existing) = fresh_labels names existing.
Proof.
  intros Hc. apply fresh_labels_ext. intros x _. rewrite label_in_cons.
  destruct (String.eqb_spec x c) as [->|]; [|reflexivity].
  apply label_in_spec in Hc. now rewrite Hc.
Qed.

Lemma fresh_labels_cons_snoc names existing c :
  fresh_labels names (existing ++ [c]) = fresh_labels names (c :: existing).
Proof.
  apply fresh_labels_ext. intros x _.
  rewrite label_in_app, !label_in_cons. cbn [label_in existsb].
  rewrite orb_false_r. apply orb_comm.
Qed.

Lemma length_fresh_labels_le names existing :
  (length (fresh_labels names existing) <= length names)%nat.
Proof.
  unfold fresh_labels. induction names as [|x names IH]; simpl; [lia|].
  destruct (negb (label_in x existing)); simpl; lia.
Qed.

Lemma length_fresh_labels_all names existing :
  (forall f, f ∈ names -> f ∉ existing) ->
  length (fresh_labels names existing) = length names.
Proof.
  unfold fresh_labels. induction names as [|x names IH]; intros H; simpl; [reflexivity|].
  assert (E : label_in x existing = false) by (apply label_in_false, H; left).
  rewrite E. simpl. f_equal. apply IH. intros f Hf. apply H. now right.
Qed.

Lemma length_fresh_labels_lt names existing f :
  f ∈ names -> f ∈ existing ->
  (length (fresh_labels names existing) < length names)%nat.
Proof.
  unfold fresh_labels. induction names as [|x names IH]; intros Hf He; [inversion Hf|].
  simpl. apply elem_of_cons in Hf as [<-|Hf].
  - apply label_in_spec in He. rewrite He. simpl.
    pose proof (length_fresh_labels_le names existing). unfold fresh_labels in *. lia.
  - specialize (IH Hf He). destruct (negb (label_in x existing)); simpl; lia.
Qed.

(** The number of columns after [extract_details_fields]: one more for
    [details_raw] unless it was a column already, and one more for every
    effective field that is neither [details_raw] nor a column already. *)
Lemma columns_after_flattening fs d det raw :
  NoDup fs -> column_lookup "details" d = Some det ->
  length (project_fields fs (column_assign "details_raw" raw d)) =
  (length d + (if label_in "details_raw" (map fst d) then 0 else 1)
   + length (fresh_labels fs ("details_raw" :: map fst d)))%nat.
Proof.
  intros Hn Hd.
  rewrite <- (length_map fst).
  rewrite (labels_project_fields fs _ det Hn) by
    (now rewrite column_lookup_assign_ne by discriminate).
  rewrite length_app, length_map, length_assign, labels_assign.
  destruct (label_in "details_raw" (map fst d)) eqn:E.
  - rewrite fresh_labels_cons_existing by now apply label_in_spec. lia.
  - rewrite fresh_labels_cons_snoc. lia.
Qed.

(** ** The detail flattener *)

Lemma extract_all_fields_effective fields :
  is_effective_field_set (or_empty fields) (extract_all_fields fields).
Proof. apply sorted_py_set_effective. Qed.

Lemma details_raw_not_effective fields :
  "details_raw" ∉ or_empty fields -> "details_raw" ∉ extract_all_fields fields.
Proof.
  intros H Hin. apply (proj2 (extract_all_fields_effective fields)) in Hin.
  destruct Hin as [Hin|Hin]; [|contradiction].
  repeat (apply elem_of_cons in Hin as [Hin|Hin]; [discriminate|]).
  inversion Hin.
Qed.

Lemma serialized_cell_none y : serialized_cell VNone y -> y = VStr "null".
Proof. intros (s & Hs & ->). simpl in Hs. now inversion Hs. Qed.

Lemma serialized_cell_nan y : serialized_cell (VFloat FNaN) y -> y = VStr "NaN".
Proof. intros (s & Hs & ->). simpl in Hs. now inversion Hs. Qed.

(** What the dtype inference does to a cell. *)
Lemma Forall2_map_self {A B} (R : A -> B -> Prop) (f : A -> B) l :
  (forall x, R x (f x)) -> Forall2 R l (map f l).
Proof. intros H. induction l; constructor; auto. Qed.

Lemma Forall2_same {A} (R : A -> A -> Prop) l :
  (forall x, R x x) -> Forall2 R l l.
Proof. intros H. induction l; constructor; auto. Qed.

Lemma to_float64_stored x : stored_as x (to_float64 x).
Proof.
  destruct x; try (left; reflexivity).
  - right; left. now split.
  - right; right. eauto.
Qed.

Lemma infer_objects_stored cells : Forall2 stored_as cells (infer_objects cells).
Proof.
  assert (Hsame : Forall2 stored_as cells cells)
    by (apply Forall2_same; intros x; now left).
  unfold infer_objects.
  repeat match goal with
         | |- context [if ?b then _ else _] => destruct b
         end; try exact Hsame.
  - apply Forall2_map_self. intros x. destruct (is_null x) eqn:E.
    + right; left. now split.
    + now left.
  - apply Forall2_map_self, to_float64_stored.
Qed.

(** A stored cell is missing exactly when the value is. *)
Lemma stored_as_null x y : stored_as x y -> is_null y = is_null x.
Proof.
  intros [->|[[Hx Hy]|(z & -> & ->)]]; [reflexivity | congruence|].
  cbn. unfold float_of_int.
  repeat match goal with
         | |- context [if ?b then _ else _] => destruct b
         end; reflexivity.
Qed.

Lemma Forall2_stored_projection f det :
  Forall2 (fun d y => stored_as (details_get f d) y) det
    (infer_objects (map (details_get f) det)).
Proof.
  pose proof (infer_objects_stored (map (details_get f) det)) as H.
  remember (infer_objects (map (details_get f) det)) as col eqn:E. clear E.
  revert col H. induction det as [|d det IH]; intros col H; inversion H; subst;
    constructor; auto.
Qed.

(** The flattener keeps the texts of the [details] values in
    [details_raw] as long as that name is not requested as a field: on an
    event frame whose [details] cells are JSON values it succeeds and
    leaves a [details_raw] column that holds on every row the
    [json.dumps] text of that row's [details] value, a string and never a
    missing cell; for [None] the text is [null]. *)
Lemma details_raw_text_unless_requested w r df det fields :
  frames w !! r = Some df ->
  column_lookup "details" (data df) = Some det ->
  length det = index_len df ->
  Forall (fun x => json_serializable x = true) det ->
  "details_raw" ∉ or_empty fields ->
  exists df' raw,
    extract_details_fields r fields w = (Ok r, put w r df') /\
    column_lookup "details_raw" (data df') = Some raw /\
    length raw = index_len df' /\
    Forall2 serialized_cell det raw /\
    Forall (fun y => is_null y = false) raw /\
    (forall i, det !! i = Some VNone -> raw !! i = Some (VStr "null")).
Proof.
  intros Hr Hd Hn Hser Hreq.
  destruct (series_apply_dumps_total det Hser) as [raw Hraw].
  pose proof (series_apply_dumps_cells _ _ Hraw) as Hcells.
  fold serialized_cell in Hcells.
  eexists _, raw. split; [eapply run_extract_details_fields; eassumption|].
  simpl. split; [|split; [|split; [|split]]].
  - rewrite project_fields_lookup_other by now apply details_raw_not_effective.
    apply column_lookup_assign_eq.
  - rewrite (length_series_apply _ _ _ Hraw). assumption.
  - exact Hcells.
  - clear -Hcells. induction Hcells as [|x y ? ? (s & _ & ->)]; constructor; auto.
  - intros i Hi. destruct (Forall2_lookup_l _ _ _ _ _ Hcells Hi) as (y & Hy & Hc).
    now rewrite Hy, (serialized_cell_none _ Hc).
Qed.

(** C3 (defect): the claim fails on the events of the scenario when the
    caller requests the field [details_raw].  The loop of lines 64-65
    then assigns the projection of that key to the column that line 59
    has just filled: [details_raw] holds [None] on both rows, not the
    text of the [details] value, against the comment above the function
    (it adds a raw JSON string version as [details_raw]). *)
Theorem C3_details_raw_overwritten_when_requested :
  exists df',
    extract_details_fields 1 (Some ["details_raw"]) scenario_world
      = (Ok 1%nat, put scenario_world 1 df') /\
    column_lookup "details" (data df') =
      Some [VDict [("page_url", VStr "/x")]; VNone] /\
    column_lookup "details_raw" (data df') = Some [VNone; VNone] /\
    Forall (fun y => is_null y = true) [VNone; VNone] /\
    ~ details_raw_holds_text [VDict [("page_url", VStr "/x")]; VNone] df'.
Proof.
  eexists. split; [vm_compute; reflexivity|]. split; [reflexivity|].
  split; [reflexivity|]. split; [repeat constructor|].
  intros (raw & Hraw & Hcells). vm_compute in Hraw. inversion Hraw; subst raw.
  inversion Hcells as [|? ? ? ? (s & _ & Hs) _]; subst. discriminate.
Qed.

(** C4 (amended): for every event frame that has a [details] column of
    JSON values (with integers of at most 64 bits, as [read_json] reads
    them), and every caller list (omitted, empty or not), the
    flattener computes the effective field set as the strictly ascending
    union of the three defaults and the caller's names, succeeds, returns
    the frame it was given with the row count unchanged, and adds one
    column for [details_raw] unless that is a column already plus one
    column for each effective field that is neither [details_raw] nor a
    column already; so the growth is exactly [1 + |effective field set|]
    when none of those names is a column of the input and [details_raw]
    is not requested.  When [details] is not a requested field, the
    column of each effective field is the projection [details.get(field)] (for a dict, [None] otherwise) in the
    dtype [Series.apply] infers for it: row by row it holds that value,
    with a missing cell for a missing value and a float for an integer
    where the column is a float column. *)
Theorem C4_flattening_shape w r df det fields :
  frames w !! r = Some df ->
  column_lookup "details" (data df) = Some det ->
  length det = index_len df ->
  Forall (fun x => json_serializable x = true) det ->
  Forall (fun x => ints_fit x = true) det ->
  is_effective_field_set (or_empty fields) (extract_all_fields fields) /\
  exists df',
    extract_details_fields r fields w = (Ok r, put w r df') /\
    index_len df' = index_len df /\
    length (columns df') =
      (length (columns df)
       + (if label_in "details_raw" (columns df) then 0 else 1)
       + length (fresh_labels (extract_all_fields fields)
                   ("details_raw" :: columns df)))%nat /\
    ((forall c, c ∈ "details_raw" :: extract_all_fields fields -> c ∉ columns df) ->
     "details_raw" ∉ extract_all_fields fields ->
     length (columns df') =
       (length (columns df) + (1 + length (extract_all_fields fields)))%nat) /\
    ("details" ∉ extract_all_fields fields ->
     forall f, f ∈ extract_all_fields fields ->
       exists col,
         column_lookup f (data df') = Some col /\
         col = infer_objects (map (details_get f) det) /\
         Forall2 (fun d y => stored_as (details_get f d) y) det col /\
         Forall2 (fun d y => is_null y = is_null (details_get f d)) det col).
Proof.
  intros Hr Hd Hn Hser _.
  pose proof (extract_all_fields_effective fields) as Heff.
  split; [exact Heff|].
  destruct (series_apply_dumps_total det Hser) as [raw Hraw].
  assert (Hnd : NoDup (extract_all_fields fields))
    by apply strictly_ascending_NoDup, Heff.
  pose proof (columns_after_flattening _ _ det raw Hnd Hd) as Hcount.
  eexists. split; [eapply run_extract_details_fields; eassumption|].
  unfold columns. simpl. rewrite !length_map.
  split; [reflexivity|]. split; [|split].
  - exact Hcount.
  - intros Hfresh Hraw_req. rewrite Hcount.
    assert (E : label_in "details_raw" (map fst (data df)) = false)
      by (apply label_in_false, Hfresh; left).
    rewrite E, length_fresh_labels_all; [lia|].
    intros f Hf. apply not_elem_of_cons. split.
    + intros ->. contradiction.
    + apply Hfresh. now right.
  - intros Hdet f Hf. eexists. split; [|split; [reflexivity|split]].
    + rewrite (project_fields_lookup f _ _ det (proj1 Heff)); [|
        now rewrite column_lookup_assign_ne by discriminate | assumption].
      unfold details_seen_by.
      assert (E : label_in "details" (extract_all_fields fields) = false)
        by now apply label_in_false.
      now rewrite E.
    + apply Forall2_stored_projection.
    + eapply Forall2_impl; [apply Forall2_stored_projection|].
      intros d y Hs. now apply stored_as_null.
Qed.

Lemma C4_flattening_shape_witness :
  frames item_world !! 0%nat = Some item_events /\
  exists df',
    extract_details_fields 0 (Some ["campaign"]) item_world
      = (Ok 0%nat, put item_world 0 df') /\
    index_len df' = index_len item_events /\
    length (columns df') = (length (columns item_events) + (1 + 4))%nat /\
    column_lookup "item_id" (data df') = Some [VFloat (FFinite "5.0"); VFloat FNaN] /\
    column_lookup "campaign" (data df') = Some [VNone; VNone].
Proof.
  split; [reflexivity|].
  destruct (C4_flattening_shape item_world 0 item_events
              [VDict [("item_id", VInt 5)]; VNone] (Some ["campaign"])
              eq_refl eq_refl eq_refl ltac:(repeat constructor)
              ltac:(repeat constructor))
    as (_ & df' & Hrun & Hrows & _ & Hgrow & Hcols).
  exists df'. split; [exact Hrun|]. split; [exact Hrows|].
  assert (Hnot : "details" ∉ extract_all_fields (Some ["campaign"])).
  { intros H. vm_compute in H.
    repeat (apply elem_of_cons in H as [H|H]; [discriminate|]). inversion H. }
  split; [|split].
  - apply Hgrow.
    + intros c Hc Hin. vm_compute in Hc, Hin.
      repeat (apply elem_of_cons in Hin as [->|Hin];
              [repeat (apply elem_of_cons in Hc as [Hc|Hc]; [discriminate|]);
               inversion Hc|]).
      inversion Hin.
    + intros H. vm_compute in H.
      repeat (apply elem_of_cons in H as [H|H]; [discriminate|]). inversion H.
  - destruct (Hcols Hnot "item_id") as (col & Hcol & -> & _).
    + vm_compute. do 2 right. left.
    + exact Hcol.
  - destruct (Hcols Hnot "campaign") as (col & Hcol & -> & _).
    + vm_compute. do 1 right. left.
    + exact Hcol.
Defined.

(** C4 as stated fails in four ways.  When a requested field is already
    a column (here [user_id]) the effective set has four names but only
    four columns are added, not five.  When [details] is itself requested,
    the later fields are projected from the overwritten column: [page_url]
    is [None] on the row whose details have that key.  An event frame
    without a [details] column, and one whose details hold a value
    [json.dumps] does not accept, make the flattener raise. *)
Lemma C4_counterexample_existing_column :
  (exists df',
     extract_details_fields 1 (Some ["user_id"]) scenario_world
       = (Ok 1%nat, put scenario_world 1 df') /\
     length (extract_all_fields (Some ["user_id"])) = 4%nat /\
     length (columns scenario_events) = 5%nat /\
     length (columns df') = 9%nat /\
     length (columns df') <>
       (length (columns scenario_events)
        + (1 + length (extract_all_fields (Some ["user_id"]))))%nat) /\
  (exists df',
     extract_details_fields 1 (Some ["details"]) scenario_world
       = (Ok 1%nat, put scenario_world 1 df') /\
     map (details_get "page_url") [VDict [("page_url", VStr "/x")]; VNone]
       = [VStr "/x"; VNone] /\
     column_lookup "page_url" (data df') = Some [VNone; VNone]) /\
  extract_details_fields 0 None plain_world
    = (Raise (KeyError "details"), plain_world) /\
  extract_details_fields 0 None dated_details_world
    = (Raise (TypeError "Object of type date is not JSON serializable"),
       dated_details_world).
Proof.
  split; [|split; [|split]].
  - eexists. split; [vm_compute; reflexivity|].
    repeat split; vm_compute; congruence.
  - eexists. split; [vm_compute; reflexivity|]. split; reflexivity.
  - reflexivity.
  - reflexivity.
Qed.

(** C10 (amended): on an event frame that has a [details] column of JSON
    values (with integers of at most 64 bits, as [read_json] reads them),
    when a requested field [f] is already a column, the
    flattener overwrites that column with the projection
    [details.get(f)] of the [details] column as it stands when the loop
    reaches [f], in the dtype [Series.apply] infers for it: the original
    [details] cells, unless [details] is itself a requested field that
    sorts before [f], in which case the projection reads the already
    overwritten [details] column.  Read from the original cells, the
    column holds row by
    row the value of the key (a missing cell for a missing value, a float
    for an integer in a float column).  In every
    case the column count grows by strictly less than
    [1 + |effective field set|]. *)
Theorem C10_existing_column_overwritten w r df det fields f :
  frames w !! r = Some df ->
  column_lookup "details" (data df) = Some det ->
  length det = index_len df ->
  Forall (fun x => json_serializable x = true) det ->
  Forall (fun x => ints_fit x = true) det ->
  f ∈ or_empty fields ->
  f ∈ columns df ->
  exists df' col,
    extract_details_fields r fields w = (Ok r, put w r df') /\
    column_lookup f (data df') = Some col /\
    col = infer_objects
            (map (details_get f)
               (details_seen_by (extract_all_fields fields) f det)) /\
    ("details" ∉ or_empty fields \/ String.ltb "details" f = false ->
     col = infer_objects (map (details_get f) det) /\
     Forall2 (fun d y => stored_as (details_get f d) y) det col /\
     Forall2 (fun d y => is_null y = is_null (details_get f d)) det col) /\
    (length (columns df') <
       length (columns df) + (1 + length (extract_all_fields fields)))%nat.
Proof.
  intros Hr Hd Hn Hser _ Hreq Hcol.
  pose proof (extract_all_fields_effective fields) as [Hasc Hmem].
  assert (Hf : f ∈ extract_all_fields fields) by (apply Hmem; now right).
  destruct (series_apply_dumps_total det Hser) as [raw Hraw].
  assert (Hlook :
    column_lookup f (project_fields (extract_all_fields fields)
                       (column_assign "details_raw" raw (data df))) =
    Some (infer_objects
            (map (details_get f)
               (details_seen_by (extract_all_fields fields) f det)))).
  { apply project_fields_lookup; [assumption| |assumption].
    now rewrite column_lookup_assign_ne by discriminate. }
  eexists _, _. split; [eapply run_extract_details_fields; eassumption|].
  simpl. split; [exact Hlook|]. split; [reflexivity|]. split.
  - intros Hcase.
    assert (Hseen : details_seen_by (extract_all_fields fields) f det = det).
    { unfold details_seen_by. destruct Hcase as [Hnot|Hlt].
      - assert (E : label_in "details" (extract_all_fields fields) = false).
        { apply label_in_false. intros Hin.
          apply Hmem in Hin as [Hin|Hin]; [|contradiction].
          repeat (apply elem_of_cons in Hin as [Hin|Hin]; [discriminate|]).
          inversion Hin. }
        now rewrite E.
      - now rewrite Hlt, andb_false_r. }
    rewrite Hseen. split; [reflexivity|]. split.
    + apply Forall2_stored_projection.
    + eapply Forall2_impl; [apply Forall2_stored_projection|].
      intros d y Hs. now apply stored_as_null.
  - unfold columns in *. simpl. rewrite !length_map.
    rewrite (columns_after_flattening _ _ det raw
               (strictly_ascending_NoDup _ Hasc) Hd).
    assert (Hlt : (length (fresh_labels (extract_all_fields fields)
                             ("details_raw" :: map fst (data df)))
                   < length (extract_all_fields fields))%nat).
    { apply (length_fresh_labels_lt _ _ f); [assumption | now right]. }
    destruct (label_in "details_raw" (map fst (data df))); lia.
Qed.

Lemma C10_existing_column_overwritten_witness :
  frames scenario_world !! 1%nat = Some scenario_events /\
  "user_id" ∈ columns scenario_events /\
  exists df',
    extract_details_fields 1 (Some ["user_id"]) scenario_world
      = (Ok 1%nat, put scenario_world 1 df') /\
    column_lookup "user_id" (data scenario_events) = Some [VInt 1; VInt 3] /\
    column_lookup "user_id" (data df') = Some [VNone; VNone] /\
    (length (columns df') <
       length (columns scenario_events)
       + (1 + length (extract_all_fields (Some ["user_id"]))))%nat.
Proof.
  split; [reflexivity|]. split; [left|].
  destruct (C10_existing_column_overwritten scenario_world 1 scenario_events
              [VDict [("page_url", VStr "/x")]; VNone] (Some ["user_id"]) "user_id"
              eq_refl eq_refl eq_refl ltac:(repeat constructor)
              ltac:(repeat constructor) ltac:(simpl; left) ltac:(left))
    as (df' & col & Hrun & Hcol & -> & _ & Hlt).
  exists df'. split; [exact Hrun|]. split; [reflexivity|].
  split; [exact Hcol | exact Hlt].
Defined.

(** C10 as stated fails in three ways.  When [details] is requested
    together with a later name, the [details] cell is a dict with the key
    [user_id], yet the [user_id] column ends up [None], because the
    projection of [details] (which has no [details] key: [None]) was
    stored in the [details] column before [user_id] was projected.  And
    on an event frame without a [details] column, or with details that
    [json.dumps] does not accept, the flattener raises before any column
    is overwritten: the frame is as it was. *)
Lemma C10_counterexample_details_requested :
  (exists df',
     extract_details_fields 0 (Some ["details"; "user_id"]) collision_world
       = (Ok 0%nat, put collision_world 0 df') /\
     "user_id" ∈ columns collision_events /\
     column_lookup "details" (data collision_events) =
       Some [VDict [("user_id", VInt 7)]] /\
     map (details_get "user_id") [VDict [("user_id", VInt 7)]] = [VInt 7] /\
     column_lookup "user_id" (data df') = Some [VNone]) /\
  ("user_id" ∈ columns plain_events /\
   extract_details_fields 0 (Some ["user_id"]) plain_world
     = (Raise (KeyError "details"), plain_world)) /\
  ("user_id" ∈ columns dated_details_events /\
   extract_details_fields 0 (Some ["user_id"]) dated_details_world
     = (Raise (TypeError "Object of type date is not JSON serializable"),
        dated_details_world)).
Proof.
  split; [|split].
  - eexists. split; [vm_compute; reflexivity|].
    split; [left|]. repeat split; vm_compute; congruence.
  - split; [left | reflexivity].
  - split; [left | reflexivity].
Qed.

(** ** The joiner *)

Lemma fresh_ref_unused w : frames w !! fresh (dom (frames w)) = None.
Proof. apply not_elem_of_dom, is_fresh. Qed.

Lemma length_match_positions k rkeys : forall j,
  length (match_positions k rkeys j) = match_count k rkeys.
Proof.
  unfold match_count. induction rkeys as [|rk rkeys IH]; intros j; simpl; [reflexivity|].
  destruct (key_eqb k rk); simpl; now rewrite IH.
Qed.

Lemma length_left_indexer lkeys rkeys : forall i,
  length (left_indexer lkeys rkeys i) =
  sum_list_with (fun k => Nat.max 1 (match_count k rkeys)) lkeys.
Proof.
  induction lkeys as [|k lkeys IH]; intros i; simpl; [reflexivity|].
  rewrite length_app, IH, <- (length_match_positions k rkeys 0%nat).
  destruct (match_positions k rkeys 0) as [|j js]; simpl; [reflexivity|].
  now rewrite length_map.
Qed.



Lemma run_join_data w p e pf ef out :
  frames w !! p = Some pf -> frames w !! e = Some ef ->
  merge_left ef pf "user_id" = Ok out ->
  join_data p e w = (Ok (fresh (dom (frames w))), put w (fresh (dom (frames w))) out).
Proof.
  intros Hp He Hm.
  unfold join_data, df_merge_left, bind, deref, lift, new_frame, ret.
  now rewrite He, Hp, Hm.
Qed.

(** *** Key columns of one kind *)

Lemma check_hashable_ok lk rk :
  Forall (fun v => match v with VList _ | VDict _ => False | _ => True end) (lk ++ rk) ->
  check_hashable lk rk = Ok (lk, rk).
Proof.
  intros H. unfold check_hashable.
  destruct (List.find _ (lk ++ rk)) as [v|] eqn:E; [|reflexivity].
  apply find_some in E as [Hin Hv]. rewrite Forall_forall in H.
  apply list_elem_of_In, H in Hin. now destruct v.
Qed.

Lemma column_dtype_int_keys k keys :
  int_keys (k :: keys) -> column_dtype (k :: keys) = Dint64.
Proof.
  intros H. unfold column_dtype. unfold int_keys in H.
  assert (E1 : forallb is_bool_cell (k :: keys) = false).
  { pose proof H as H'. apply Forall_cons in H' as [(z & -> & _) _]. reflexivity. }
  assert (E2 : forallb (fun v => match v with VInt z => is_int64 z | _ => false end)
                 (k :: keys) = true).
  { apply forallb_forall. intros v Hv. rewrite Forall_forall in H.
    apply list_elem_of_In, H in Hv as (z & -> & Hz). exact Hz. }
  now rewrite E1, E2.
Qed.

Lemma column_dtype_str_keys k keys :
  str_keys (k :: keys) -> column_dtype (k :: keys) = Dobject.
Proof.
  intros H. apply Forall_cons in H as [(s & ->) _]. reflexivity.
Qed.

Lemma keys_hashable lk rk :
  same_kind_keys lk rk ->
  Forall (fun v => match v with VList _ | VDict _ => False | _ => True end) (lk ++ rk).
Proof.
  intros [[Hl Hr]|[Hl Hr]]; apply Forall_app; split;
    (eapply Forall_impl; [eassumption|]); cbn beta.
  - now intros v (z & -> & _).
  - now intros v (z & -> & _).
  - now intros v (x & ->).
  - now intros v (x & ->).
Qed.

(** Key columns of one kind are joined as they are. *)
Lemma coerce_merge_keys_same_kind name lk rk :
  same_kind_keys lk rk -> coerce_merge_keys name lk rk = Ok (lk, rk).
Proof.
  intros H. pose proof (check_hashable_ok _ _ (keys_hashable _ _ H)) as Hh.
  unfold coerce_merge_keys.
  destruct lk as [|k lk]; [exact Hh|]. destruct rk as [|k' rk]; [exact Hh|].
  destruct H as [[Hl Hr]|[Hl Hr]].
  - now rewrite (column_dtype_int_keys _ _ Hl), (column_dtype_int_keys _ _ Hr).
  - now rewrite (column_dtype_str_keys _ _ Hl), (column_dtype_str_keys _ _ Hr).
Qed.

(** Such keys match when they are the same integer, or the same string. *)
Lemma key_eqb_same_kind lk rk k rk' :
  same_kind_keys lk rk -> k ∈ lk -> rk' ∈ rk ->
  key_eqb k rk' = true <-> k = rk'.
Proof.
  intros [[Hl Hr]|[Hl Hr]] Hk Hrk; unfold int_keys, str_keys in *;
    rewrite Forall_forall in Hl, Hr.
  - destruct (Hl _ Hk) as (a & -> & _). destruct (Hr _ Hrk) as (b & -> & _).
    cbn. rewrite Z.eqb_eq. split; congruence.
  - destruct (Hl _ Hk) as (a & ->). destruct (Hr _ Hrk) as (b & ->).
    cbn. rewrite String.eqb_eq. split; congruence.
Qed.

(** *** The rows and the columns of the result *)

Lemma column_lookup_app c a b :
  column_lookup c (a ++ b) =
  match column_lookup c a with
  | Some v => Some v
  | None => column_lookup c b
  end.
Proof.
  induction a as [|[k cells] a IH]; simpl; [reflexivity|].
  now destruct (String.eqb k c).
Qed.

Lemma column_lookup_rename (ren : string -> string) (g : list value -> list value) c d :
  (forall l, l ∈ map fst d -> String.eqb (ren l) c = String.eqb l c) ->
  column_lookup c (map (fun cd => (ren (fst cd), g (snd cd))) d) =
  option_map g (column_lookup c d).
Proof.
  induction d as [|[k cells] d IH]; intros H; simpl; [reflexivity|].
  rewrite (H k) by (simpl; left).
  destruct (String.eqb k c); [reflexivity|].
  apply IH. intros l Hl. apply H. simpl. now right.
Qed.



(** The key keeps its label: it is no label of the right side, and no
    label with a suffix is the key. *)
Lemma elem_of_filter_labels key (d : list (string * list value)) l :
  l ∈ map fst (List.filter (fun cd => negb (String.eqb (fst cd) key)) d) <->
  l ∈ map fst d /\ l <> key.
Proof.
  rewrite !list_elem_of_In, !in_map_iff. split.
  - intros (cd & <- & Hcd). apply filter_In in Hcd as [Hin Hk].
    split; [exists cd; split; [reflexivity | assumption]|].
    apply negb_true_iff, String.eqb_neq in Hk. exact Hk.
  - intros [(cd & <- & Hcd) Hne]. exists cd. split; [reflexivity|].
    apply filter_In. split; [assumption|].
    now apply negb_true_iff, String.eqb_neq.
Qed.





(** The result of the merge, written out, when the keys pass the check
    and the suffixes make no label clash. *)
Lemma merge_left_ok left right key lkeys rkeys lk rk :
  column_lookup key (data left) = Some lkeys ->
  column_lookup key (data right) = Some rkeys ->
  coerce_merge_keys key lkeys rkeys = Ok (lk, rk) ->
  no_suffix_clash left right key ->
  let ix := left_indexer lk rk 0 in
  let rdata := List.filter (fun cd => negb (String.eqb (fst cd) key)) (data right) in
  merge_left left right key =
  Ok (mkDF (length ix)
        (map (fun cd => (left_label (map fst rdata) (fst cd),
                         take_left (snd cd) ix)) (data left) ++
         map (fun cd => (right_label (columns left) (fst cd),
                         take_right (snd cd) ix)) rdata)).
Proof.
  intros Hl Hr Hc [H1 H2]. unfold merge_left, frame_getitem.
  rewrite Hl, Hr. cbn [rbind]. rewrite Hc. cbn [rbind fst snd].
  now rewrite H1, H2.
Qed.



(** ** The column projector *)

Lemma columns_mk n d : columns (mkDF n d) = map fst d.
Proof. reflexivity. Qed.

Lemma find_absent_none (cols : list string) (labels : list string) :
  List.find (fun l => negb (label_in l cols))
    (List.filter (fun col => label_in col cols) labels) = None.
Proof.
  induction labels as [|l labels IH]; simpl; [reflexivity|].
  destruct (label_in l cols) eqn:E; simpl; [|assumption].
  now rewrite E.
Qed.

Lemma filter_label_absent l (d : list (string * list value)) :
  l ∉ map fst d -> List.filter (fun cd => String.eqb (fst cd) l) d = [].
Proof.
  induction d as [|[k cells] d IH]; simpl; intros H; [reflexivity|].
  apply not_elem_of_cons in H as [Hne H].
  destruct (String.eqb_spec k l); [congruence|]. now apply IH.
Qed.

Lemma filter_label_unique l (d : list (string * list value)) :
  NoDup (map fst d) -> l ∈ map fst d ->
  exists cells, column_lookup l d = Some cells /\
                List.filter (fun cd => String.eqb (fst cd) l) d = [(l, cells)].
Proof.
  induction d as [|[k cells] d IH]; simpl; intros Hn Hl; [inversion Hl|].
  apply NoDup_cons in Hn as [Hk Hn].
  destruct (String.eqb_spec k l) as [->|Hne].
  - exists cells. split; [reflexivity|]. now rewrite filter_label_absent.
  - apply elem_of_cons in Hl as [->|Hl]; [congruence|]. now apply IH.
Qed.

(** Selecting labels that all exist, from a frame with distinct labels. *)
Lemma select_present_labels (d : list (string * list value)) : forall labels,
  NoDup (map fst d) -> Forall (fun l => l ∈ map fst d) labels ->
  let out := flat_map (fun l => List.filter (fun cd => String.eqb (fst cd) l) d) labels in
  map fst out = labels /\
  forall c, c ∈ labels -> column_lookup c out = column_lookup c d.
Proof.
  intros labels Hn Hl. induction Hl as [|l labels Hin _ IH]; simpl.
  - split; [reflexivity|]. intros c Hc. inversion Hc.
  - destruct (filter_label_unique l d Hn Hin) as (cells & Hlook & Hfil).
    destruct IH as [IH1 IH2]. rewrite Hfil. simpl. split; [now rewrite IH1|].
    intros c Hc. destruct (String.eqb_spec l c) as [->|Hne]; [now rewrite Hlook|].
    apply elem_of_cons in Hc as [->|Hc]; [congruence|]. now apply IH2.
Qed.

Lemma run_select_final_columns w r df extra :
  frames w !! r = Some df ->
  select_final_columns r extra w =
  (Ok (fresh (dom (frames w))),
   put w (fresh (dom (frames w)))
     (mkDF (index_len df)
        (flat_map (fun l => List.filter (fun cd => String.eqb (fst cd) l) (data df))
           (List.filter (fun col => label_in col (columns df))
              (select_final_column_list extra))))).
Proof.
  intros Hr.
  unfold select_final_columns, df_columns, df_select, bind, deref, lift, ret,
    new_frame, frame_select.
  rewrite Hr. cbv beta iota. rewrite Hr. cbv beta iota.
  now rewrite find_absent_none.
Qed.

(** C6: the projection never raises; it returns a new frame with the row
    count of its input, and, the labels of the input being distinct, its
    columns are exactly those names of the nine base names followed by the
    effective detail fields that are columns of the input, in that order
    and with the cells of the input; a name that is not a column of the
    input is left out. *)
Theorem C6_projection_keeps_present_columns w r df extra :
  frames w !! r = Some df ->
  exists r' out,
    select_final_columns r extra w = (Ok r', put w r' out) /\
    frames w !! r' = None /\
    index_len out = index_len df /\
    select_final_column_list extra = select_base_columns ++ select_all_fields extra /\
    length select_base_columns = 9%nat /\
    (NoDup (columns df) ->
     columns out =
       List.filter (fun c => label_in c (columns df)) (select_final_column_list extra) /\
     (forall c, c ∈ columns out <->
                c ∈ select_final_column_list extra /\ c ∈ columns df) /\
     (forall c, c ∈ columns out ->
                column_lookup c (data out) = column_lookup c (data df))).
Proof.
  intros Hr. eexists _, _.
  split; [exact (run_select_final_columns w r df extra Hr)|].
  split; [apply fresh_ref_unused|].
  split; [reflexivity|]. split; [reflexivity|]. split; [reflexivity|].
  intros Hn.
  destruct (select_present_labels (data df)
              (List.filter (fun c => label_in c (columns df))
                 (select_final_column_list extra)) Hn) as [H1 H2].
  { apply Forall_forall. intros l Hl.
    apply list_elem_of_In, filter_In in Hl as [_ Hl]. now apply label_in_spec. }
  rewrite !columns_mk. cbn [data]. rewrite H1.
  split; [reflexivity|]. split.
  - intros c. rewrite list_elem_of_In, filter_In, <- list_elem_of_In, label_in_spec.
    reflexivity.
  - exact H2.
Qed.

Lemma C6_projection_keeps_present_columns_witness :
  frames scenario_world !! 1%nat = Some scenario_events /\
  exists r' out,
    select_final_columns 1 None scenario_world = (Ok r', put scenario_world r' out) /\
    frames scenario_world !! r' = None /\
    index_len out = index_len scenario_events /\
    select_final_column_list None = select_base_columns ++ select_all_fields None /\
    length select_base_columns = 9%nat /\
    (NoDup (columns scenario_events) ->
     columns out =
       List.filter (fun c => label_in c (columns scenario_events))
         (select_final_column_list None) /\
     (forall c, c ∈ columns out <->
                c ∈ select_final_column_list None /\ c ∈ columns scenario_events) /\
     (forall c, c ∈ columns out ->
                column_lookup c (data out) = column_lookup c (data scenario_events))).
Proof.
  split; [reflexivity|].
  apply (C6_projection_keeps_present_columns scenario_world 1 scenario_events None).
  reflexivity.
Defined.

(** On the events of the scenario, which lack five of the nine base
    columns and all three default detail fields, the projection keeps the
    four base columns that exist, in the order of the base schema. *)
Example select_final_columns_scenario_events :
  exists out,
    frames (snd (select_final_columns 1 None scenario_world)) !! 2%nat = Some out /\
    fst (select_final_columns 1 None scenario_world) = Ok 2%nat /\
    columns out = ["user_id"; "event_type"; "timestamp"; "event_date"].
Proof. eexists. repeat split; vm_compute; reflexivity. Qed.

(** ** Identifiers *)

Lemma uuid_v4_bits b :
  uuid_v4_of_int (b mod 2 ^ 128) = Z.lor (Z.land b uuid_random_bits) uuid_fixed_bits.
Proof.
  unfold uuid_v4_of_int, uuid_random_bits, uuid_fixed_bits.
  apply Z.bits_inj'. intros n Hn.
  assert (H23 : Z.testbit (Z.land (Z.shiftl 0x8000 48) (Z.shiftl 0xf000 64)) n = false)
    by (replace (Z.land (Z.shiftl 0x8000 48) (Z.shiftl 0xf000 64)) with 0 by reflexivity;
        apply Z.bits_0).
  rewrite Z.land_spec in H23.
  rewrite !Z.lor_spec, !Z.land_spec, !Z.lor_spec, !Z.land_spec, !Z.lnot_spec by assumption.
  rewrite Z.ldiff_spec, Z.lor_spec, Z.testbit_ones_nonneg by lia.
  assert (Hm : Z.testbit (b mod 2 ^ 128) n = Z.testbit b n && Z.ltb n 128).
  { destruct (Z.ltb_spec n 128).
    - rewrite Z.mod_pow2_bits_low by lia. now rewrite andb_true_r.
    - rewrite Z.mod_pow2_bits_high by lia. now rewrite andb_false_r. }
  rewrite Hm.
  destruct (Z.testbit b n), (Z.ltb n 128), (Z.testbit (Z.shiftl 49152 48) n),
    (Z.testbit (Z.shiftl 32768 48) n), (Z.testbit (Z.shiftl 61440 64) n),
    (Z.testbit (Z.shiftl 4 76) n); simpl in *; congruence.
Qed.

(** The random bits can be read back from the identifier. *)
Lemma uuid_v4_random_bits b :
  Z.land (uuid_v4_of_int (b mod 2 ^ 128)) uuid_random_bits = Z.land b uuid_random_bits.
Proof.
  rewrite uuid_v4_bits. rewrite Z.land_lor_distr_l.
  replace (Z.land uuid_fixed_bits uuid_random_bits) with 0 by reflexivity.
  rewrite Z.lor_0_r, <- Z.land_assoc, Z.land_diag. reflexivity.
Qed.

Lemma uuid_v4_range b : 0 <= uuid_v4_of_int (b mod 2 ^ 128) < 2 ^ 128.
Proof.
  rewrite uuid_v4_bits.
  assert (H : Z.lor (Z.land b uuid_random_bits) uuid_fixed_bits =
              Z.land (Z.lor (Z.land b uuid_random_bits) uuid_fixed_bits) (Z.ones 128)).
  { rewrite Z.land_lor_distr_l, <- Z.land_assoc.
    replace (Z.land uuid_random_bits (Z.ones 128)) with uuid_random_bits by reflexivity.
    replace (Z.land uuid_fixed_bits (Z.ones 128)) with uuid_fixed_bits by reflexivity.
    reflexivity. }
  rewrite H, Z.land_ones by lia. apply Z.mod_pos_bound. lia.
Qed.

Lemma of_hex_uint_acc_lower l : forall acc,
  (N.pos acc * 16 ^ N.of_nat (Hexadecimal.nb_digits l)
   <= N.pos (Pos.of_hex_uint_acc l acc))%N.
Proof.
  induction l; intros acc; cbn [Pos.of_hex_uint_acc Hexadecimal.nb_digits];
    try (rewrite N.mul_1_r; reflexivity);
    (rewrite Nat2N.inj_succ, N.pow_succ_r';
     etransitivity; [|apply IHl]; rewrite N.mul_assoc; apply N.mul_le_mono_r; lia).
Qed.

(** A numeral without leading zeros has no more digits than its value
    allows. *)
Lemma normal_numeral_digits d n :
  Hexadecimal.unorm d = d -> (N.of_hex_uint d < 16 ^ N.of_nat n)%N -> (0 < n)%nat ->
  (Hexadecimal.nb_digits d <= n)%nat.
Proof.
  intros Hnorm Hlt Hn.
  assert (Hpos : forall l acc,
            (N.pos (Pos.of_hex_uint_acc l acc) < 16 ^ N.of_nat n)%N ->
            (S (Hexadecimal.nb_digits l) <= n)%nat).
  { intros l acc H. pose proof (of_hex_uint_acc_lower l acc) as Hl.
    assert (Hp : (16 ^ N.of_nat (Hexadecimal.nb_digits l) < 16 ^ N.of_nat n)%N).
    { eapply N.le_lt_trans; [|exact H]. etransitivity; [|exact Hl].
      rewrite <- (N.mul_1_l (16 ^ _)) at 1. apply N.mul_le_mono_r. lia. }
    apply N.pow_lt_mono_r_iff in Hp; lia. }
  destruct d; cbn [Hexadecimal.nb_digits];
    try (apply (Hpos d _ Hlt)); [lia|].
  unfold Hexadecimal.unorm in Hnorm. cbn [Hexadecimal.nzhead] in Hnorm.
  pose proof (HexadecimalFacts.nb_digits_nzhead d) as Hle.
  destruct (Hexadecimal.nzhead d) eqn:E;
    inversion Hnorm; subst; cbn [Hexadecimal.nb_digits] in *; lia.
Qed.

Lemma hex_digits_bound n k :
  (n < 16 ^ N.of_nat k)%N -> (0 < k)%nat ->
  (Hexadecimal.nb_digits (N.to_hex_uint n) <= k)%nat.
Proof.
  intros H Hk.
  apply normal_numeral_digits; [|now rewrite HexadecimalN.Unsigned.of_to|assumption].
  rewrite <- (HexadecimalN.Unsigned.of_to n) at 2.
  symmetry. apply HexadecimalN.Unsigned.to_of.
Qed.

Lemma to_hex_uint_nonnil n : N.to_hex_uint n <> Hexadecimal.Nil.
Proof.
  destruct n; simpl; [discriminate|]. apply HexadecimalPos.Unsigned.to_uint_nonnil.
Qed.

Lemma length_string_of_uint d :
  String.length (HexadecimalString.NilEmpty.string_of_uint d) = Hexadecimal.nb_digits d.
Proof. induction d; simpl; congruence. Qed.

Lemma zeros_string_of_uint k d :
  zeros k +:+ HexadecimalString.NilEmpty.string_of_uint d =
  HexadecimalString.NilEmpty.string_of_uint (pad_zeros k d).
Proof.
  induction k as [|k IH]; simpl; [reflexivity|]. now rewrite append_cons, IH.
Qed.

Lemma of_hex_uint_pad_zeros k d : N.of_hex_uint (pad_zeros k d) = N.of_hex_uint d.
Proof. induction k as [|k IH]; simpl; [reflexivity|]. exact IH. Qed.

Lemma hex32_numeral i :
  hex32 i =
  HexadecimalString.NilEmpty.string_of_uint
    (pad_zeros (32 - Hexadecimal.nb_digits (N.to_hex_uint (Z.to_N i)))
       (N.to_hex_uint (Z.to_N i))).
Proof.
  unfold hex32. pose proof (to_hex_uint_nonnil (Z.to_N i)) as Hnn.
  assert (E : HexadecimalString.NilZero.string_of_uint (N.to_hex_uint (Z.to_N i)) =
              HexadecimalString.NilEmpty.string_of_uint (N.to_hex_uint (Z.to_N i))).
  { unfold HexadecimalString.NilZero.string_of_uint.
    destruct (N.to_hex_uint (Z.to_N i)); [congruence | reflexivity ..]. }
  rewrite E, length_string_of_uint. apply zeros_string_of_uint.
Qed.

Lemma hex32_inj i j : 0 <= i -> 0 <= j -> hex32 i = hex32 j -> i = j.
Proof.
  intros Hi Hj H. rewrite !hex32_numeral in H.
  apply (f_equal HexadecimalString.NilEmpty.uint_of_string) in H.
  rewrite !HexadecimalString.NilEmpty.usu in H. inversion H as [H'].
  apply (f_equal N.of_hex_uint) in H'.
  rewrite !of_hex_uint_pad_zeros, !HexadecimalN.Unsigned.of_to in H'. lia.
Qed.

Lemma length_zeros k : String.length (zeros k) = k.
Proof. induction k; simpl; congruence. Qed.

Lemma length_hex32 i : 0 <= i < 2 ^ 128 -> String.length (hex32 i) = 32%nat.
Proof.
  intros Hi. rewrite hex32_numeral, <- zeros_string_of_uint, length_append,
    length_zeros, length_string_of_uint.
  assert (H : (Hexadecimal.nb_digits (N.to_hex_uint (Z.to_N i)) <= 32)%nat).
  { apply hex_digits_bound; [|lia].
    change (16 ^ N.of_nat 32)%N with (Z.to_N (2 ^ 128)). lia. }
  lia.
Qed.

Lemma list_ascii_of_append s t :
  list_ascii_of_string (s +:+ t) = list_ascii_of_string s ++ list_ascii_of_string t.
Proof.
  induction s; [reflexivity|]. rewrite append_cons. simpl. now f_equal.
Qed.

Lemma length_list_ascii s : length (list_ascii_of_string s) = String.length s.
Proof. induction s; simpl; congruence. Qed.

Lemma uuid_str_chars i :
  list_ascii_of_string (uuid_str i) = uuid_chars (list_ascii_of_string (hex32 i)).
Proof.
  unfold uuid_str, uuid_chars, str_slice.
  rewrite !list_ascii_of_append, !list_ascii_of_string_of_list_ascii.
  reflexivity.
Qed.

Lemma uuid_chars_inj l l' :
  length l = 32%nat -> length l' = 32%nat -> uuid_chars l = uuid_chars l' -> l = l'.
Proof.
  intros Hl Hl'.
  do 32 (destruct l as [|? l]; [discriminate Hl|]).
  destruct l; [|discriminate Hl].
  do 32 (destruct l' as [|? l']; [discriminate Hl'|]).
  destruct l'; [|discriminate Hl'].
  cbn. intros H. injection H. intros. subst. reflexivity.
Qed.

Lemma uuid_str_inj i j :
  0 <= i < 2 ^ 128 -> 0 <= j < 2 ^ 128 -> uuid_str i = uuid_str j -> i = j.
Proof.
  intros Hi Hj H. apply hex32_inj; [lia..|].
  apply (f_equal list_ascii_of_string) in H. rewrite !uuid_str_chars in H.
  apply uuid_chars_inj in H.
  - rewrite <- (string_of_list_ascii_of_string (hex32 i)),
      <- (string_of_list_ascii_of_string (hex32 j)). now rewrite H.
  - now rewrite length_list_ascii, length_hex32.
  - now rewrite length_list_ascii, length_hex32.
Qed.

Lemma length_uuid_str i : 0 <= i < 2 ^ 128 -> String.length (uuid_str i) = 36%nat.
Proof.
  intros Hi. rewrite <- length_list_ascii, uuid_str_chars.
  pose proof (length_hex32 i Hi) as Hl. rewrite <- length_list_ascii in Hl.
  unfold uuid_chars.
  repeat (rewrite ?length_app, ?length_cons, ?length_take, ?length_drop).
  lia.
Qed.

(** Two draws give the same identifier exactly when they agree on the
    random bits. *)
Lemma event_id_of_draw_eq w i j :
  event_id_of_draw w i = event_id_of_draw w j <->
  Z.land (entropy w i) uuid_random_bits = Z.land (entropy w j) uuid_random_bits.
Proof.
  unfold event_id_of_draw. split.
  - intros H. inversion H as [H'].
    apply uuid_str_inj in H'; [|apply uuid_v4_range..].
    now rewrite <- (uuid_v4_random_bits (entropy w i)), H', uuid_v4_random_bits.
  - intros H. now rewrite !uuid_v4_bits, H.
Qed.

(** ** The identity assigner *)

Lemma run_uuid4 w :
  uuid4 w = (Ok (uuid_v4_of_int (entropy w (drawn w) mod 2 ^ 128)), advance w 1).
Proof.
  unfold uuid4, bind, os_urandom16, ret, advance. do 3 f_equal. lia.
Qed.

Lemma advance_advance w a b : advance (advance w a) b = advance w (a + b).
Proof. unfold advance. simpl. f_equal. lia. Qed.

Lemma run_event_ids n : forall w,
  list_of_range n (u <- uuid4 ;; ret (VStr (uuid_str u))) w =
  (Ok (map (event_id_of_draw w) (seq (drawn w) n)), advance w n).
Proof.
  induction n as [|n IH]; intros w.
  - simpl. unfold ret, advance. destruct w; simpl. do 2 f_equal. lia.
  - cbn [list_of_range]. unfold bind at 1. unfold bind at 1.
    rewrite run_uuid4. unfold ret at 1. unfold bind at 1.
    rewrite IH. unfold ret. rewrite advance_advance.
    change (drawn (advance w 1)) with (drawn w + 1)%nat. rewrite Nat.add_1_r.
    reflexivity.
Qed.

Lemma run_generate_event_id w r df :
  frames w !! r = Some df ->
  generate_event_id r w =
  (Ok r, put (advance w (index_len df)) r
           (mkDF (index_len df)
              (column_assign "event_id"
                 (map (event_id_of_draw w) (seq (drawn w) (index_len df)))
                 (data df)))).
Proof.
  intros Hr. unfold generate_event_id.
  unfold bind at 1. unfold df_len, bind at 1, deref. rewrite Hr. unfold ret at 1.
  unfold bind at 1. rewrite run_event_ids.
  unfold bind at 1.
  rewrite (run_df_setitem (advance w (index_len df)) r df) by
    (first [exact Hr | now rewrite length_map, length_seq]).
  reflexivity.
Qed.

Lemma lookup_map {A B} (f : A -> B) (l : list A) i :
  map f l !! i = option_map f (l !! i).
Proof.
  revert i. induction l as [|x l IH]; intros [|i]; simpl; try reflexivity. apply IH.
Qed.

Lemma lookup_event_ids w d n i :
  (i < n)%nat ->
  map (event_id_of_draw w) (seq d n) !! i = Some (event_id_of_draw w (d + i)).
Proof.
  intros Hi. rewrite lookup_map.
  assert (H : seq d n !! i = Some (d + i)%nat) by (apply lookup_seq; lia).
  now rewrite H.
Qed.

Lemma NoDup_event_ids w d n :
  NoDup (map (event_id_of_draw w) (seq d n)) <->
  forall i j, (i < j < n)%nat ->
    Z.land (entropy w (d + i)) uuid_random_bits <>
    Z.land (entropy w (d + j)) uuid_random_bits.
Proof.
  rewrite NoDup_alt. split.
  - intros H i j Hij Heq. apply event_id_of_draw_eq in Heq.
    assert (i = j); [|lia].
    apply (H i j (event_id_of_draw w (d + i))).
    + apply lookup_event_ids. lia.
    + rewrite Heq. apply lookup_event_ids. lia.
  - intros H i j x Hi Hj.
    assert (Hin : (i < n)%nat).
    { apply lookup_lt_Some in Hi. now rewrite length_map, length_seq in Hi. }
    assert (Hjn : (j < n)%nat).
    { apply lookup_lt_Some in Hj. now rewrite length_map, length_seq in Hj. }
    rewrite lookup_event_ids in Hi, Hj by assumption.
    assert (Heq : event_id_of_draw w (d + i) = event_id_of_draw w (d + j)) by congruence.
    apply event_id_of_draw_eq in Heq.
    destruct (Nat.lt_trichotomy i j) as [Hlt|[->|Hlt]]; [|reflexivity|].
    + exfalso. apply (H i j); [lia | assumption].
    + exfalso. apply (H j i); [lia | now symmetry].
Qed.

(** The version and the variant of an identifier made by [uuid4]. *)
Lemma uuid_v4_version b :
  uuid_version (uuid_v4_of_int (b mod 2 ^ 128)) = 4 /\
  uuid_variant_bits (uuid_v4_of_int (b mod 2 ^ 128)) = 2.
Proof.
  rewrite uuid_v4_bits. unfold uuid_version, uuid_variant_bits.
  rewrite !Z.shiftr_lor, !Z.shiftr_land, !Z.land_lor_distr_l, <- !Z.land_assoc.
  replace (Z.land (Z.shiftr uuid_random_bits 76) 15) with 0 by reflexivity.
  replace (Z.land (Z.shiftr uuid_fixed_bits 76) 15) with 4 by reflexivity.
  replace (Z.land (Z.shiftr uuid_random_bits 62) 3) with 0 by reflexivity.
  replace (Z.land (Z.shiftr uuid_fixed_bits 62) 3) with 2 by reflexivity.
  rewrite !Z.land_0_r. split; reflexivity.
Qed.

Lemma event_id_is_uuid4 w k :
  exists s, event_id_of_draw w k = VStr s /\ is_uuid4_text s /\
            String.length s = 36%nat.
Proof.
  eexists. split; [reflexivity|]. split.
  - eexists. split; [reflexivity|]. split; [apply uuid_v4_range|].
    apply uuid_v4_version.
  - apply length_uuid_str, uuid_v4_range.
Qed.

(** C2: the identity assigner succeeds on every frame, of any size, and
    gives every row an [event_id]: the 36-character text of a version-4
    identifier made from one 16-byte answer of the entropy source.  The
    identifiers of the rows are pairwise distinct, the answers used for
    them being pairwise different in the 122 bits that an identifier
    keeps of an answer (the collision that the specification treats as
    negligible is a repetition of these bits). *)
Theorem C2_event_ids_distinct_when_draws_differ w r df :
  frames w !! r = Some df ->
  (forall i j, (i < j < index_len df)%nat ->
     Z.land (entropy w (drawn w + i)) uuid_random_bits <>
     Z.land (entropy w (drawn w + j)) uuid_random_bits) ->
  exists df' ids,
    generate_event_id r w = (Ok r, put (advance w (index_len df)) r df') /\
    index_len df' = index_len df /\
    column_lookup "event_id" (data df') = Some ids /\
    length ids = index_len df /\
    (forall i, (i < index_len df)%nat ->
       exists s, ids !! i = Some (VStr s) /\ is_uuid4_text s /\
                 String.length s = 36%nat) /\
    NoDup ids.
Proof.
  intros Hr Hdraws. eexists _, _.
  split; [apply run_generate_event_id; exact Hr|].
  cbn [index_len data]. split; [reflexivity|].
  split; [apply column_lookup_assign_eq|].
  split; [now rewrite length_map, length_seq|].
  split.
  - intros i Hi. destruct (event_id_is_uuid4 w (drawn w + i)) as (s & Hs & Hu & Hl).
    exists s. split; [|split; assumption].
    rewrite <- Hs. now apply lookup_event_ids.
  - now apply NoDup_event_ids.
Qed.

Lemma C2_event_ids_distinct_when_draws_differ_witness :
  frames scenario_world !! 1%nat = Some scenario_events /\
  exists df' ids,
    generate_event_id 1 scenario_world
      = (Ok 1%nat, put (advance scenario_world (index_len scenario_events)) 1 df') /\
    index_len df' = index_len scenario_events /\
    column_lookup "event_id" (data df') = Some ids /\
    length ids = index_len scenario_events /\
    (forall i, (i < index_len scenario_events)%nat ->
       exists s, ids !! i = Some (VStr s) /\ is_uuid4_text s /\
                 String.length s = 36%nat) /\
    NoDup ids.
Proof.
  split; [reflexivity|].
  apply (C2_event_ids_distinct_when_draws_differ scenario_world 1 scenario_events).
  - reflexivity.
  - intros i j Hij. simpl in Hij.
    assert (i = 0%nat) as -> by lia. assert (j = 1%nat) as -> by lia.
    vm_compute. discriminate.
Defined.

(** ** Which frames a stage changes *)

Lemma snd_bind {A B} (m : M A) (k : A -> M B) w :
  snd (bind m k w) =
  match fst (m w) with
  | Ok a => snd (k a (snd (m w)))
  | Raise _ => snd (m w)
  end.
Proof. unfold bind. now destruct (m w) as [[a|e] w']. Qed.

Lemma fst_bind {A B} (m : M A) (k : A -> M B) w :
  fst (bind m k w) =
  match fst (m w) with
  | Ok a => fst (k a (snd (m w)))
  | Raise e => Raise e
  end.
Proof. unfold bind. now destruct (m w) as [[a|e] w']. Qed.

Lemma touches_only_ret r {A} (a : A) : touches_only r (ret a).
Proof. now intros w q _. Qed.

Lemma touches_only_lift r {A} (x : result A) : touches_only r (lift x).
Proof. now intros w q _. Qed.

Lemma touches_only_bind r {A B} (m : M A) (k : A -> M B) :
  touches_only r m -> (forall a, touches_only r (k a)) -> touches_only r (bind m k).
Proof.
  intros Hm Hk w q Hq. rewrite snd_bind.
  destruct (fst (m w)) as [a|e]; [rewrite Hk by assumption|]; now apply Hm.
Qed.

Lemma touches_only_deref r q : touches_only r (deref q).
Proof. intros w q' _. unfold deref. now destruct (frames w !! q). Qed.

Lemma touches_only_update r df : touches_only r (update r df).
Proof. intros w q Hq. unfold update. simpl. apply lookup_insert_ne. congruence. Qed.

Lemma touches_only_urandom r : touches_only r os_urandom16.
Proof. now intros w q _. Qed.

Lemma touches_only_for_each r {A} (xs : list A) (body : A -> M unit) :
  (forall x, touches_only r (body x)) -> touches_only r (for_each xs body).
Proof.
  intros Hb. induction xs as [|x xs IH]; simpl.
  - apply touches_only_ret.
  - apply touches_only_bind; auto.
Qed.

Lemma touches_only_list_of_range r {A} n (e : M A) :
  touches_only r e -> touches_only r (list_of_range n e).
Proof.
  intros He. induction n as [|n IH]; simpl.
  - apply touches_only_ret.
  - apply touches_only_bind; [assumption|]. intros x.
    apply touches_only_bind; [assumption|]. intros xs. apply touches_only_ret.
Qed.

Create HintDb frame_effects.

#[local] Hint Resolve touches_only_ret touches_only_lift touches_only_deref
  touches_only_update touches_only_urandom : frame_effects.
#[local] Hint Extern 2 (touches_only _ (bind _ _)) =>
  apply touches_only_bind; [|intros ?] : frame_effects.
#[local] Hint Extern 2 (touches_only _ (for_each _ _)) =>
  apply touches_only_for_each; intros ? : frame_effects.
#[local] Hint Extern 2 (touches_only _ (list_of_range _ _)) =>
  apply touches_only_list_of_range : frame_effects.

Lemma touches_only_extract r fields :
  touches_only r (extract_details_fields r fields).
Proof.
  unfold extract_details_fields, df_getitem, df_setitem.
  auto 20 with frame_effects.
Qed.

Lemma touches_only_generate r : touches_only r (generate_event_id r).
Proof.
  unfold generate_event_id, df_len, df_setitem, uuid4.
  auto 20 with frame_effects.
Qed.

Lemma returns_ref_ret r : returns_ref r (ret r).
Proof. intros w r' H. now inversion H. Qed.

Lemma returns_ref_bind r {A} (m : M A) (k : A -> M nat) :
  (forall a, returns_ref r (k a)) -> returns_ref r (bind m k).
Proof.
  intros Hk w r' H. rewrite fst_bind in H.
  destruct (fst (m w)) as [a|e]; [|discriminate]. eapply Hk, H.
Qed.

Lemma returns_ref_extract r fields : returns_ref r (extract_details_fields r fields).
Proof.
  unfold extract_details_fields.
  repeat (apply returns_ref_bind; intros ?). apply returns_ref_ret.
Qed.

Lemma returns_ref_generate r : returns_ref r (generate_event_id r).
Proof.
  unfold generate_event_id.
  repeat (apply returns_ref_bind; intros ?). apply returns_ref_ret.
Qed.

Lemma new_frame_effect (m : result DataFrame) w :
  let out := bind (lift m) new_frame w in
  (forall r df, frames w !! r = Some df -> frames (snd out) !! r = Some df) /\
  (forall r', fst out = Ok r' ->
     frames w !! r' = None /\ is_Some (frames (snd out) !! r')).
Proof.
  unfold bind, lift, new_frame. destruct m as [df'|e]; simpl.
  - split.
    + intros r df Hr. rewrite lookup_insert_ne; [assumption|].
      intros <-. rewrite fresh_ref_unused in Hr. discriminate.
    + intros r' H. inversion H; subst. split; [apply fresh_ref_unused|].
      rewrite lookup_insert_eq. eauto.
  - split; [auto|]. intros r' H. discriminate.
Qed.

Lemma join_data_effect p e :
  preserves_frames (join_data p e) /\ returns_fresh (join_data p e).
Proof.
  assert (H : forall w, join_data p e w =
    match frames w !! e with
    | Some ef =>
        match frames w !! p with
        | Some pf => bind (lift (merge_left ef pf "user_id")) new_frame w
        | None => (Raise ReferenceError, w)
        end
    | None => (Raise ReferenceError, w)
    end).
  { intros w. unfold join_data, df_merge_left, bind, deref, ret, lift.
    destruct (frames w !! e); [|reflexivity].
    destruct (frames w !! p); [|reflexivity].
    destruct (merge_left _ _ _); reflexivity. }
  split.
  - intros w r df Hr. rewrite H.
    destruct (frames w !! e); [|assumption].
    destruct (frames w !! p); [|assumption].
    now apply new_frame_effect.
  - intros w r'. rewrite H.
    destruct (frames w !! e); [|discriminate].
    destruct (frames w !! p); [|discriminate].
    apply new_frame_effect.
Qed.

Lemma select_final_columns_effect r extra :
  preserves_frames (select_final_columns r extra) /\
  returns_fresh (select_final_columns r extra).
Proof.
  assert (H : forall w, select_final_columns r extra w =
    match frames w !! r with
    | Some df =>
        bind (lift (frame_select df
                      (List.filter (fun col => label_in col (columns df))
                         (select_final_column_list extra)))) new_frame w
    | None => (Raise ReferenceError, w)
    end).
  { intros w. unfold select_final_columns, df_columns, df_select, bind, deref, ret, lift.
    destruct (frames w !! r) eqn:E; [|reflexivity]. now rewrite E. }
  split.
  - intros w q df Hq. rewrite H. destruct (frames w !! r); [|assumption].
    now apply new_frame_effect.
  - intros w r'. rewrite H. destruct (frames w !! r); [|discriminate].
    apply new_frame_effect.
Qed.

(** C7 (amended): the joiner and the column projector are pure transforms:
    they change no frame that exists and return a reference to a new
    frame.  The detail flattener and the identity assigner are not: they
    return the very reference they were given, change no other frame, and
    leave the frame behind that reference with the added columns
    ([details_raw] and the effective fields; [event_id]). *)
Theorem C7_stage_frame_effects :
  (forall p e,
     preserves_frames (join_data p e) /\ returns_fresh (join_data p e)) /\
  (forall r extra,
     preserves_frames (select_final_columns r extra) /\
     returns_fresh (select_final_columns r extra)) /\
  (forall r fields,
     touches_only r (extract_details_fields r fields) /\
     returns_ref r (extract_details_fields r fields)) /\
  (forall r,
     touches_only r (generate_event_id r) /\ returns_ref r (generate_event_id r)) /\
  (forall w r df det fields,
     frames w !! r = Some df ->
     column_lookup "details" (data df) = Some det ->
     length det = index_len df ->
     Forall (fun x => json_serializable x = true) det ->
     exists df',
       extract_details_fields r fields w = (Ok r, put w r df') /\
       frames (put w r df') !! r = Some df' /\
       "details_raw" ∈ columns df' /\
       (forall f, f ∈ extract_all_fields fields -> f ∈ columns df')) /\
  (forall w r df,
     frames w !! r = Some df ->
     exists df',
       generate_event_id r w = (Ok r, put (advance w (index_len df)) r df') /\
       frames (put (advance w (index_len df)) r df') !! r = Some df' /\
       "event_id" ∈ columns df').
Proof.
  split; [apply join_data_effect|].
  split; [apply select_final_columns_effect|].
  split; [intros r fields; split;
          [apply touches_only_extract | apply returns_ref_extract]|].
  split; [intros r; split;
          [apply touches_only_generate | apply returns_ref_generate]|].
  split.
  - intros w r df det fields Hr Hd Hn Hser.
    destruct (series_apply_dumps_total det Hser) as [raw Hraw].
    pose proof (extract_all_fields_effective fields) as [Hasc _].
    assert (Hd0 : column_lookup "details" (column_assign "details_raw" raw (data df))
                  = Some det)
      by now rewrite column_lookup_assign_ne by discriminate.
    eexists. split; [eapply run_extract_details_fields; eassumption|].
    split; [apply frames_put|]. rewrite columns_mk. split.
    + rewrite (labels_project_fields _ _ det (strictly_ascending_NoDup _ Hasc) Hd0).
      apply elem_of_app. left.
      eapply column_lookup_Some_label, column_lookup_assign_eq.
    + intros f Hf. eapply column_lookup_Some_label.
      now apply (project_fields_lookup f _ _ det Hasc Hd0).
  - intros w r df Hr. eexists.
    split; [apply run_generate_event_id; exact Hr|].
    split; [apply frames_put|]. rewrite columns_mk.
    eapply column_lookup_Some_label, column_lookup_assign_eq.
Qed.

Lemma C7_stage_frame_effects_witness :
  frames scenario_world !! 1%nat = Some scenario_events /\
  exists df',
    generate_event_id 1 scenario_world
      = (Ok 1%nat, put (advance scenario_world (index_len scenario_events)) 1 df') /\
    frames (put (advance scenario_world (index_len scenario_events)) 1 df') !! 1%nat
      = Some df' /\
    "event_id" ∈ columns df'.
Proof.
  split; [reflexivity|].
  apply (proj2 (proj2 (proj2 (proj2 (proj2 C7_stage_frame_effects))))
           scenario_world 1%nat scenario_events).
  reflexivity.
Defined.

(** C7 as stated fails for two of the four stages: after the detail
    flattener, and after the identity assigner, the frame that was passed
    in is no longer the frame it was. *)
Lemma C7_counterexample_stages_update_in_place :
  ~ leaves_input_unchanged (fun r => extract_details_fields r None) /\
  ~ leaves_input_unchanged generate_event_id.
Proof.
  split; intros H;
    specialize (H scenario_world 1%nat scenario_events eq_refl);
    vm_compute in H; discriminate H.
Qed.

(** ** The profile loader *)

Lemma lstrip_split p l :
  exists a, l = a ++ lstrip p l /\ Forall (fun c => p c = true) a.
Proof.
  induction l as [|c l (a & Ha & Hp)]; simpl.
  - exists []. split; [reflexivity | constructor].
  - destruct (p c) eqn:E.
    + exists (c :: a). split; [simpl; now f_equal | now constructor].
    + exists []. split; [reflexivity | constructor].
Qed.

Lemma lstrip_head p l c : head (lstrip p l) = Some c -> p c = false.
Proof.
  induction l as [|d l IH]; simpl; [discriminate|].
  destruct (p d) eqn:E; [assumption|]. simpl. intros H. now inversion H; subst.
Qed.

Lemma last_rev (l : list N) : last (rev l) = head l.
Proof. destruct l as [|c l]; [reflexivity|]. simpl. apply last_snoc. Qed.

Lemma rstrip_split p l :
  exists b, l = rstrip p l ++ b /\ Forall (fun c => p c = true) b.
Proof.
  unfold rstrip. destruct (lstrip_split p (rev l)) as (a & Ha & Hp).
  exists (rev a). split.
  - rewrite <- rev_app_distr, <- Ha. now rewrite rev_involutive.
  - apply Forall_forall. intros c Hc. apply list_elem_of_In, in_rev in Hc.
    rewrite Forall_forall in Hp. now apply Hp, list_elem_of_In.
Qed.

Lemma rstrip_last p l c : last (rstrip p l) = Some c -> p c = false.
Proof. unfold rstrip. rewrite last_rev. apply lstrip_head. Qed.

Lemma strip_trimmed p l : trimmed_of p l (strip p l).
Proof.
  unfold strip. destruct (lstrip_split p l) as (a & Ha & Hpa).
  destruct (rstrip_split p (lstrip p l)) as (b & Hb & Hpb).
  exists a, b. split; [|split; assumption]. now rewrite <- Hb.
Qed.

Lemma strip_no_edge p l : no_edge p (strip p l).
Proof.
  unfold strip. split; intros c Hc.
  - destruct (rstrip_split p (lstrip p l)) as (b & Hb & _).
    apply (lstrip_head p l). rewrite Hb.
    destruct (rstrip p (lstrip p l)); [discriminate | exact Hc].
  - eapply rstrip_last, Hc.
Qed.

Lemma decode_sig_cases t :
  (exists rest, t = BOM :: rest /\ decode_sig t = rest) \/
  (head t <> Some BOM /\ decode_sig t = t).
Proof.
  destruct t as [|c rest]; simpl.
  - right. split; [discriminate | reflexivity].
  - destruct (N.eqb_spec c BOM) as [->|Hne].
    + left. eauto.
    + right. split; [congruence | reflexivity].
Qed.

(** C5 (amended): for every profile file, the loader drops one byte-order
    mark at the start of the decoded text, and hands to the CSV parser,
    with [registration_date] as the one date column, the lines of the file
    joined by line feeds, each repaired as follows: leading and trailing
    white space is stripped, and then every leading and every trailing
    quote character is stripped, however many layers there are: the
    repaired line neither starts nor ends with a quote. *)
Theorem C5_profile_text_repair
  (open_utf8 : string -> result (list N))
  (read_csv : list N -> list string -> result DataFrame)
  (csv_path : string) (decoded : list N) :
  open_utf8 csv_path = Ok decoded ->
  ((exists rest, decoded = BOM :: rest /\ decode_sig decoded = rest) \/
   (head decoded <> Some BOM /\ decode_sig decoded = decoded)) /\
  load_profile_file open_utf8 read_csv csv_path =
    read_csv
      (text_join [LF]
         (map repair_line
            (file_lines (universal_newlines (decode_sig decoded)) [])))
      ["registration_date"] /\
  forall line,
    trimmed_of is_space line (strip is_space line) /\
    no_edge is_space (strip is_space line) /\
    trimmed_of is_quote (strip is_space line) (repair_line line) /\
    no_edge is_quote (repair_line line).
Proof.
  intros Hopen. split; [apply decode_sig_cases|]. split.
  - unfold load_profile_file. rewrite Hopen. reflexivity.
  - intros line. unfold repair_line.
    repeat split; try apply strip_trimmed; apply strip_no_edge.
Qed.

Lemma C5_profile_text_repair_witness :
  let open_utf8 := fun _ : string => Ok [BOM; 34; 34; 97; 34; 34; 13; 10; 98]%N in
  let read_csv := fun (_ : list N) (_ : list string) => Ok scenario_profiles in
  open_utf8 "profiles.csv" = Ok [BOM; 34; 34; 97; 34; 34; 13; 10; 98]%N /\
  ((exists rest, [BOM; 34; 34; 97; 34; 34; 13; 10; 98]%N = BOM :: rest /\
                 decode_sig [BOM; 34; 34; 97; 34; 34; 13; 10; 98]%N = rest) \/
   (head [BOM; 34; 34; 97; 34; 34; 13; 10; 98]%N <> Some BOM /\
    decode_sig [BOM; 34; 34; 97; 34; 34; 13; 10; 98]%N
      = [BOM; 34; 34; 97; 34; 34; 13; 10; 98]%N)) /\
  load_profile_file open_utf8 read_csv "profiles.csv" =
    read_csv
      (text_join [LF]
         (map repair_line
            (file_lines
               (universal_newlines
                  (decode_sig [BOM; 34; 34; 97; 34; 34; 13; 10; 98]%N)) [])))
      ["registration_date"] /\
  forall line,
    trimmed_of is_space line (strip is_space line) /\
    no_edge is_space (strip is_space line) /\
    trimmed_of is_quote (strip is_space line) (repair_line line) /\
    no_edge is_quote (repair_line line).
Proof.
  intros open_utf8 read_csv. split; [reflexivity|].
  apply (C5_profile_text_repair open_utf8 read_csv "profiles.csv"
           [BOM; 34; 34; 97; 34; 34; 13; 10; 98]%N).
  reflexivity.
Defined.

(** The text handed to the parser for that file: the two lines [a] and
    [b], without byte-order mark, quotes and carriage return. *)
Example fixed_csv_of_quoted_file :
  fixed_csv_of [BOM; 34; 34; 97; 34; 34; 13; 10; 98]%N = [97; 10; 98]%N.
Proof. reflexivity. Qed.

(** C5 as stated fails on a line wrapped in two layers of quotes: the code
    removes both layers, where the removal of a single layer would leave
    one quote at each end. *)
Lemma C5_counterexample_two_quote_layers :
  repair_line [34; 34; 97; 34; 34; 10]%N = [97]%N /\
  repair_line_single_layer [34; 34; 97; 34; 34; 10]%N = [34; 97; 34]%N /\
  repair_line [34; 34; 97; 34; 34; 10]%N <>
  repair_line_single_layer [34; 34; 97; 34; 34; 10]%N.
Proof. repeat split; vm_compute; congruence. Qed.

(** ** The query utility *)

Lemma prefix_append old post : String.prefix old (old +:+ post) = true.
Proof.
  induction old as [|c old IH]; [now destruct post|].
  rewrite append_cons. simpl. destruct (ascii_dec c c); [assumption | congruence].
Qed.

Lemma prefix_other_head c old d s :
  c <> d -> String.prefix (String c old) (String d s) = false.
Proof. intros H. simpl. destruct (ascii_dec c d); [congruence | reflexivity]. Qed.

(** The characters of a replaced occurrence are passed over. *)
Lemma str_replace_from_skip old new s : forall post,
  str_replace_from old new (s +:+ post) (String.length s) =
  str_replace_from old new post 0.
Proof.
  induction s as [|c s IH]; intros post; [reflexivity|].
  rewrite append_cons. simpl. apply IH.
Qed.

(** The leftmost occurrence of the placeholder is replaced, and the
    replacement goes on behind it. *)
Lemma str_replace_first_occurrence c old new pre post :
  occurs c pre = false ->
  str_replace (pre +:+ String c old +:+ post) (String c old) new =
  pre +:+ new +:+ str_replace post (String c old) new.
Proof.
  unfold str_replace. induction pre as [|d pre IH]; intros Hpre.
  - rewrite !append_nil.
    change (String c old +:+ post) with (String c (old +:+ post)).
    cbn [str_replace_from].
    change (String c (old +:+ post)) with (String c old +:+ post).
    rewrite prefix_append.
    replace (String.length (String c old) - 1)%nat with (String.length old)
      by (simpl; lia).
    now rewrite str_replace_from_skip.
  - simpl in Hpre. apply orb_false_iff in Hpre as [Hcd Hpre].
    apply Ascii.eqb_neq in Hcd.
    rewrite !(append_cons d pre). cbn [str_replace_from].
    rewrite prefix_other_head by assumption. now rewrite IH.
Qed.

Lemma str_replace_no_occurrence c old new s :
  occurs c s = false -> str_replace s (String c old) new = s.
Proof.
  unfold str_replace. induction s as [|d s IH]; intros Hs; [reflexivity|].
  simpl in Hs. apply orb_false_iff in Hs as [Hcd Hs]. apply Ascii.eqb_neq in Hcd.
  cbn [str_replace_from]. rewrite prefix_other_head by assumption. now rewrite IH.
Qed.

Example formatted_query_example :
  str_replace "SELECT * FROM '{parquet_path}'" "{parquet_path}"
    (path_join "/data/out" "**/*.parquet")
  = "SELECT * FROM '/data/out/**/*.parquet'".
Proof. reflexivity. Qed.

(** C9: the query utility fails with [FileNotFoundError] when the resolved
    path does not exist, without any call to the engine; otherwise it runs
    the query in which the placeholder is replaced by the recursive glob
    below the resolved directory, on a connection it opens and closes, and
    returns the engine's table, or fails with a [RuntimeError] whose
    message carries the engine's error. *)
Theorem C9_query_outcomes
  (path_resolve : string -> string) (path_exists : string -> bool)
  (engine_run : string -> result DataFrame) (query parquet_path : string) :
  let resolved := path_resolve parquet_path in
  let formatted :=
    str_replace query "{parquet_path}" (path_join resolved "**/*.parquet") in
  let outcome :=
    query_output_parquet path_resolve path_exists engine_run query parquet_path in
  (path_exists resolved = false ->
     outcome =
     (Raise (FileNotFoundError ("Provided path does not exist: " +:+ resolved)), [])) /\
  (path_exists resolved = true ->
     forall e, engine_run formatted = Raise e ->
       outcome =
       (Raise (RuntimeError ("Query failed: " +:+ exn_str e)),
        [Connect; Execute formatted; Close])) /\
  (path_exists resolved = true ->
     forall table, engine_run formatted = Ok table ->
       outcome = (Ok table, [Connect; Execute formatted; Close])) /\
  (forall pre post, occurs "{" pre = false ->
     query = pre +:+ "{parquet_path}" +:+ post ->
     formatted =
       pre +:+ path_join resolved "**/*.parquet" +:+
       str_replace post "{parquet_path}" (path_join resolved "**/*.parquet")).
Proof.
  intros resolved formatted outcome. subst outcome. unfold query_output_parquet.
  fold resolved. fold formatted.
  split; [|split; [|split]].
  - intros H. now rewrite H.
  - intros H e He. now rewrite H, He.
  - intros H table Ht. now rewrite H, Ht.
  - intros pre post Hpre ->. subst formatted.
    now apply str_replace_first_occurrence.
Qed.

Lemma C9_query_outcomes_witness :
  let path_resolve := fun p : string => p in
  let path_exists := fun p : string => String.eqb p "/data/out" in
  let engine_run := fun q : string =>
    if String.eqb q "SELECT * FROM '/data/out/**/*.parquet'"
    then Ok scenario_events else Raise (EngineError "Parser Error") in
  query_output_parquet path_resolve path_exists engine_run
    "SELECT * FROM '{parquet_path}'" "/data/out"
  = (Ok scenario_events,
     [Connect; Execute "SELECT * FROM '/data/out/**/*.parquet'"; Close]) /\
  query_output_parquet path_resolve path_exists engine_run
    "SELEKT '{parquet_path}'" "/data/out"
  = (Raise (RuntimeError "Query failed: Parser Error"),
     [Connect; Execute "SELEKT '/data/out/**/*.parquet'"; Close]) /\
  query_output_parquet path_resolve path_exists engine_run
    "SELECT * FROM '{parquet_path}'" "/data/missing"
  = (Raise (FileNotFoundError "Provided path does not exist: /data/missing"), []).
Proof.
  intros path_resolve path_exists engine_run.
  split; [|split].
  - apply (proj1 (proj2 (proj2 (C9_query_outcomes path_resolve path_exists engine_run
             "SELECT * FROM '{parquet_path}'" "/data/out"))) eq_refl).
    reflexivity.
  - apply (proj1 (proj2 (C9_query_outcomes path_resolve path_exists engine_run
             "SELEKT '{parquet_path}'" "/data/out")) eq_refl
             (EngineError "Parser Error")).
    reflexivity.
  - apply (proj1 (C9_query_outcomes path_resolve path_exists engine_run
             "SELECT * FROM '{parquet_path}'" "/data/missing")).
    reflexivity.
Defined.

(** ** The scenario of the specification, end to end *)

(** Two profiles, two events of which one has no profile and no details:
    two rows come out; the unmatched row has missing profile fields, a
    null [page_url] and the text [null] as [details_raw]; the profiles'
    missing [location] column is left out of the result. *)
Example run_transform_scenario :
  exists w' out s,
    run_transform 0 1 None scenario_world = (Ok 3%nat, w') /\
    frames w' !! 3%nat = Some out /\
    index_len out = 2%nat /\
    columns out =
      ["event_id"; "user_id"; "name"; "registration_date"; "event_type";
       "timestamp"; "event_date"; "details_raw"; "button_id"; "item_id";
       "page_url"] /\
    column_lookup "user_id" (data out) = Some [VInt 1; VInt 3] /\
    column_lookup "name" (data out) = Some [VStr "A"; NA] /\
    column_lookup "registration_date" (data out) =
      Some [VTimestamp 1704067200; VNaT] /\
    column_lookup "page_url" (data out) = Some [VStr "/x"; VNone] /\
    column_lookup "details_raw" (data out) = Some [VStr s; VStr "null"].
Proof.
  eexists _, _, _. split; [vm_compute; reflexivity|].
  split; [vm_compute; reflexivity|].
  repeat split; reflexivity.
Qed.

(** An event whose [user_id] matches two profile rows appears twice. *)
Example join_expands_on_duplicate_profiles :
  exists out,
    merge_left scenario_events duplicate_profiles "user_id" = Ok out /\
    index_len out = 3%nat /\
    column_lookup "user_id" (data out) = Some [VInt 1; VInt 1; VInt 3] /\
    column_lookup "name" (data out) = Some [VStr "A"; VStr "A2"; NA].
Proof. eexists. repeat split; vm_compute; reflexivity. Qed.

(** Two profile files with the same two rows each: the loader returns a
    new frame with the four rows, in file order. *)
Example load_user_profiles_two_files :
  let open_utf8 := fun _ : string => Ok [BOM; 97; 10]%N in
  let read_csv := fun (_ : list N) (_ : list string) => Ok scenario_profiles in
  exists out,
    fst (load_user_profiles open_utf8 read_csv ["a.csv"; "b.csv"] scenario_world)
      = Ok 2%nat /\
    frames (snd (load_user_profiles open_utf8 read_csv ["a.csv"; "b.csv"]
                   scenario_world)) !! 2%nat = Some out /\
    index_len out = 4%nat /\
    columns out = ["user_id"; "name"; "registration_date"] /\
    column_lookup "user_id" (data out) = Some [VInt 1; VInt 2; VInt 1; VInt 2].
Proof. eexists. repeat split; vm_compute; reflexivity. Qed.

(* ================================================================== *)
(** * Further properties of the code *)

(** ** [json.dumps]: which values it accepts *)

Lemma json_dumps_outcome v :
  match json_dumps v with
  | Ok _ => json_serializable v = true
  | Raise e => json_serializable v = false /\ exists msg, e = TypeError msg
  end.
Proof.
  induction v as [| [] | | | | l IH | items IH | | |] using value_nested_ind;
    simpl; eauto.
  - assert (Hl :
      match (fix elems (l : list value) : result (list string) :=
               match l with
               | [] => Ok []
               | x :: l' =>
                   rbind (json_dumps x) (fun sx =>
                   rbind (elems l') (fun sl => Ok (sx :: sl)))
               end) l with
      | Ok _ => forallb json_serializable l = true
      | Raise e => forallb json_serializable l = false /\ exists msg, e = TypeError msg
      end).
    { induction IH as [|x l Hx _ IHl]; [reflexivity|]. simpl.
      destruct (json_dumps x) as [sx|e]; simpl.
      - rewrite Hx. simpl.
        match goal with
        | |- context [rbind ?m _] => destruct m as [sl|e]; simpl; exact IHl
        end.
      - destruct Hx as [-> Hx]. simpl. auto. }
    match goal with
    | |- context [rbind ?m _] => destruct m as [parts|e]; simpl; exact Hl
    end.
  - assert (Hl :
      match (fix members (l : list (string * value)) : result (list string) :=
               match l with
               | [] => Ok []
               | (k, x) :: l' =>
                   rbind (json_dumps x) (fun sx =>
                   rbind (members l') (fun sl =>
                   Ok ((encode_basestring_ascii k +:+ ": " +:+ sx) :: sl)))
               end) items with
      | Ok _ =>
          (fix members (l : list (string * value)) : bool :=
             match l with
             | [] => true
             | (_, x) :: l' => json_serializable x && members l'
             end) items = true
      | Raise e =>
          (fix members (l : list (string * value)) : bool :=
             match l with
             | [] => true
             | (_, x) :: l' => json_serializable x && members l'
             end) items = false /\ exists msg, e = TypeError msg
      end).
    { induction IH as [|[k x] l Hx _ IHl]; [reflexivity|]. simpl in Hx. simpl.
      destruct (json_dumps x) as [sx|e]; simpl.
      - rewrite Hx. simpl.
        match goal with
        | |- context [rbind ?m _] => destruct m as [sl|e]; simpl; exact IHl
        end.
      - destruct Hx as [-> Hx]. simpl. auto. }
    match goal with
    | |- context [rbind ?m _] => destruct m as [parts|e]; simpl; exact Hl
    end.
Qed.


(** ** The detail flattener: failures, column order, repeated runs *)

Lemma series_apply_dumps_fails det :
  Exists (fun x => json_serializable x = false) det ->
  exists msg, series_apply dumps_cell det = Raise (TypeError msg).
Proof.
  rewrite series_apply_dumps.
  induction det as [|x det IH]; intros H; [inversion H|].
  simpl. unfold dumps_cell at 1.
  pose proof (json_dumps_outcome x) as Hx.
  destruct (json_dumps x) as [s|e]; simpl.
  - apply Exists_cons in H as [H|H]; [congruence|].
    destruct (IH H) as [msg ->]. simpl. eauto.
  - destruct Hx as [_ [msg ->]]. eauto.
Qed.

(** The flattener fails before it writes anything: without a [details]
    column it raises [KeyError], and with a [details] cell that
    [json.dumps] does not accept it raises [TypeError]; in both cases no
    frame of the store is changed. *)
Theorem flattener_fails_before_writing w r df fields :
  frames w !! r = Some df ->
  (column_lookup "details" (data df) = None ->
   extract_details_fields r fields w = (Raise (KeyError "details"), w)) /\
  (forall det,
     column_lookup "details" (data df) = Some det ->
     Exists (fun x => json_serializable x = false) det ->
     exists msg,
       extract_details_fields r fields w = (Raise (TypeError msg), w)).
Proof.
  intros Hr. split.
  - intros Hd. unfold extract_details_fields.
    unfold bind at 1. now rewrite (run_df_getitem_missing w r df _ Hr Hd).
  - intros det Hd Hbad. destruct (series_apply_dumps_fails det Hbad) as [msg Hmsg].
    exists msg. unfold extract_details_fields.
    unfold bind at 1. rewrite (run_df_getitem w r df _ det Hr Hd).
    unfold bind at 1. unfold lift at 1. fold dumps_cell. now rewrite Hmsg.
Qed.

Lemma flattener_fails_before_writing_witness :
  frames scenario_world !! 0%nat = Some scenario_profiles /\
  (column_lookup "details" (data scenario_profiles) = None ->
   extract_details_fields 0 None scenario_world
     = (Raise (KeyError "details"), scenario_world)) /\
  (forall det,
     column_lookup "details" (data scenario_profiles) = Some det ->
     Exists (fun x => json_serializable x = false) det ->
     exists msg,
       extract_details_fields 0 None scenario_world
         = (Raise (TypeError msg), scenario_world)).
Proof.
  split; [reflexivity|].
  apply (flattener_fails_before_writing scenario_world 0 scenario_profiles None).
  reflexivity.
Defined.

Lemma column_assign_same c v d :
  column_lookup c d = Some v -> column_assign c v d = d.
Proof.
  induction d as [|[k old] d IH]; simpl; [discriminate|].
  destruct (String.eqb k c) eqn:E.
  - intros H. now inversion H.
  - intros H. now rewrite IH.
Qed.

Lemma project_fields_fixpoint fs : forall d det,
  column_lookup "details" d = Some det ->
  "details" ∉ fs ->
  (forall f, f ∈ fs ->
     column_lookup f d = Some (infer_objects (map (details_get f) det))) ->
  project_fields fs d = d.
Proof.
  induction fs as [|f fs IH]; intros d det Hd Hnot Hall; simpl; [reflexivity|].
  rewrite Hd. rewrite column_assign_same by (apply Hall; left).
  apply not_elem_of_cons in Hnot as [_ Hnot].
  apply (IH d det Hd Hnot). intros g Hg. apply Hall. now right.
Qed.

Lemma details_not_effective fields :
  "details" ∉ or_empty fields -> "details" ∉ extract_all_fields fields.
Proof.
  intros H Hin. apply (proj2 (extract_all_fields_effective fields)) in Hin.
  destruct Hin as [Hin|Hin]; [|contradiction].
  repeat (apply elem_of_cons in Hin as [Hin|Hin]; [discriminate|]).
  inversion Hin.
Qed.

Lemma strictly_ascending_filter (p : string -> bool) l :
  strictly_ascending l -> strictly_ascending (List.filter p l).
Proof.
  induction l as [|x l IH]; intros Hs; [constructor|].
  assert (Hl : strictly_ascending l) by (eapply strictly_ascending_tail; eassumption).
  cbn [List.filter]. destruct (p x); [|now apply IH].
  specialize (IH Hl).
  destruct (List.filter p l) as [|z t] eqn:E; [constructor|].
  constructor; [|exact IH].
  apply (strictly_ascending_head x l Hs).
  apply list_elem_of_In. apply (proj1 (filter_In p z l)).
  rewrite E. now left.
Qed.

(** The columns after the flattener, in order: the columns of the input in
    their places, then [details_raw] unless it was a column already, then
    the effective fields that were not columns yet, in sorted order. *)
Theorem flattener_column_order w r df det fields :
  frames w !! r = Some df ->
  column_lookup "details" (data df) = Some det ->
  length det = index_len df ->
  Forall (fun x => json_serializable x = true) det ->
  exists df',
    extract_details_fields r fields w = (Ok r, put w r df') /\
    columns df' =
      columns df
      ++ (if label_in "details_raw" (columns df) then [] else ["details_raw"])
      ++ fresh_labels (extract_all_fields fields) ("details_raw" :: columns df) /\
    strictly_ascending
      (fresh_labels (extract_all_fields fields) ("details_raw" :: columns df)).
Proof.
  intros Hr Hd Hn Hser.
  destruct (series_apply_dumps_total det Hser) as [raw Hraw].
  pose proof (extract_all_fields_effective fields) as [Hasc _].
  eexists. split; [eapply run_extract_details_fields; eassumption|].
  split.
  - rewrite columns_mk.
    rewrite (labels_project_fields _ _ det (strictly_ascending_NoDup _ Hasc))
      by now rewrite column_lookup_assign_ne by discriminate.
    rewrite labels_assign. unfold columns.
    destruct (label_in "details_raw" (map fst (data df))) eqn:E.
    + rewrite fresh_labels_cons_existing by now apply label_in_spec. reflexivity.
    + rewrite fresh_labels_cons_snoc, <- app_assoc. reflexivity.
  - apply strictly_ascending_filter, Hasc.
Qed.

Lemma flattener_column_order_witness :
  frames scenario_world !! 1%nat = Some scenario_events /\
  exists df',
    extract_details_fields 1 (Some ["user_id"; "campaign"]) scenario_world
      = (Ok 1%nat, put scenario_world 1 df') /\
    columns df' =
      columns scenario_events
      ++ (if label_in "details_raw" (columns scenario_events)
          then [] else ["details_raw"])
      ++ fresh_labels (extract_all_fields (Some ["user_id"; "campaign"]))
           ("details_raw" :: columns scenario_events) /\
    strictly_ascending
      (fresh_labels (extract_all_fields (Some ["user_id"; "campaign"]))
         ("details_raw" :: columns scenario_events)).
Proof.
  split; [reflexivity|].
  apply (flattener_column_order scenario_world 1 scenario_events
           [VDict [("page_url", VStr "/x")]; VNone] (Some ["user_id"; "campaign"]));
    [reflexivity | reflexivity | reflexivity | repeat constructor].
Defined.

(** The flattener leaves every column alone that is neither [details_raw]
    nor an effective field: it keeps its cells; in particular the [details]
    column survives unless it is requested as a field. *)
Theorem flattener_keeps_other_columns w r df det fields c :
  frames w !! r = Some df ->
  column_lookup "details" (data df) = Some det ->
  length det = index_len df ->
  Forall (fun x => json_serializable x = true) det ->
  c <> "details_raw" ->
  c ∉ extract_all_fields fields ->
  exists df',
    extract_details_fields r fields w = (Ok r, put w r df') /\
    column_lookup c (data df') = column_lookup c (data df).
Proof.
  intros Hr Hd Hn Hser Hc Hnot.
  destruct (series_apply_dumps_total det Hser) as [raw Hraw].
  eexists. split; [eapply run_extract_details_fields; eassumption|].
  simpl. rewrite project_fields_lookup_other by assumption.
  apply column_lookup_assign_ne. congruence.
Qed.

Lemma flattener_keeps_other_columns_witness :
  frames scenario_world !! 1%nat = Some scenario_events /\
  exists df',
    extract_details_fields 1 None scenario_world = (Ok 1%nat, put scenario_world 1 df') /\
    column_lookup "details" (data df') = column_lookup "details" (data scenario_events).
Proof.
  split; [reflexivity|].
  apply (flattener_keeps_other_columns scenario_world 1 scenario_events
           [VDict [("page_url", VStr "/x")]; VNone] None "details");
    [reflexivity | reflexivity | reflexivity | repeat constructor | discriminate |].
  vm_compute. intros H.
  repeat (apply elem_of_cons in H as [H|H]; [discriminate|]). inversion H.
Defined.

(** Running the flattener a second time with the same field list changes
    nothing, provided neither [details] nor [details_raw] is requested. *)
Theorem flattener_idempotent w r df det fields :
  frames w !! r = Some df ->
  column_lookup "details" (data df) = Some det ->
  length det = index_len df ->
  Forall (fun x => json_serializable x = true) det ->
  "details" ∉ or_empty fields ->
  "details_raw" ∉ or_empty fields ->
  exists df',
    extract_details_fields r fields w = (Ok r, put w r df') /\
    extract_details_fields r fields (put w r df') = (Ok r, put w r df').
Proof.
  intros Hr Hd Hn Hser Hdet Hraw_req.
  destruct (series_apply_dumps_total det Hser) as [raw Hraw].
  pose proof (extract_all_fields_effective fields) as [Hasc _].
  pose proof (details_not_effective fields Hdet) as Hdet'.
  pose proof (details_raw_not_effective fields Hraw_req) as Hraw'.
  set (d0 := column_assign "details_raw" raw (data df)).
  set (d1 := project_fields (extract_all_fields fields) d0).
  assert (Hd0 : column_lookup "details" d0 = Some det)
    by (subst d0; now rewrite column_lookup_assign_ne by discriminate).
  assert (Hd1 : column_lookup "details" d1 = Some det)
    by (subst d1; now rewrite project_fields_lookup_other).
  assert (Hr1 : column_lookup "details_raw" d1 = Some raw).
  { subst d1 d0. rewrite project_fields_lookup_other by assumption.
    apply column_lookup_assign_eq. }
  assert (Hf1 : forall f, f ∈ extract_all_fields fields ->
                  column_lookup f d1 = Some (infer_objects (map (details_get f) det))).
  { intros f Hf. subst d1. rewrite (project_fields_lookup f _ _ det Hasc Hd0 Hf).
    unfold details_seen_by.
    assert (E : label_in "details" (extract_all_fields fields) = false)
      by now apply label_in_false.
    now rewrite E. }
  exists (mkDF (index_len df) d1).
  split; [eapply run_extract_details_fields; eassumption|].
  rewrite (run_extract_details_fields (put w r (mkDF (index_len df) d1)) r
             (mkDF (index_len df) d1) det raw fields
             (frames_put _ _ _) Hd1 Hn Hraw).
  cbn [index_len data].
  rewrite (column_assign_same _ _ _ Hr1).
  rewrite (project_fields_fixpoint _ d1 det Hd1 Hdet' Hf1).
  now rewrite put_put.
Qed.

Lemma flattener_idempotent_witness :
  frames scenario_world !! 1%nat = Some scenario_events /\
  exists df',
    extract_details_fields 1 (Some ["campaign"]) scenario_world
      = (Ok 1%nat, put scenario_world 1 df') /\
    extract_details_fields 1 (Some ["campaign"]) (put scenario_world 1 df')
      = (Ok 1%nat, put scenario_world 1 df').
Proof.
  split; [reflexivity|].
  apply (flattener_idempotent scenario_world 1 scenario_events
           [VDict [("page_url", VStr "/x")]; VNone] (Some ["campaign"]));
    [reflexivity | reflexivity | reflexivity | repeat constructor | |];
    simpl; intros H; apply elem_of_cons in H as [H|H];
    [discriminate | inversion H | discriminate | inversion H].
Defined.

(** ** The joiner: which rows are paired, and what the columns hold *)

Lemma elem_of_match_positions k rkeys : forall j0 j,
  j ∈ match_positions k rkeys j0 <->
  (j0 <= j)%nat /\ exists rk, rkeys !! (j - j0)%nat = Some rk /\ key_eqb k rk = true.
Proof.
  induction rkeys as [|rk rkeys IH]; intros j0 j; simpl.
  - split; [intros H; inversion H | intros (_ & rk & H & _); discriminate].
  - assert (Hrest :
      j ∈ match_positions k rkeys (S j0) <->
      (j0 < j)%nat /\ exists rk', (rk :: rkeys) !! (j - j0)%nat = Some rk' /\
                                   key_eqb k rk' = true).
    { rewrite IH. split.
      - intros (Hle & rk' & Hl & Hk). split; [lia|]. exists rk'. split; [|assumption].
        replace (j - j0)%nat with (S (j - S j0)) by lia. exact Hl.
      - intros (Hlt & rk' & Hl & Hk). split; [lia|]. exists rk'. split; [|assumption].
        replace (j - j0)%nat with (S (j - S j0)) in Hl by lia. exact Hl. }
    assert (Hhead : key_eqb k rk = true ->
      (j = j0 <-> (j0 <= j)%nat /\ ~ (j0 < j)%nat)) by (intros _; lia).
    destruct (key_eqb k rk) eqn:E.
    + rewrite elem_of_cons, Hrest. split.
      * intros [->|(Hlt & H)]; [|split; [lia | exact H]].
        split; [lia|]. exists rk. rewrite Nat.sub_diag. auto.
      * intros (Hle & rk' & Hl & Hk).
        destruct (Nat.eq_dec j j0) as [->|Hne]; [now left|].
        right. split; [lia|]. eauto.
    + rewrite Hrest. split.
      * intros (Hlt & H). split; [lia | exact H].
      * intros (Hle & rk' & Hl & Hk).
        destruct (Nat.eq_dec j j0) as [->|Hne].
        -- rewrite Nat.sub_diag in Hl. simpl in Hl. inversion Hl; subst. congruence.
        -- split; [lia|]. eauto.
Qed.

Lemma NoDup_match_positions k rkeys : forall j0, NoDup (match_positions k rkeys j0).
Proof.
  induction rkeys as [|rk rkeys IH]; intros j0; simpl; [constructor|].
  destruct (key_eqb k rk); [|apply IH].
  constructor; [|apply IH].
  rewrite elem_of_match_positions. lia.
Qed.

Lemma match_positions_nil_count k rkeys j0 :
  match_positions k rkeys j0 = [] <-> match_count k rkeys = 0%nat.
Proof.
  rewrite <- (length_match_positions k rkeys j0).
  destruct (match_positions k rkeys j0); simpl; split; congruence.
Qed.

Lemma elem_of_map {A B} (f : A -> B) (l : list A) y :
  y ∈ map f l <-> exists x, y = f x /\ x ∈ l.
Proof.
  rewrite list_elem_of_In, in_map_iff. split.
  - intros (x & <- & Hx). exists x. split; [reflexivity | now apply list_elem_of_In].
  - intros (x & -> & Hx). exists x. split; [reflexivity | now apply list_elem_of_In].
Qed.

(** The pairs of one event row: one per matching position, or the single
    pair without a profile row. *)
Lemma elem_of_row_pairs (i0 : nat) (js : list nat) p :
  p ∈ match js with
      | [] => [(i0, None)]
      | n :: l => map (fun j => (i0, Some j)) (n :: l)
      end <->
  (js = [] /\ p = (i0, None)) \/ (exists j, j ∈ js /\ p = (i0, Some j)).
Proof.
  destruct js as [|j js].
  - rewrite list_elem_of_singleton. split.
    + intros ->. now left.
    + intros [[_ ->]|(j & Hj & _)]; [reflexivity | inversion Hj].
  - rewrite elem_of_map. split.
    + intros (x & -> & Hx). right. eauto.
    + intros [[H _]|(x & Hx & ->)]; [discriminate | eauto].
Qed.

Lemma left_indexer_fst_ge lkeys rkeys : forall i0 p,
  p ∈ left_indexer lkeys rkeys i0 -> (i0 <= fst p)%nat.
Proof.
  induction lkeys as [|k lkeys IH]; intros i0 p Hp; cbn [left_indexer] in Hp;
    [inversion Hp|].
  apply elem_of_app in Hp as [Hp|Hp].
  - apply elem_of_row_pairs in Hp as [[_ ->]|(j & _ & ->)]; simpl; lia.
  - specialize (IH _ _ Hp). lia.
Qed.

Lemma elem_of_left_indexer_some lkeys rkeys : forall i0 i j,
  (i, Some j) ∈ left_indexer lkeys rkeys i0 <->
  (i0 <= i)%nat /\
  exists k rk, lkeys !! (i - i0)%nat = Some k /\ rkeys !! j = Some rk /\
               key_eqb k rk = true.
Proof.
  induction lkeys as [|k lkeys IH]; intros i0 i j; cbn [left_indexer].
  - split; [intros H; inversion H | intros (_ & k & rk & H & _); discriminate].
  - rewrite elem_of_app, IH.
    assert (Hhead :
      (i, Some j) ∈ match match_positions k rkeys 0 with
                    | [] => [(i0, None)]
                    | js => map (fun j => (i0, Some j)) js
                    end <->
      i = i0 /\ exists rk, rkeys !! j = Some rk /\ key_eqb k rk = true).
    { pose proof (elem_of_match_positions k rkeys 0 j) as Hm.
      rewrite Nat.sub_0_r in Hm. rewrite elem_of_row_pairs. split.
      - intros [[_ H]|(j' & Hj & H)]; [discriminate|].
        inversion H; subst. split; [reflexivity|]. now apply Hm.
      - intros (-> & H). right. exists j. split; [|reflexivity].
        apply Hm. split; [lia | exact H]. }
    rewrite Hhead. split.
    + intros [(-> & rk & Hr & Hk)|(Hle & k' & rk & Hl & Hr & Hk)].
      * split; [lia|]. exists k, rk. rewrite Nat.sub_diag. auto.
      * split; [lia|]. exists k', rk.
        replace (i - i0)%nat with (S (i - S i0)) by lia. auto.
    + intros (Hle & k' & rk & Hl & Hr & Hk).
      destruct (Nat.eq_dec i i0) as [->|Hne].
      * left. split; [reflexivity|]. rewrite Nat.sub_diag in Hl. simpl in Hl.
        inversion Hl; subst. eauto.
      * right. split; [lia|]. exists k', rk.
        replace (i - i0)%nat with (S (i - S i0)) in Hl by lia. auto.
Qed.

Lemma elem_of_left_indexer_none lkeys rkeys : forall i0 i,
  (i, None) ∈ left_indexer lkeys rkeys i0 <->
  (i0 <= i)%nat /\
  exists k, lkeys !! (i - i0)%nat = Some k /\ match_count k rkeys = 0%nat.
Proof.
  induction lkeys as [|k lkeys IH]; intros i0 i; cbn [left_indexer].
  - split; [intros H; inversion H | intros (_ & k & H & _); discriminate].
  - rewrite elem_of_app, IH.
    assert (Hhead :
      (i, None) ∈ match match_positions k rkeys 0 with
                  | [] => [(i0, None)]
                  | js => map (fun j => (i0, Some j)) js
                  end <->
      i = i0 /\ match_count k rkeys = 0%nat).
    { rewrite <- (match_positions_nil_count k rkeys 0), elem_of_row_pairs. split.
      - intros [[E H]|(j' & _ & H)]; [|discriminate].
        inversion H; subst. auto.
      - intros (-> & E). left. auto. }
    rewrite Hhead. split.
    + intros [(-> & Hc)|(Hle & k' & Hl & Hc)].
      * split; [lia|]. exists k. rewrite Nat.sub_diag. auto.
      * split; [lia|]. exists k'.
        replace (i - i0)%nat with (S (i - S i0)) by lia. auto.
    + intros (Hle & k' & Hl & Hc).
      destruct (Nat.eq_dec i i0) as [->|Hne].
      * left. split; [reflexivity|]. rewrite Nat.sub_diag in Hl. simpl in Hl.
        now inversion Hl; subst.
      * right. split; [lia|]. exists k'.
        replace (i - i0)%nat with (S (i - S i0)) in Hl by lia. auto.
Qed.

Lemma NoDup_left_indexer lkeys rkeys : forall i0, NoDup (left_indexer lkeys rkeys i0).
Proof.
  induction lkeys as [|k lkeys IH]; intros i0; cbn [left_indexer]; [constructor|].
  apply NoDup_app. split; [|split; [|apply IH]].
  - pose proof (NoDup_match_positions k rkeys 0) as Hnd.
    destruct (match_positions k rkeys 0) as [|j js] eqn:E.
    + apply NoDup_singleton.
    + rewrite <- E in *. clear E. induction Hnd as [|x l Hx Hnd IHn]; [constructor|].
      cbn [map]. constructor; [|exact IHn].
      rewrite elem_of_map. intros (y & Hy & Hin). inversion Hy; subst. contradiction.
  - intros p Hp Hq. apply left_indexer_fst_ge in Hq.
    assert (fst p = i0); [|lia].
    apply elem_of_row_pairs in Hp as [[_ ->]|(j & _ & ->)]; reflexivity.
Qed.

Lemma column_lookup_filter_ne c key d :
  c <> key ->
  column_lookup c (List.filter (fun cd => negb (String.eqb (fst cd) key)) d) =
  column_lookup c d.
Proof.
  intros Hne. induction d as [|[k cells] d IH]; simpl; [reflexivity|].
  destruct (String.eqb_spec k key) as [->|Hk]; simpl.
  - destruct (String.eqb_spec key c); [congruence | exact IH].
  - now rewrite IH.
Qed.

Lemma labels_filter_subset key (d : list (string * list value)) l :
  l ∈ map fst (List.filter (fun cd => negb (String.eqb (fst cd) key)) d) ->
  l ∈ map fst d.
Proof.
  rewrite !elem_of_map. intros (cd & -> & Hcd). exists cd. split; [reflexivity|].
  apply list_elem_of_In in Hcd. apply filter_In in Hcd as [Hcd _].
  now apply list_elem_of_In.
Qed.

Lemma match_count_zero k pkeys :
  match_count k pkeys = 0%nat <-> forall pk, pk ∈ pkeys -> key_eqb k pk = false.
Proof.
  unfold match_count. induction pkeys as [|pk pkeys IH]; simpl.
  - split; [intros _ x Hx; inversion Hx | reflexivity].
  - destruct (key_eqb k pk) eqn:E; simpl.
    + split; [discriminate|]. intros H.
      specialize (H pk (list_elem_of_here _ _)). congruence.
    + rewrite IH. split.
      * intros H x Hx. apply elem_of_cons in Hx as [->|Hx]; auto.
      * intros H x Hx. apply H. now right.
Qed.

Lemma take_right_stored cells ix :
  Forall2 (fun pr y => match snd pr with
                       | Some j => stored_as (nth j cells NA) y
                       | None => is_null y = true
                       end) ix (take_right cells ix).
Proof.
  unfold take_right.
  apply (Forall2_map_self
           (fun pr y => match snd pr with
                        | Some j => stored_as (nth j cells NA) y
                        | None => is_null y = true
                        end)).
  intros [i [j|]]; cbn [snd].
  - destruct (all_matched ix); [now left|].
    destruct (column_dtype cells); try (now left); apply to_float64_stored.
  - now destruct (column_dtype cells).
Qed.

Lemma merge_left_columns ef pf key ekeys pkeys :
  column_lookup key (data ef) = Some ekeys ->
  column_lookup key (data pf) = Some pkeys ->
  same_kind_keys ekeys pkeys ->
  no_suffix_clash ef pf key ->
  exists d,
    merge_left ef pf key = Ok (mkDF (length (left_indexer ekeys pkeys 0)) d) /\
    (forall c cells,
       column_lookup c (data ef) = Some cells ->
       c = key \/ c ∉ columns pf ->
       (forall l, l +:+ "_x" <> c) ->
       column_lookup c d = Some (take_left cells (left_indexer ekeys pkeys 0))) /\
    (forall c cells,
       column_lookup c (data pf) = Some cells ->
       c <> key -> c ∉ columns ef ->
       (forall l, l +:+ "_x" <> c) -> (forall l, l +:+ "_y" <> c) ->
       column_lookup c d = Some (take_right cells (left_indexer ekeys pkeys 0))).
Proof.
  intros He Hp Hk Hs.
  rewrite (merge_left_ok ef pf key ekeys pkeys ekeys pkeys He Hp
             (coerce_merge_keys_same_kind _ _ _ Hk) Hs).
  set (ix := left_indexer ekeys pkeys 0).
  set (rdata := List.filter (fun cd => negb (String.eqb (fst cd) key)) (data pf)).
  eexists. split; [reflexivity|]. split.
  - intros c cells Hc Hcase Hx. rewrite column_lookup_app.
    rewrite (column_lookup_rename (left_label (map fst rdata))
               (fun cells => take_left cells ix) c (data ef)).
    + now rewrite Hc.
    + intros l _. unfold left_label.
      destruct (label_in l (map fst rdata)) eqn:E; [|reflexivity].
      destruct (String.eqb_spec l c) as [->|Hne].
      * exfalso. apply label_in_spec in E. subst rdata.
        apply elem_of_filter_labels in E as [Hin Hkey].
        destruct Hcase as [->|Hnot]; [now apply Hkey | now apply Hnot].
      * apply String.eqb_neq. apply Hx.
  - intros c cells Hc Hkey Hnot Hx Hy. rewrite column_lookup_app.
    rewrite (column_lookup_rename (left_label (map fst rdata))
               (fun cells => take_left cells ix) c (data ef)).
    + assert (Hnone : column_lookup c (data ef) = None)
        by now apply column_lookup_None_label.
      rewrite Hnone. cbn [option_map].
      rewrite (column_lookup_rename (right_label (columns ef))
                 (fun cells => take_right cells ix) c rdata).
      * subst rdata. rewrite column_lookup_filter_ne by assumption. now rewrite Hc.
      * intros l _. unfold right_label.
        destruct (label_in l (columns ef)) eqn:E; [|reflexivity].
        destruct (String.eqb_spec l c) as [->|Hne].
        -- exfalso. apply Hnot. now apply label_in_spec.
        -- apply String.eqb_neq. apply Hy.
    + intros l Hl. unfold left_label.
      destruct (label_in l (map fst rdata)) eqn:E; [|reflexivity].
      destruct (String.eqb_spec l c) as [->|Hne]; [contradiction|].
      apply String.eqb_neq. apply Hx.
Qed.

(** The rows of the join are exactly the matching pairs.  With key columns
    of one kind and no clash of suffixed labels, the joined frame has one
    row per pair of the row indexer; the pairs are distinct; an event row
    is paired with a profile row exactly when their [user_id] keys are
    equal, and stands alone exactly when it equals no profile key. *)
Theorem join_pairs_exactly_matching_rows w p e pf ef pkeys ekeys :
  frames w !! p = Some pf ->
  frames w !! e = Some ef ->
  column_lookup "user_id" (data pf) = Some pkeys ->
  column_lookup "user_id" (data ef) = Some ekeys ->
  same_kind_keys ekeys pkeys ->
  no_suffix_clash ef pf "user_id" ->
  exists r out,
    join_data p e w = (Ok r, put w r out) /\
    index_len out = length (left_indexer ekeys pkeys 0) /\
    NoDup (left_indexer ekeys pkeys 0) /\
    (forall i j,
       (i, Some j) ∈ left_indexer ekeys pkeys 0 <->
       exists k, ekeys !! i = Some k /\ pkeys !! j = Some k) /\
    (forall i,
       (i, None) ∈ left_indexer ekeys pkeys 0 <->
       exists k, ekeys !! i = Some k /\ k ∉ pkeys).
Proof.
  intros Hp He Hpk Hek Hk Hs.
  destruct (merge_left_columns ef pf "user_id" ekeys pkeys Hek Hpk Hk Hs)
    as (d & Hm & _ & _).
  eexists _, _. split; [eapply run_join_data; eassumption|].
  cbn [index_len data]. split; [reflexivity|].
  split; [apply NoDup_left_indexer|]. split.
  - intros i j. rewrite elem_of_left_indexer_some, Nat.sub_0_r. split.
    + intros [_ (k & pk & Hi & Hj & E)]. exists k. split; [exact Hi|].
      apply (key_eqb_same_kind ekeys pkeys) in E;
        [now subst | exact Hk | eapply list_elem_of_lookup_2; eassumption
        | eapply list_elem_of_lookup_2; eassumption].
    + intros (k & Hi & Hj). split; [lia|]. exists k, k.
      split; [exact Hi|]. split; [exact Hj|].
      apply (key_eqb_same_kind ekeys pkeys);
        [exact Hk | eapply list_elem_of_lookup_2; eassumption
        | eapply list_elem_of_lookup_2; eassumption | reflexivity].
  - intros i. rewrite elem_of_left_indexer_none, Nat.sub_0_r. split.
    + intros [_ (k & Hi & Hc)]. exists k. split; [exact Hi|].
      intros Hin. rewrite match_count_zero in Hc. specialize (Hc k Hin).
      assert (key_eqb k k = true); [|congruence].
      apply (key_eqb_same_kind ekeys pkeys);
        [exact Hk | eapply list_elem_of_lookup_2; eassumption
        | exact Hin | reflexivity].
    + intros (k & Hi & Hnot). split; [lia|]. exists k. split; [exact Hi|].
      apply match_count_zero. intros pk Hin.
      destruct (key_eqb k pk) eqn:Heq; [|reflexivity]. exfalso.
      apply (key_eqb_same_kind ekeys pkeys) in Heq;
        [subst; now apply Hnot | exact Hk
        | eapply list_elem_of_lookup_2; eassumption | exact Hin].
Qed.

Lemma join_pairs_exactly_matching_rows_witness :
  frames scenario_world !! 0%nat = Some scenario_profiles /\
  frames scenario_world !! 1%nat = Some scenario_events /\
  exists r out,
    join_data 0 1 scenario_world = (Ok r, put scenario_world r out) /\
    index_len out = length (left_indexer [VInt 1; VInt 3] [VInt 1; VInt 2] 0) /\
    NoDup (left_indexer [VInt 1; VInt 3] [VInt 1; VInt 2] 0) /\
    (forall i j,
       (i, Some j) ∈ left_indexer [VInt 1; VInt 3] [VInt 1; VInt 2] 0 <->
       exists k, [VInt 1; VInt 3] !! i = Some k /\
                 [VInt 1; VInt 2] !! j = Some k) /\
    (forall i,
       (i, None) ∈ left_indexer [VInt 1; VInt 3] [VInt 1; VInt 2] 0 <->
       exists k, [VInt 1; VInt 3] !! i = Some k /\ k ∉ [VInt 1; VInt 2]).
Proof.
  split; [reflexivity|]. split; [reflexivity|].
  apply (join_pairs_exactly_matching_rows scenario_world 0 1
           scenario_profiles scenario_events [VInt 1; VInt 2] [VInt 1; VInt 3]);
    try reflexivity.
  - left. split; repeat constructor; eexists; split; reflexivity.
  - split; reflexivity.
Defined.

Lemma has_suffix_append l suffix : has_suffix suffix (l +:+ suffix) = true.
Proof.
  induction l as [|a l IH].
  - rewrite append_nil. destruct suffix; cbn [has_suffix];
      now rewrite String.eqb_refl.
  - rewrite append_cons. cbn [has_suffix]. rewrite IH. apply orb_true_r.
Qed.

Lemma no_suffix_ne suffix c :
  has_suffix suffix c = false -> forall l, l +:+ suffix <> c.
Proof.
  intros H l <-. now rewrite has_suffix_append in H.
Qed.

(** What the profile columns of the join hold.  With key columns of one
    kind and no clash of suffixed labels, a profile column whose label is
    not an event label keeps its label; on a row with a match it holds the
    cell of the matched profile row, as that cell or -- an integer in a
    column that gets a missing cell -- as its float; on a row without a
    match it holds a missing cell.  (Labels that end in [_x] or [_y] are
    set aside: a renamed clashing column could take their place.) *)
Theorem join_profile_columns w p e pf ef pkeys ekeys :
  frames w !! p = Some pf ->
  frames w !! e = Some ef ->
  column_lookup "user_id" (data pf) = Some pkeys ->
  column_lookup "user_id" (data ef) = Some ekeys ->
  same_kind_keys ekeys pkeys ->
  no_suffix_clash ef pf "user_id" ->
  exists r out,
    join_data p e w = (Ok r, put w r out) /\
    (forall c cells,
       column_lookup c (data pf) = Some cells ->
       c <> "user_id" -> c ∉ columns ef ->
       has_suffix "_x" c = false -> has_suffix "_y" c = false ->
       exists col,
         column_lookup c (data out) = Some col /\
         col = take_right cells (left_indexer ekeys pkeys 0) /\
         Forall2 (fun pr y => match snd pr with
                              | Some j => stored_as (nth j cells NA) y
                              | None => is_null y = true
                              end) (left_indexer ekeys pkeys 0) col /\
         (all_matched (left_indexer ekeys pkeys 0) = true ->
          col = map (fun pr => match snd pr with
                               | Some j => nth j cells NA
                               | None => NA
                               end) (left_indexer ekeys pkeys 0))).
Proof.
  intros Hp He Hpk Hek Hk Hs.
  destruct (merge_left_columns ef pf "user_id" ekeys pkeys Hek Hpk Hk Hs)
    as (d & Hm & _ & Hpr).
  eexists _, _. split; [eapply run_join_data; eassumption|].
  cbn [data]. intros c cells Hc Hkey Hnot Hx Hy.
  eexists. split; [|split; [reflexivity|split]].
  - apply (Hpr c cells Hc Hkey Hnot); now apply no_suffix_ne.
  - apply take_right_stored.
  - intros Hall. unfold take_right. rewrite Hall.
    apply map_ext_in. intros [i [j|]] Hin; cbn [snd]; [reflexivity|].
    exfalso. unfold all_matched in Hall.
    rewrite forallb_forall in Hall. now specialize (Hall _ Hin).
Qed.

Lemma join_profile_columns_witness :
  frames scenario_world !! 0%nat = Some scenario_profiles /\
  frames scenario_world !! 1%nat = Some scenario_events /\
  exists r out,
    join_data 0 1 scenario_world = (Ok r, put scenario_world r out) /\
    (forall c cells,
       column_lookup c (data scenario_profiles) = Some cells ->
       c <> "user_id" -> c ∉ columns scenario_events ->
       has_suffix "_x" c = false -> has_suffix "_y" c = false ->
       exists col,
         column_lookup c (data out) = Some col /\
         col = take_right cells (left_indexer [VInt 1; VInt 3] [VInt 1; VInt 2] 0) /\
         Forall2 (fun pr y => match snd pr with
                              | Some j => stored_as (nth j cells NA) y
                              | None => is_null y = true
                              end)
           (left_indexer [VInt 1; VInt 3] [VInt 1; VInt 2] 0) col /\
         (all_matched (left_indexer [VInt 1; VInt 3] [VInt 1; VInt 2] 0) = true ->
          col = map (fun pr => match snd pr with
                               | Some j => nth j cells NA
                               | None => NA
                               end)
                  (left_indexer [VInt 1; VInt 3] [VInt 1; VInt 2] 0))).
Proof.
  split; [reflexivity|]. split; [reflexivity|].
  apply (join_profile_columns scenario_world 0 1
           scenario_profiles scenario_events [VInt 1; VInt 2] [VInt 1; VInt 3]);
    try reflexivity.
  - left. split; repeat constructor; eexists; split; reflexivity.
  - split; reflexivity.
Defined.

(** Without a [user_id] column in the events, or in the profiles, the join
    raises [KeyError] and creates no frame. *)
Theorem join_fails_without_key w p e pf ef :
  frames w !! p = Some pf ->
  frames w !! e = Some ef ->
  column_lookup "user_id" (data ef) = None \/
  column_lookup "user_id" (data pf) = None ->
  join_data p e w = (Raise (KeyError "user_id"), w).
Proof.
  intros Hp He Hcase.
  unfold join_data, df_merge_left, bind, deref, lift, merge_left, frame_getitem.
  rewrite He, Hp.
  destruct (column_lookup "user_id" (data ef)) as [ekeys|]; [|reflexivity].
  destruct Hcase as [Hcase| ->]; [discriminate | reflexivity].
Qed.

Lemma join_fails_without_key_witness :
  frames keyless_world !! 0%nat = Some scenario_profiles /\
  frames keyless_world !! 1%nat = Some keyless_events /\
  join_data 0 1 keyless_world = (Raise (KeyError "user_id"), keyless_world).
Proof.
  split; [reflexivity|]. split; [reflexivity|].
  apply (join_fails_without_key keyless_world 0 1 scenario_profiles keyless_events);
    [reflexivity | reflexivity | left; reflexivity].
Defined.

Lemma string_like_str_keys keys : str_keys keys -> string_like keys = true.
Proof.
  intros H. unfold string_like, str_keys in *.
  assert (E : existsb is_int_cell keys = false /\
              existsb is_date_cell keys = false /\
              existsb is_timestamp_cell keys = false).
  { induction H as [|k keys [x ->] _ IH]; [now repeat split | exact IH]. }
  destruct E as (E1 & E2 & E3). rewrite E1, E2, E3. now rewrite !andb_false_r.
Qed.

(** Integer keys do not join text keys.  When one of the two [user_id]
    columns holds 64-bit integers and the other strings, and neither is
    empty, the join raises [ValueError] and creates no frame. *)
Theorem join_refuses_number_and_text_keys w p e pf ef pkeys ekeys :
  frames w !! p = Some pf ->
  frames w !! e = Some ef ->
  column_lookup "user_id" (data pf) = Some pkeys ->
  column_lookup "user_id" (data ef) = Some ekeys ->
  ekeys <> [] -> pkeys <> [] ->
  (int_keys ekeys /\ str_keys pkeys) \/ (str_keys ekeys /\ int_keys pkeys) ->
  exists msg, join_data p e w = (Raise (ValueError msg), w).
Proof.
  intros Hp He Hpk Hek Hne Hnp Hkinds.
  assert (Hc : exists msg,
            coerce_merge_keys "user_id" ekeys pkeys = Raise (ValueError msg)).
  { unfold coerce_merge_keys.
    destruct ekeys as [|k ekeys]; [congruence|].
    destruct pkeys as [|k' pkeys]; [congruence|].
    destruct Hkinds as [[Hi Hs]|[Hs Hi]].
    - rewrite (column_dtype_int_keys _ _ Hi), (column_dtype_str_keys _ _ Hs).
      rewrite (string_like_str_keys _ Hs). unfold merge_error. eauto.
    - rewrite (column_dtype_int_keys _ _ Hi), (column_dtype_str_keys _ _ Hs).
      rewrite (string_like_str_keys _ Hs). unfold merge_error. eauto. }
  destruct Hc as [msg Hc]. exists msg.
  unfold join_data, df_merge_left, bind, deref, lift, merge_left, frame_getitem.
  rewrite He, Hp, Hek, Hpk. cbn [rbind]. now rewrite Hc.
Qed.

Lemma join_refuses_number_and_text_keys_witness :
  frames text_key_world !! 0%nat = Some text_key_profiles /\
  frames text_key_world !! 1%nat = Some scenario_events /\
  exists msg, join_data 0 1 text_key_world = (Raise (ValueError msg), text_key_world).
Proof.
  split; [reflexivity|]. split; [reflexivity|].
  apply (join_refuses_number_and_text_keys text_key_world 0 1
           text_key_profiles scenario_events [VStr "1"; VStr "2"] [VInt 1; VInt 3]);
    try reflexivity; try discriminate.
  left. split; repeat constructor; eexists; try split; reflexivity.
Defined.

(** ** The identity assigner: what else it does to the frame *)

(** The identity assigner never raises on a frame; it keeps the row count
    and every other column, puts [event_id] in the place of an existing
    [event_id] column or else at the right end, and takes exactly one
    answer from the entropy source per row. *)
Theorem identity_assigner_keeps_other_columns w r df :
  frames w !! r = Some df ->
  exists df' w',
    generate_event_id r w = (Ok r, w') /\
    frames w' !! r = Some df' /\
    drawn w' = (drawn w + index_len df)%nat /\
    index_len df' = index_len df /\
    columns df' =
      (if label_in "event_id" (columns df) then columns df
       else columns df ++ ["event_id"]) /\
    (forall c, c <> "event_id" ->
       column_lookup c (data df') = column_lookup c (data df)).
Proof.
  intros Hr. eexists _, _.
  split; [apply run_generate_event_id; exact Hr|].
  split; [apply frames_put|]. split; [reflexivity|]. split; [reflexivity|].
  split.
  - rewrite columns_mk. apply labels_assign.
  - intros c Hc. cbn [data]. apply column_lookup_assign_ne. congruence.
Qed.

Lemma identity_assigner_keeps_other_columns_witness :
  frames scenario_world !! 1%nat = Some scenario_events /\
  exists df' w',
    generate_event_id 1 scenario_world = (Ok 1%nat, w') /\
    frames w' !! 1%nat = Some df' /\
    drawn w' = (drawn scenario_world + index_len scenario_events)%nat /\
    index_len df' = index_len scenario_events /\
    columns df' =
      (if label_in "event_id" (columns scenario_events) then columns scenario_events
       else columns scenario_events ++ ["event_id"]) /\
    (forall c, c <> "event_id" ->
       column_lookup c (data df') = column_lookup c (data scenario_events)).
Proof.
  split; [reflexivity|].
  apply (identity_assigner_keeps_other_columns scenario_world 1 scenario_events).
  reflexivity.
Defined.

(** Every identifier [uuid4] makes is a 128-bit integer that reports
    version 4 and carries the variant bits of RFC 4122, whatever the
    entropy source answers. *)
Theorem uuid4_is_version_4 w :
  exists u w',
    uuid4 w = (Ok u, w') /\
    frames w' = frames w /\
    0 <= u < 2 ^ 128 /\
    uuid_version u = 4 /\
    uuid_variant_bits u = 2.
Proof.
  eexists _, _. split; [apply run_uuid4|]. split; [reflexivity|].
  split; [apply uuid_v4_range|].
  rewrite uuid_v4_bits. unfold uuid_version, uuid_variant_bits.
  rewrite !Z.shiftr_lor, !Z.shiftr_land, !Z.land_lor_distr_l, <- !Z.land_assoc.
  replace (Z.land (Z.shiftr uuid_random_bits 76) 15) with 0 by reflexivity.
  replace (Z.land (Z.shiftr uuid_fixed_bits 76) 15) with 4 by reflexivity.
  replace (Z.land (Z.shiftr uuid_random_bits 62) 3) with 0 by reflexivity.
  replace (Z.land (Z.shiftr uuid_fixed_bits 62) 3) with 2 by reflexivity.
  rewrite !Z.land_0_r. split; reflexivity.
Qed.

Lemma string_of_uint_hex d :
  Forall (fun c => is_lower_hex c = true)
    (list_ascii_of_string (HexadecimalString.NilEmpty.string_of_uint d)).
Proof. induction d; simpl; constructor; auto. Qed.

Lemma hex32_chars_hex i :
  Forall (fun c => is_lower_hex c = true) (list_ascii_of_string (hex32 i)).
Proof. rewrite hex32_numeral. apply string_of_uint_hex. Qed.

(** The text of an identifier has the shape 8-4-4-4-12: five groups of
    lower-case hexadecimal digits of these lengths, with a dash between
    two groups: 36 characters. *)
Theorem event_id_text_shape b :
  exists g1 g2 g3 g4 g5,
    list_ascii_of_string (uuid_str (uuid_v4_of_int (b mod 2 ^ 128))) =
      g1 ++ "-"%char :: g2 ++ "-"%char :: g3 ++ "-"%char :: g4 ++ "-"%char :: g5 /\
    length g1 = 8%nat /\ length g2 = 4%nat /\ length g3 = 4%nat /\
    length g4 = 4%nat /\ length g5 = 12%nat /\
    Forall (fun c => is_lower_hex c = true) (g1 ++ g2 ++ g3 ++ g4 ++ g5).
Proof.
  pose proof (length_hex32 _ (uuid_v4_range b)) as Hl.
  pose proof (hex32_chars_hex (uuid_v4_of_int (b mod 2 ^ 128))) as Hh.
  rewrite <- length_list_ascii in Hl.
  rewrite uuid_str_chars. unfold uuid_chars.
  set (l := list_ascii_of_string (hex32 (uuid_v4_of_int (b mod 2 ^ 128)))) in *.
  exists (take 8 l), (take 4 (drop 8 l)), (take 4 (drop 12 l)),
    (take 4 (drop 16 l)), (take 12 (drop 20 l)).
  split; [reflexivity|].
  rewrite !length_take, !length_drop, Hl.
  repeat (split; [lia|]).
  repeat (apply Forall_app; split);
    try apply Forall_take; try apply Forall_drop; exact Hh.
Qed.

Lemma event_ids_of_two_calls w n1 n2 :
  map (event_id_of_draw w) (seq (drawn w) n1) ++
  map (event_id_of_draw w) (seq (drawn w + n1) n2) =
  map (event_id_of_draw w) (seq (drawn w) (n1 + n2)).
Proof. now rewrite seq_app, map_app. Qed.

(** Two calls in a row, on two different frames, never give the same
    identifier twice, across both frames, as long as the answers of the
    entropy source differ pairwise in the random bits: the second call
    goes on where the first stopped. *)
Theorem identity_assigner_successive_calls w r1 r2 df1 df2 :
  frames w !! r1 = Some df1 ->
  frames w !! r2 = Some df2 ->
  r1 <> r2 ->
  (forall i j, (i < j < index_len df1 + index_len df2)%nat ->
     Z.land (entropy w (drawn w + i)) uuid_random_bits <>
     Z.land (entropy w (drawn w + j)) uuid_random_bits) ->
  exists w1 w2 out1 out2 ids1 ids2,
    generate_event_id r1 w = (Ok r1, w1) /\
    generate_event_id r2 w1 = (Ok r2, w2) /\
    frames w2 !! r1 = Some out1 /\
    frames w2 !! r2 = Some out2 /\
    column_lookup "event_id" (data out1) = Some ids1 /\
    column_lookup "event_id" (data out2) = Some ids2 /\
    NoDup (ids1 ++ ids2).
Proof.
  intros H1 H2 Hne Hdraws.
  pose proof (run_generate_event_id w r1 df1 H1) as E1.
  set (w1 := put (advance w (index_len df1)) r1
               (mkDF (index_len df1)
                  (column_assign "event_id"
                     (map (event_id_of_draw w) (seq (drawn w) (index_len df1)))
                     (data df1)))) in *.
  assert (H2' : frames w1 !! r2 = Some df2).
  { subst w1. rewrite frames_put_ne by assumption. exact H2. }
  pose proof (run_generate_event_id w1 r2 df2 H2') as E2.
  eexists w1, _, _, _, _, _.
  split; [exact E1|]. split; [exact E2|].
  split; [rewrite frames_put_ne by congruence; apply frames_put|].
  split; [apply frames_put|].
  split; [apply column_lookup_assign_eq|].
  split; [apply column_lookup_assign_eq|].
  change (drawn w1) with (drawn w + index_len df1)%nat.
  change (event_id_of_draw w1) with (event_id_of_draw w).
  rewrite event_ids_of_two_calls. now apply NoDup_event_ids.
Qed.

Lemma identity_assigner_successive_calls_witness :
  frames scenario_world !! 0%nat = Some scenario_profiles /\
  frames scenario_world !! 1%nat = Some scenario_events /\
  exists w1 w2 out1 out2 ids1 ids2,
    generate_event_id 0 scenario_world = (Ok 0%nat, w1) /\
    generate_event_id 1 w1 = (Ok 1%nat, w2) /\
    frames w2 !! 0%nat = Some out1 /\
    frames w2 !! 1%nat = Some out2 /\
    column_lookup "event_id" (data out1) = Some ids1 /\
    column_lookup "event_id" (data out2) = Some ids2 /\
    NoDup (ids1 ++ ids2).
Proof.
  split; [reflexivity|]. split; [reflexivity|].
  apply (identity_assigner_successive_calls scenario_world 0 1
           scenario_profiles scenario_events);
    [reflexivity | reflexivity | discriminate |].
  intros i j Hij. simpl in Hij.
  assert (Hi : (i = 0 \/ i = 1 \/ i = 2)%nat) by lia.
  assert (Hj : (j = 1 \/ j = 2 \/ j = 3)%nat) by lia.
  destruct Hi as [->|[->| ->]], Hj as [->|[->| ->]]; try lia;
    vm_compute; discriminate.
Defined.

(** ** The column projector: repeated labels, repeated runs *)

Lemma filter_label_none f (l : list string) :
  f ∉ l -> List.filter (String.eqb f) l = [].
Proof.
  induction l as [|y l IH]; intros H; [reflexivity|].
  apply not_elem_of_cons in H as [Hne H]. cbn [List.filter].
  destruct (String.eqb_spec f y); [congruence | now apply IH].
Qed.

Lemma count_label_NoDup f (l : list string) :
  NoDup l -> f ∈ l -> length (List.filter (String.eqb f) l) = 1%nat.
Proof.
  induction 1 as [|x l Hx Hl IH]; intros Hf; [inversion Hf|].
  cbn [List.filter]. destruct (String.eqb_spec f x) as [->|Hne].
  - now rewrite filter_label_none.
  - apply IH. apply elem_of_cons in Hf as [?|?]; [congruence | assumption].
Qed.

Lemma count_label_filter (p : string -> bool) f l :
  p f = true ->
  List.filter (String.eqb f) (List.filter p l) = List.filter (String.eqb f) l.
Proof.
  intros Hp. induction l as [|x l IH]; [reflexivity|].
  cbn [List.filter]. destruct (p x) eqn:E.
  - cbn [List.filter]. now rewrite IH.
  - destruct (String.eqb_spec f x) as [->|Hne]; [congruence | exact IH].
Qed.

Lemma NoDup_select_base_columns : NoDup select_base_columns.
Proof.
  unfold select_base_columns.
  repeat (constructor;
          [intros H; repeat (apply elem_of_cons in H as [H|H]; [discriminate|]);
           inversion H|]).
  constructor.
Qed.

(** When the caller requests, as a detail field, a name of the base schema
    that is a column of the frame ([user_id], say), the projection returns
    that column twice: once in its base position and once among the detail
    fields. *)
Theorem projector_repeats_requested_base_column w r df extra f :
  frames w !! r = Some df ->
  NoDup (columns df) ->
  f ∈ or_empty extra ->
  f ∈ select_base_columns ->
  f ∈ columns df ->
  exists r' out,
    select_final_columns r extra w = (Ok r', put w r' out) /\
    length (List.filter (String.eqb f) (columns out)) = 2%nat /\
    ~ NoDup (columns out).
Proof.
  intros Hr Hn Hreq Hbase Hcol. eexists _, _.
  split; [exact (run_select_final_columns w r df extra Hr)|].
  destruct (select_present_labels (data df)
              (List.filter (fun c => label_in c (columns df))
                 (select_final_column_list extra)) Hn) as [H1 _].
  { apply Forall_forall. intros l Hl.
    apply list_elem_of_In, filter_In in Hl as [_ Hl]. now apply label_in_spec. }
  rewrite columns_mk. cbn [data]. rewrite H1.
  assert (Hcount :
    length (List.filter (String.eqb f)
              (List.filter (fun c => label_in c (columns df))
                 (select_final_column_list extra))) = 2%nat).
  { rewrite count_label_filter by now apply label_in_spec.
    unfold select_final_column_list. rewrite List.filter_app, length_app.
    rewrite (count_label_NoDup f select_base_columns
               NoDup_select_base_columns Hbase).
    rewrite (count_label_NoDup f (select_all_fields extra)); [reflexivity| |].
    - apply strictly_ascending_NoDup, sorted_py_set_effective.
    - apply sorted_py_set_effective. now right. }
  split; [exact Hcount|].
  intros Hnd.
  assert (Hin : f ∈ List.filter (fun c => label_in c (columns df))
                      (select_final_column_list extra)).
  { apply list_elem_of_In, filter_In. split.
    - apply in_or_app. left. now apply list_elem_of_In.
    - now apply label_in_spec. }
  rewrite (count_label_NoDup f _ Hnd Hin) in Hcount. discriminate.
Qed.

Lemma projector_repeats_requested_base_column_witness :
  frames scenario_world !! 1%nat = Some scenario_events /\
  NoDup (columns scenario_events) /\
  exists r' out,
    select_final_columns 1 (Some ["user_id"]) scenario_world
      = (Ok r', put scenario_world r' out) /\
    length (List.filter (String.eqb "user_id") (columns out)) = 2%nat /\
    ~ NoDup (columns out).
Proof.
  assert (Hn : NoDup (columns scenario_events)).
  { unfold columns. simpl.
    repeat (constructor;
            [intros H; repeat (apply elem_of_cons in H as [H|H]; [discriminate|]);
             inversion H|]).
    constructor. }
  split; [reflexivity|]. split; [exact Hn|].
  apply (projector_repeats_requested_base_column scenario_world 1 scenario_events
           (Some ["user_id"]) "user_id");
    [reflexivity | exact Hn | left | right; left | left].
Defined.

Lemma flat_map_ext_elems {A B} (f g : A -> list B) (l : list A) :
  (forall x, In x l -> f x = g x) -> flat_map f l = flat_map g l.
Proof.
  induction l as [|x l IH]; intros H; [reflexivity|].
  cbn [flat_map]. rewrite (H x) by now left.
  rewrite IH; [reflexivity|]. intros y Hy. apply H. now right.
Qed.

Lemma flat_map_labels_identity (d : list (string * list value)) :
  NoDup (map fst d) ->
  flat_map (fun l => List.filter (fun cd => String.eqb (fst cd) l) d) (map fst d) = d.
Proof.
  induction d as [|[k v] d IH]; intros Hn; [reflexivity|].
  cbn [map fst] in Hn. apply NoDup_cons in Hn as [Hk Hn].
  cbn [map fst flat_map List.filter]. rewrite String.eqb_refl.
  rewrite filter_label_absent by assumption. cbn [app]. f_equal.
  rewrite <- (IH Hn) at 2. apply flat_map_ext_elems. intros l Hl.
  cbn [List.filter fst].
  destruct (String.eqb_spec k l) as [->|Hne]; [|reflexivity].
  exfalso. apply Hk. now apply list_elem_of_In.
Qed.

Lemma NoDup_filter_labels (p : string -> bool) l : NoDup l -> NoDup (List.filter p l).
Proof.
  induction 1 as [|x l Hx Hl IH]; [constructor|].
  cbn [List.filter]. destruct (p x); [|exact IH].
  constructor; [|exact IH]. intros H. apply Hx.
  apply list_elem_of_In in H. apply filter_In in H as [H _].
  now apply list_elem_of_In.
Qed.

(** When no requested detail field bears a name of the base schema, the
    projection of a projected frame is that frame again: the same columns
    with the same cells, in a new frame. *)
Theorem projector_idempotent w r df extra :
  frames w !! r = Some df ->
  NoDup (columns df) ->
  (forall f, f ∈ select_all_fields extra -> f ∉ select_base_columns) ->
  exists r1 out w1 r2 w2,
    select_final_columns r extra w = (Ok r1, w1) /\
    frames w1 !! r1 = Some out /\
    NoDup (columns out) /\
    select_final_columns r1 extra w1 = (Ok r2, w2) /\
    r2 <> r1 /\
    frames w2 !! r2 = Some out /\
    frames w2 !! r1 = Some out.
Proof.
  intros Hr Hn Hdisj.
  set (final := select_final_column_list extra).
  set (avail := List.filter (fun c => label_in c (columns df)) final).
  assert (Hfinal : NoDup final).
  { unfold final, select_final_column_list. apply NoDup_app.
    split; [apply NoDup_select_base_columns|]. split.
    - intros x Hx Hx'. now apply (Hdisj x).
    - apply strictly_ascending_NoDup, sorted_py_set_effective. }
  destruct (select_present_labels (data df) avail Hn) as [H1 _].
  { apply Forall_forall. intros l Hl.
    apply list_elem_of_In, filter_In in Hl as [_ Hl]. now apply label_in_spec. }
  set (out := mkDF (index_len df)
                (flat_map (fun l => List.filter (fun cd => String.eqb (fst cd) l) (data df))
                   avail)).
  assert (Hcols : columns out = avail) by exact H1.
  assert (Havail : List.filter (fun c => label_in c (columns out)) final = avail).
  { rewrite Hcols. unfold avail. apply filter_ext_in. intros c Hc.
    destruct (label_in c (columns df)) eqn:E.
    - apply label_in_spec, list_elem_of_In, filter_In. split; [exact Hc|exact E].
    - apply label_in_false. intros H.
      apply list_elem_of_In, filter_In in H as [_ H]. congruence. }
  pose proof (run_select_final_columns w r df extra Hr) as E1.
  fold final avail out in E1.
  set (r1 := fresh (dom (frames w))) in *.
  pose proof (run_select_final_columns (put w r1 out) r1 out extra
                (frames_put _ _ _)) as E2.
  fold final in E2. rewrite Havail in E2.
  assert (Hsame :
    mkDF (index_len out)
      (flat_map (fun l => List.filter (fun cd => String.eqb (fst cd) l) (data out))
         avail) = out).
  { rewrite <- Hcols at 1. unfold columns.
    rewrite flat_map_labels_identity; [reflexivity|].
    fold (columns out). rewrite Hcols. now apply NoDup_filter_labels. }
  rewrite Hsame in E2.
  set (r2 := fresh (dom (frames (put w r1 out)))) in *.
  assert (Hne : r2 <> r1).
  { intros Heq. pose proof (fresh_ref_unused (put w r1 out)) as Hf.
    fold r2 in Hf. rewrite Heq, frames_put in Hf. discriminate. }
  exists r1, out, (put w r1 out), r2, (put (put w r1 out) r2 out).
  split; [exact E1|]. split; [apply frames_put|].
  split; [rewrite Hcols; now apply NoDup_filter_labels|].
  split; [exact E2|]. split; [exact Hne|].
  split; [apply frames_put|].
  rewrite frames_put_ne by assumption. apply frames_put.
Qed.

Lemma projector_idempotent_witness :
  frames scenario_world !! 1%nat = Some scenario_events /\
  exists r1 out w1 r2 w2,
    select_final_columns 1 None scenario_world = (Ok r1, w1) /\
    frames w1 !! r1 = Some out /\
    NoDup (columns out) /\
    select_final_columns r1 None w1 = (Ok r2, w2) /\
    r2 <> r1 /\
    frames w2 !! r2 = Some out /\
    frames w2 !! r1 = Some out.
Proof.
  split; [reflexivity|].
  apply (projector_idempotent scenario_world 1 scenario_events None).
  - reflexivity.
  - unfold columns. simpl.
    repeat (constructor;
            [intros H; repeat (apply elem_of_cons in H as [H|H]; [discriminate|]);
             inversion H|]).
    constructor.
  - intros f Hf Hb. vm_compute in Hf.
    repeat (apply elem_of_cons in Hf as [Hf|Hf];
            [subst f;
             repeat (apply elem_of_cons in Hb as [Hb|Hb]; [discriminate|]);
             inversion Hb|]).
    inversion Hf.
Defined.

(** ** The profile loader: clean input, line ends, failures *)

Lemma lstrip_no_head p l :
  (forall c, head l = Some c -> p c = false) -> lstrip p l = l.
Proof.
  destruct l as [|c l]; intros H; [reflexivity|].
  simpl. now rewrite (H c eq_refl).
Qed.

Lemma head_rev (l : list N) : head (rev l) = last l.
Proof. rewrite <- (rev_involutive l) at 2. now rewrite last_rev. Qed.

Lemma rstrip_no_last p l :
  (forall c, last l = Some c -> p c = false) -> rstrip p l = l.
Proof.
  intros H. unfold rstrip. rewrite lstrip_no_head.
  - apply rev_involutive.
  - intros c Hc. apply H. now rewrite <- head_rev.
Qed.

Lemma strip_no_edge_id p l : no_edge p l -> strip p l = l.
Proof.
  intros [Hh Hl]. unfold strip.
  rewrite (lstrip_no_head p l Hh). now apply rstrip_no_last.
Qed.

Lemma rstrip_snoc p l c : p c = true -> rstrip p (l ++ [c]) = rstrip p l.
Proof.
  intros Hc. unfold rstrip. rewrite rev_app_distr. simpl. now rewrite Hc.
Qed.

Lemma lstrip_rstrip_comm_snoc p l c :
  p c = true -> no_edge p l -> strip p (l ++ [c]) = l.
Proof.
  intros Hc [Hh Hl]. unfold strip. destruct l as [|d l].
  - simpl. rewrite Hc. reflexivity.
  - cbn [app lstrip]. rewrite (Hh d eq_refl).
    change (d :: l ++ [c]) with ((d :: l) ++ [c]).
    rewrite rstrip_snoc by assumption. now apply rstrip_no_last.
Qed.

Lemma repair_clean_line body :
  clean_line body ->
  repair_line body = body /\ repair_line (body ++ [LF]) = body.
Proof.
  intros (_ & _ & Hs & Hq). unfold repair_line. split.
  - now rewrite (strip_no_edge_id _ _ Hs), (strip_no_edge_id _ _ Hq).
  - rewrite (lstrip_rstrip_comm_snoc is_space body LF eq_refl Hs).
    now apply strip_no_edge_id.
Qed.

Lemma universal_newlines_no_cr t : CR ∉ t -> universal_newlines t = t.
Proof.
  induction t as [|c t IH]; intros H; [reflexivity|].
  apply not_elem_of_cons in H as [Hc H]. cbn [universal_newlines].
  destruct (N.eqb_spec c CR); [congruence|]. now rewrite IH.
Qed.

Lemma file_lines_no_lf body : forall cur,
  LF ∉ body -> cur ++ body <> [] -> file_lines body cur = [cur ++ body].
Proof.
  induction body as [|c body IH]; intros cur Hlf Hne.
  - rewrite app_nil_r in *. simpl. destruct cur; [congruence | reflexivity].
  - apply not_elem_of_cons in Hlf as [Hc Hlf]. cbn [file_lines].
    destruct (N.eqb_spec c LF); [congruence|].
    rewrite IH; [now rewrite <- app_assoc | assumption |].
    rewrite <- app_assoc. simpl. now destruct cur.
Qed.

Lemma file_lines_line body rest : forall cur,
  LF ∉ body ->
  file_lines (body ++ LF :: rest) cur = (cur ++ body ++ [LF]) :: file_lines rest [].
Proof.
  induction body as [|c body IH]; intros cur Hlf.
  - simpl. reflexivity.
  - apply not_elem_of_cons in Hlf as [Hc Hlf]. cbn [app file_lines].
    destruct (N.eqb_spec c LF); [congruence|].
    rewrite IH by assumption. now rewrite <- app_assoc.
Qed.

(** The lines of a text made of clean lines separated by line feeds, the
    last one not empty, and their repair. *)
Lemma repaired_lines_of_clean_text bodies :
  Forall clean_line bodies ->
  (forall b, last bodies = Some b -> b <> []) ->
  map repair_line (file_lines (text_join [LF] bodies) []) = bodies.
Proof.
  induction bodies as [|b bodies IH]; intros Hc Hlast; [reflexivity|].
  apply Forall_cons in Hc as [Hb Hc].
  destruct bodies as [|b' bodies].
  - cbn [text_join]. assert (Hne : b <> []) by (apply Hlast; reflexivity).
    rewrite (file_lines_no_lf b []); [|apply Hb|exact Hne].
    cbn [map app]. f_equal. apply repair_clean_line, Hb.
  - cbn [text_join]. cbn [app].
    rewrite (file_lines_line b _ []) by apply Hb.
    cbn [map app]. f_equal; [apply repair_clean_line, Hb|].
    apply IH; [assumption|]. intros x Hx. apply Hlast. exact Hx.
Qed.

Lemma text_join_no_cr bodies :
  Forall clean_line bodies -> CR ∉ text_join [LF] bodies.
Proof.
  induction bodies as [|b bodies IH]; intros Hc; [apply not_elem_of_nil|].
  apply Forall_cons in Hc as [(_ & Hb & _) Hc].
  destruct bodies as [|b' bodies]; [exact Hb|].
  cbn [text_join]. rewrite !not_elem_of_app. split; [exact Hb|]. split.
  - intros H. apply list_elem_of_singleton in H. discriminate.
  - now apply IH.
Qed.

(** A file that needs no repair reaches the parser unchanged: when the
    decoded text has no byte-order mark and consists of clean lines
    separated by line feeds, without a line feed after the last line, the
    text handed to [read_csv] is that text. *)
Theorem loader_passes_clean_text_unchanged
  (open_utf8 : string -> result (list N))
  (read_csv : list N -> list string -> result DataFrame)
  (csv_path : string) (bodies : list (list N)) :
  open_utf8 csv_path = Ok (text_join [LF] bodies) ->
  Forall clean_line bodies ->
  (forall b, last bodies = Some b -> b <> []) ->
  head (text_join [LF] bodies) <> Some BOM ->
  fixed_csv_of (text_join [LF] bodies) = text_join [LF] bodies /\
  load_profile_file open_utf8 read_csv csv_path =
    read_csv (text_join [LF] bodies) ["registration_date"].
Proof.
  intros Hopen Hc Hlast Hbom.
  assert (Hfixed : fixed_csv_of (text_join [LF] bodies) = text_join [LF] bodies).
  { unfold fixed_csv_of.
    destruct (decode_sig_cases (text_join [LF] bodies))
      as [(rest & Hr & _)|[_ Hd]].
    - exfalso. apply Hbom. now rewrite Hr.
    - rewrite Hd, universal_newlines_no_cr by now apply text_join_no_cr.
      now rewrite repaired_lines_of_clean_text. }
  split; [exact Hfixed|].
  unfold load_profile_file. rewrite Hopen. cbn [rbind]. now rewrite Hfixed.
Qed.

Lemma loader_passes_clean_text_unchanged_witness :
  let open_utf8 := fun _ : string => Ok (text_join [LF] [[97; 44; 98]; [49; 44; 50]]%N) in
  let read_csv := fun (_ : list N) (_ : list string) => Ok scenario_profiles in
  fixed_csv_of (text_join [LF] [[97; 44; 98]; [49; 44; 50]]%N)
    = text_join [LF] [[97; 44; 98]; [49; 44; 50]]%N /\
  load_profile_file open_utf8 read_csv "profiles.csv" =
    read_csv (text_join [LF] [[97; 44; 98]; [49; 44; 50]]%N) ["registration_date"].
Proof.
  intros open_utf8 read_csv.
  apply (loader_passes_clean_text_unchanged open_utf8 read_csv "profiles.csv"
           [[97; 44; 98]; [49; 44; 50]]%N).
  - reflexivity.
  - assert (Hclean : forall a b c : N,
              is_space a = false -> is_quote a = false ->
              is_space c = false -> is_quote c = false ->
              a <> LF -> b <> LF -> c <> LF -> a <> CR -> b <> CR -> c <> CR ->
              clean_line [a; b; c]).
    { intros a b c Hsa Hqa Hsc Hqc Ha1 Hb1 Hc1 Ha2 Hb2 Hc2.
      unfold clean_line, no_edge. split; [|split; [|split; split]].
      - intros Hin. repeat (apply elem_of_cons in Hin as [Hin|Hin]; [congruence|]).
        inversion Hin.
      - intros Hin. repeat (apply elem_of_cons in Hin as [Hin|Hin]; [congruence|]).
        inversion Hin.
      - intros x Hx. inversion Hx; subst. assumption.
      - intros x Hx. inversion Hx; subst. assumption.
      - intros x Hx. inversion Hx; subst. assumption.
      - intros x Hx. inversion Hx; subst. assumption. }
    constructor; [apply Hclean; (reflexivity || discriminate)|].
    constructor; [apply Hclean; (reflexivity || discriminate)|]. constructor.
  - intros b Hb. inversion Hb. discriminate.
  - discriminate.
Defined.

Lemma universal_newlines_drops_cr t :
  (CR ∉ universal_newlines t) /\ forall c, CR ∉ universal_newlines (c :: t).
Proof.
  assert (Hlf : CR <> LF) by discriminate.
  induction t as [|d t [IH1 IH2]].
  - split; [apply not_elem_of_nil|]. intros c. cbn [universal_newlines].
    destruct (N.eqb_spec c CR).
    + apply not_elem_of_cons. split; [exact Hlf | apply not_elem_of_nil].
    + apply not_elem_of_cons. split; [congruence | apply not_elem_of_nil].
  - split; [apply IH2|]. intros c.
    change (universal_newlines (c :: d :: t)) with
      (if (c =? CR)%N
       then LF :: (if (d =? LF)%N then universal_newlines t
                   else universal_newlines (d :: t))
       else c :: universal_newlines (d :: t)).
    destruct (N.eqb_spec c CR).
    + apply not_elem_of_cons. split; [exact Hlf|].
      destruct (d =? LF)%N; [exact IH1 | apply IH2].
    + apply not_elem_of_cons. split; [congruence | apply IH2].
Qed.

Lemma elem_of_strip p l x : x ∈ strip p l -> x ∈ l.
Proof.
  intros H. destruct (strip_trimmed p l) as (a & b & Hl & _).
  rewrite Hl, !elem_of_app. auto.
Qed.

Lemma elem_of_file_lines t : forall cur line x,
  line ∈ file_lines t cur -> x ∈ line -> x ∈ cur \/ x ∈ t.
Proof.
  induction t as [|c t IH]; intros cur line x Hline Hx; cbn [file_lines] in Hline.
  - destruct cur; [inversion Hline|].
    apply list_elem_of_singleton in Hline. subst. now left.
  - destruct (c =? LF)%N.
    + apply elem_of_cons in Hline as [->|Hline].
      * apply elem_of_app in Hx as [Hx|Hx]; [now left|].
        apply list_elem_of_singleton in Hx. subst. right. left.
      * destruct (IH _ _ _ Hline Hx) as [H|H]; [inversion H|]. right. now right.
    + destruct (IH _ _ _ Hline Hx) as [H|H]; [|right; now right].
      apply elem_of_app in H as [H|H]; [now left|].
      apply list_elem_of_singleton in H. subst. right. left.
Qed.

Lemma elem_of_text_join sep parts x :
  x ∈ text_join sep parts -> x ∈ sep \/ exists part, part ∈ parts /\ x ∈ part.
Proof.
  induction parts as [|p parts IH]; intros H; [inversion H|].
  destruct parts as [|q parts].
  - right. exists p. split; [left | exact H].
  - cbn [text_join] in H. apply elem_of_app in H as [H|H].
    + right. exists p. split; [left | exact H].
    + apply elem_of_app in H as [H|H]; [now left|].
      destruct (IH H) as [Hs|(part & Hp & Hx)]; [now left|].
      right. exists part. split; [now right | exact Hx].
Qed.

(** The text handed to the parser never contains a carriage return:
    Windows and old Macintosh line ends are read as line feeds, and each
    line is stripped. *)
Theorem fixed_csv_has_no_carriage_return (decoded : list N) :
  CR ∉ fixed_csv_of decoded.
Proof.
  unfold fixed_csv_of. intros H.
  apply elem_of_text_join in H as [H|(part & Hp & Hx)].
  - apply list_elem_of_singleton in H. discriminate.
  - apply elem_of_map in Hp as (line & -> & Hline).
    unfold repair_line in Hx. do 2 apply elem_of_strip in Hx.
    destruct (elem_of_file_lines _ _ _ _ Hline Hx) as [Hc|Hc]; [inversion Hc|].
    now apply (proj1 (universal_newlines_drops_cr (decode_sig decoded))).
Qed.

Lemma column_lookup_Some_In c d cells :
  column_lookup c d = Some cells -> In (c, cells) d.
Proof.
  induction d as [|[k v] d IH]; simpl; [discriminate|].
  destruct (String.eqb_spec k c) as [->|Hne].
  - intros H. inversion H. now left.
  - intros H. right. now apply IH.
Qed.

Lemma column_lookup_full c df cells :
  full_columns df -> column_lookup c (data df) = Some cells ->
  length cells = index_len df.
Proof.
  intros Hf Hc. apply column_lookup_Some_In in Hc.
  unfold full_columns in Hf. rewrite Forall_forall in Hf.
  apply (Hf (c, cells)). now apply list_elem_of_In.
Qed.

Lemma column_lookup_map_key (g : string -> list value) c labels :
  c ∈ labels -> column_lookup c (map (fun l => (l, g l)) labels) = Some (g c).
Proof.
  induction labels as [|l labels IH]; intros H; [inversion H|].
  cbn [map column_lookup]. destruct (String.eqb_spec l c) as [->|Hne]; [reflexivity|].
  apply IH. apply elem_of_cons in H as [?|?]; [congruence | assumption].
Qed.

(** *** [pd.concat] *)

Lemma length_cast_cells d cells : length (cast_cells d cells) = length cells.
Proof.
  unfold cast_cells. destruct (dtype_eqb _ _); [reflexivity|].
  destruct d; try reflexivity. apply length_map.
Qed.

Lemma length_concat_cells c dfs :
  Forall full_columns dfs -> length (concat_cells c dfs) = total_rows dfs.
Proof.
  unfold concat_cells. generalize (concat_dtype c dfs). intros d.
  induction 1 as [|df dfs Hdf _ IH]; [reflexivity|].
  cbn [flat_map total_rows foldr]. rewrite length_app. fold (total_rows dfs).
  rewrite IH. f_equal.
  destruct (column_lookup c (data df)) as [cells|] eqn:E.
  - rewrite length_cast_cells. now apply (column_lookup_full c).
  - apply repeat_length.
Qed.

Lemma length_stacked_cells c dfs :
  Forall full_columns dfs -> length (stacked_cells c dfs) = total_rows dfs.
Proof.
  unfold stacked_cells.
  induction 1 as [|df dfs Hdf _ IH]; [reflexivity|].
  cbn [flat_map total_rows foldr]. rewrite length_app. fold (total_rows dfs).
  rewrite IH. f_equal.
  destruct (column_lookup c (data df)) as [cells|] eqn:E.
  - now apply (column_lookup_full c).
  - apply repeat_length.
Qed.

Lemma total_rows_filter_non_empty dfs :
  total_rows (List.filter (fun df => negb (is_empty_frame df)) dfs) = total_rows dfs.
Proof.
  induction dfs as [|df dfs IH]; [reflexivity|].
  cbn [List.filter]. destruct (is_empty_frame df) eqn:E; cbn [negb].
  - unfold is_empty_frame in E. apply andb_true_iff in E as [E _].
    apply Nat.eqb_eq in E. cbn [total_rows foldr]. fold (total_rows dfs).
    now rewrite E, IH.
  - cbn [total_rows foldr]. unfold total_rows in IH. now rewrite IH.
Qed.

Lemma labels_filter_non_empty dfs :
  flat_map columns (List.filter (fun df => negb (is_empty_frame df)) dfs)
  = flat_map columns dfs.
Proof.
  induction dfs as [|df dfs IH]; [reflexivity|].
  cbn [List.filter]. destruct (is_empty_frame df) eqn:E; cbn [negb flat_map].
  - unfold is_empty_frame in E. apply andb_true_iff in E as [_ E].
    unfold columns at 2. destruct (data df); [exact IH | discriminate].
  - now rewrite IH.
Qed.

Lemma total_rows_non_empties dfs : total_rows (non_empties dfs) = total_rows dfs.
Proof.
  unfold non_empties. pose proof (total_rows_filter_non_empty dfs) as H.
  destruct (List.filter _ dfs); [reflexivity | exact H].
Qed.

Lemma labels_non_empties dfs :
  flat_map columns (non_empties dfs) = flat_map columns dfs.
Proof.
  unfold non_empties. pose proof (labels_filter_non_empty dfs) as H.
  destruct (List.filter _ dfs); [reflexivity | exact H].
Qed.

Lemma Forall_non_empties (P : DataFrame -> Prop) dfs :
  Forall P dfs -> Forall P (non_empties dfs).
Proof.
  intros H. unfold non_empties.
  assert (Hf : Forall P (List.filter (fun df => negb (is_empty_frame df)) dfs)).
  { rewrite Forall_forall in H. apply Forall_forall. intros df Hdf.
    apply H. apply list_elem_of_In in Hdf. apply filter_In in Hdf as [Hdf _].
    now apply list_elem_of_In. }
  destruct (List.filter _ dfs); [exact H | exact Hf].
Qed.

Lemma concat_nonempty df0 dfs0 :
  concat (df0 :: dfs0) = Ok (concatenated (df0 :: dfs0)).
Proof. unfold concat, concatenated, total_rows. reflexivity. Qed.

Lemma elem_of_concat_labels c dfs :
  c ∈ remove_dups (flat_map columns dfs) <-> exists df, df ∈ dfs /\ c ∈ columns df.
Proof.
  rewrite elem_of_remove_dups, list_elem_of_In, in_flat_map. split.
  - intros (df & Hdf & Hc). exists df. split; now apply list_elem_of_In.
  - intros (df & Hdf & Hc). exists df. split; now apply list_elem_of_In.
Qed.

Lemma concatenated_columns dfs :
  columns (concatenated dfs) = remove_dups (flat_map columns dfs).
Proof.
  unfold concatenated. rewrite columns_mk. cbn [data].
  rewrite map_map. cbn [fst]. now rewrite map_id, labels_non_empties.
Qed.

Lemma concatenated_labels dfs c :
  c ∈ columns (concatenated dfs) <-> exists df, df ∈ dfs /\ c ∈ columns df.
Proof. rewrite concatenated_columns. apply elem_of_concat_labels. Qed.

Lemma concatenated_rows dfs : index_len (concatenated dfs) = total_rows dfs.
Proof. apply total_rows_non_empties. Qed.

Lemma concatenated_full dfs :
  Forall full_columns dfs -> full_columns (concatenated dfs).
Proof.
  intros H. unfold full_columns, concatenated. cbn [data index_len].
  apply Forall_forall. intros cd Hcd.
  apply list_elem_of_In, in_map_iff in Hcd as (c & <- & _). cbn [snd].
  apply length_concat_cells. now apply Forall_non_empties.
Qed.

Lemma dtype_eqb_refl d : dtype_eqb d d = true.
Proof. now destruct d. Qed.

Lemma common_dtype_same d ds :
  ds <> [] -> Forall (eq d) ds -> common_dtype ds = d.
Proof.
  intros Hne H. destruct ds as [|d0 rest]; [congruence|].
  inversion H as [|? ? Hd Hrest]; subst. cbn [common_dtype].
  assert (Hall : forallb (dtype_eqb d0) rest = true).
  { apply forallb_forall. intros x Hx. rewrite Forall_forall in Hrest.
    rewrite <- (Hrest x) by now apply list_elem_of_In. apply dtype_eqb_refl. }
  now rewrite Hall.
Qed.

Lemma non_empties_one_dtype c dfs : one_dtype c dfs -> non_empties dfs = dfs.
Proof.
  intros [d H]. unfold non_empties.
  assert (Hf : List.filter (fun df => negb (is_empty_frame df)) dfs = dfs).
  { induction H as [|df dfs (cells & Hc & _) _ IH]; [reflexivity|].
    cbn [List.filter]. unfold is_empty_frame at 1.
    destruct (data df) as [|cd rest]; [discriminate|].
    rewrite andb_false_r. cbn [negb]. now rewrite IH. }
  rewrite Hf. now destruct dfs.
Qed.

Lemma cast_cells_nil d : cast_cells d [] = [].
Proof. unfold cast_cells. now destruct (dtype_eqb _ d), d. Qed.

Lemma concat_cells_uncast c d' dfs :
  (forall df, In df dfs -> exists cells,
     column_lookup c (data df) = Some cells /\ cast_cells d' cells = cells) ->
  flat_map (fun df => match column_lookup c (data df) with
                      | Some cells => cast_cells d' cells
                      | None =>
                          repeat (match d' with Ddatetime => VNaT | _ => NA end)
                            (index_len df)
                      end) dfs
  = stacked_cells c dfs.
Proof.
  unfold stacked_cells. induction dfs as [|df dfs IH]; intros H; [reflexivity|].
  cbn [flat_map]. rewrite IH by (intros x Hx; apply H; now right).
  f_equal. destruct (H df (or_introl eq_refl)) as (cells & Hc & Hcast).
  now rewrite Hc, Hcast.
Qed.

(** A column of one dtype is not cast: it holds the cells of each frame
    in turn. *)
Lemma concat_cells_one_dtype c dfs :
  one_dtype c dfs -> concat_cells c dfs = stacked_cells c dfs.
Proof.
  intros [d H]. unfold concat_cells.
  set (blocks := flat_map (fun df => match column_lookup c (data df) with
                                     | Some (x :: cells) => [column_dtype (x :: cells)]
                                     | _ => []
                                     end) dfs).
  assert (Hblocks : Forall (eq d) blocks).
  { subst blocks. clear -H.
    induction H as [|df dfs (cells & Hc & Hd) _ IH]; [constructor|].
    cbn [flat_map]. rewrite Hc. apply Forall_app. split; [|exact IH].
    destruct cells as [|x cells]; [constructor|].
    destruct Hd as [Hd|Hd]; [discriminate|]. now repeat constructor. }
  assert (Hcarry : forallb (fun df => label_in c (columns df)) dfs = true).
  { apply forallb_forall. intros df Hdf. rewrite Forall_forall in H.
    destruct (H df) as (cells & Hc & _); [now apply list_elem_of_In|].
    apply label_in_spec. eapply column_lookup_Some_label, Hc. }
  assert (Hd : blocks <> [] -> concat_dtype c dfs = d).
  { intros Hne. unfold concat_dtype. fold blocks. rewrite Hcarry.
    now apply common_dtype_same. }
  apply concat_cells_uncast. intros df Hdf.
  rewrite Forall_forall in H.
  destruct (H df) as (cells & Hc & Hcd); [now apply list_elem_of_In|].
  exists cells. split; [exact Hc|].
  destruct cells as [|x cells]; [apply cast_cells_nil|].
  destruct Hcd as [Hcd|Hcd]; [discriminate|].
  rewrite Hd.
  - unfold cast_cells. now rewrite Hcd, dtype_eqb_refl.
  - intros Hnil.
    assert (Hin : In (column_dtype (x :: cells)) blocks).
    { subst blocks. apply in_flat_map. exists df. split; [exact Hdf|].
      rewrite Hc. now left. }
    rewrite Hnil in Hin. inversion Hin.
Qed.

Lemma concatenated_lookup dfs c :
  c ∈ columns (concatenated dfs) -> one_dtype c dfs ->
  column_lookup c (data (concatenated dfs)) = Some (stacked_cells c dfs).
Proof.
  intros Hc H1. rewrite concatenated_columns in Hc.
  unfold concatenated. cbn [data].
  rewrite (non_empties_one_dtype c dfs H1).
  rewrite (column_lookup_map_key (fun c => concat_cells c dfs)) by exact Hc.
  now rewrite concat_cells_one_dtype.
Qed.

Lemma load_profile_files_each
  (open_utf8 : string -> result (list N))
  (read_csv : list N -> list string -> result DataFrame) paths : forall dfs,
  load_profile_files open_utf8 read_csv paths = Ok dfs ->
  Forall2 (fun path df => load_profile_file open_utf8 read_csv path = Ok df) paths dfs.
Proof.
  induction paths as [|p paths IH]; intros dfs H; cbn [load_profile_files] in H.
  - inversion H. constructor.
  - destruct (load_profile_file open_utf8 read_csv p) as [df|e] eqn:E;
      [|discriminate].
    cbn [rbind] in H.
    destruct (load_profile_files open_utf8 read_csv paths) as [dfs'|e];
      [|discriminate].
    inversion H; subst. constructor; [exact E | now apply IH].
Qed.

Lemma scenario_profiles_labels_NoDup : NoDup (columns scenario_profiles).
Proof. apply (bool_decide_unpack _). vm_compute. exact I. Qed.

(** When every file opens and parses, the loader returns a new frame that
    holds the rows of the files in file order: its row count is the sum of
    theirs, its labels are the labels of the files, each once, and every
    column is full.  A column that every file carries with one dtype
    holds the cells of each file in turn. *)
Theorem loader_concatenates_files
  (open_utf8 : string -> result (list N))
  (read_csv : list N -> list string -> result DataFrame)
  (csv_paths : list string) (dfs : list DataFrame) (w : world) :
  load_profile_files open_utf8 read_csv csv_paths = Ok dfs ->
  csv_paths <> [] ->
  Forall full_columns dfs ->
  Forall (fun df => NoDup (columns df)) dfs ->
  exists r out,
    load_user_profiles open_utf8 read_csv csv_paths w = (Ok r, put w r out) /\
    frames w !! r = None /\
    Forall2 (fun path df => load_profile_file open_utf8 read_csv path = Ok df)
      csv_paths dfs /\
    index_len out = total_rows dfs /\
    full_columns out /\
    NoDup (columns out) /\
    (forall c, c ∈ columns out <-> exists df, df ∈ dfs /\ c ∈ columns df) /\
    (forall c, c ∈ columns out -> one_dtype c dfs ->
       column_lookup c (data out) = Some (stacked_cells c dfs)).
Proof.
  intros Hload Hne Hfull _.
  pose proof (load_profile_files_each _ _ _ _ Hload) as Heach.
  assert (Hdfs : dfs <> []).
  { intros ->. inversion Heach. congruence. }
  unfold load_user_profiles, bind, lift, new_frame. rewrite Hload.
  destruct dfs as [|df0 dfs0] eqn:Edfs; [congruence|]. rewrite <- Edfs in *.
  assert (Hconcat : concat dfs = Ok (concatenated dfs))
    by (rewrite Edfs; apply concat_nonempty).
  rewrite Hconcat.
  eexists _, _. split; [reflexivity|]. split; [apply fresh_ref_unused|].
  split; [exact Heach|]. split; [apply concatenated_rows|].
  split; [now apply concatenated_full|].
  split; [rewrite concatenated_columns; apply NoDup_remove_dups|].
  split; [apply concatenated_labels|].
  intros c Hc H1. now apply concatenated_lookup.
Qed.

Lemma loader_concatenates_files_witness :
  let open_utf8 := fun _ : string => Ok [BOM; 97; 10]%N in
  let read_csv := fun (_ : list N) (_ : list string) => Ok scenario_profiles in
  exists r out,
    load_user_profiles open_utf8 read_csv ["a.csv"; "b.csv"] scenario_world
      = (Ok r, put scenario_world r out) /\
    frames scenario_world !! r = None /\
    Forall2 (fun path df => load_profile_file open_utf8 read_csv path = Ok df)
      ["a.csv"; "b.csv"] [scenario_profiles; scenario_profiles] /\
    index_len out = total_rows [scenario_profiles; scenario_profiles] /\
    full_columns out /\
    NoDup (columns out) /\
    (forall c, c ∈ columns out <->
       exists df, df ∈ [scenario_profiles; scenario_profiles] /\ c ∈ columns df) /\
    (forall c, c ∈ columns out ->
       one_dtype c [scenario_profiles; scenario_profiles] ->
       column_lookup c (data out) =
       Some (stacked_cells c [scenario_profiles; scenario_profiles])).
Proof.
  intros open_utf8 read_csv.
  apply (loader_concatenates_files open_utf8 read_csv ["a.csv"; "b.csv"]
           [scenario_profiles; scenario_profiles] scenario_world).
  - reflexivity.
  - discriminate.
  - repeat constructor.
  - repeat (constructor; [apply scenario_profiles_labels_NoDup|]). constructor.
Defined.

(** The loader fails fast and creates nothing: with no path at all it
    raises the [ValueError] of [pd.concat]; otherwise it raises the error
    of the first file that cannot be opened or parsed.  In both cases the
    store of frames is as before. *)
Theorem loader_fails_fast
  (open_utf8 : string -> result (list N))
  (read_csv : list N -> list string -> result DataFrame) (w : world) :
  load_user_profiles open_utf8 read_csv [] w =
    (Raise (ValueError "No objects to concatenate"), w) /\
  forall before path after e,
    Forall (fun q => exists df, load_profile_file open_utf8 read_csv q = Ok df)
      before ->
    load_profile_file open_utf8 read_csv path = Raise e ->
    load_user_profiles open_utf8 read_csv (before ++ path :: after) w = (Raise e, w).
Proof.
  split; [reflexivity|].
  intros before path after e Hbefore Hpath.
  assert (H : load_profile_files open_utf8 read_csv (before ++ path :: after)
              = Raise e).
  { induction Hbefore as [|q before [df Hq] _ IH]; cbn [app load_profile_files].
    - now rewrite Hpath.
    - rewrite Hq. cbn [rbind]. now rewrite IH. }
  unfold load_user_profiles, bind, lift. now rewrite H.
Qed.

Lemma loader_fails_fast_witness :
  let open_utf8 := fun p : string =>
    if String.eqb p "a.csv" then Ok [97; 10]%N
    else Raise (FileNotFoundError p) in
  let read_csv := fun (_ : list N) (_ : list string) => Ok scenario_profiles in
  load_user_profiles open_utf8 read_csv ["a.csv"; "missing.csv"; "a.csv"]
    scenario_world
  = (Raise (FileNotFoundError "missing.csv"), scenario_world).
Proof.
  intros open_utf8 read_csv.
  apply (proj2 (loader_fails_fast open_utf8 read_csv scenario_world)
           ["a.csv"] "missing.csv" ["a.csv"] (FileNotFoundError "missing.csv")).
  - constructor; [|constructor]. exists scenario_profiles. reflexivity.
  - reflexivity.
Defined.

(** ** [json.dumps]: the text it produces *)

Lemma printable_append s t : printable s -> printable t -> printable (s +:+ t).
Proof.
  unfold printable. rewrite list_ascii_of_append. intros Hs Ht.
  apply Forall_app. now split.
Qed.

Lemma printable_forallb s :
  forallb is_printable (list_ascii_of_string s) = true -> printable s.
Proof.
  intros H. apply Forall_forall. intros c Hc.
  apply (proj1 (forallb_forall _ _) H). now apply list_elem_of_In.
Qed.

Lemma escape_char_printable c : printable (escape_char c).
Proof.
  apply printable_forallb.
  destruct c as [[] [] [] [] [] [] [] []]; vm_compute; reflexivity.
Qed.

Lemma escape_body_printable s : printable (escape_body s).
Proof.
  induction s as [|c s IH]; [constructor|].
  cbn [escape_body]. apply printable_append; [apply escape_char_printable | exact IH].
Qed.

Lemma encode_basestring_ascii_printable s : printable (encode_basestring_ascii s).
Proof.
  unfold encode_basestring_ascii.
  change (String dquote (escape_body s +:+ String dquote EmptyString))
    with (String dquote EmptyString +:+ (escape_body s +:+ String dquote EmptyString)).
  repeat apply printable_append; try apply escape_body_printable;
    repeat constructor.
Qed.




Lemma append_nil_r s : s +:+ EmptyString = s.
Proof. induction s as [|c s IH]; [reflexivity|]. rewrite append_cons. now f_equal. Qed.



Lemma decimal_uint_printable d :
  printable (DecimalString.NilEmpty.string_of_uint d).
Proof. induction d; simpl; constructor; auto. Qed.

Lemma int_repr_printable z : printable (int_repr z).
Proof.
  unfold int_repr. destruct (Z.to_int z) as [d|d]; simpl.
  - destruct d; try apply (decimal_uint_printable (_ _)); repeat constructor.
  - constructor; [reflexivity|].
    destruct d; try apply (decimal_uint_printable (_ _)); repeat constructor.
Qed.

Lemma str_join_printable sep parts :
  printable sep -> Forall printable parts -> printable (str_join sep parts).
Proof.
  intros Hsep. induction 1 as [|p parts Hp Hparts IH]; [constructor|].
  destruct parts as [|q parts]; [exact Hp|].
  cbn [str_join]. repeat apply printable_append; assumption.
Qed.

Lemma json_dumps_printable v :
  float_reprs_printable v -> forall out, json_dumps v = Ok out -> printable out.
Proof.
  induction v as [| [] | | [] | | l IH | items IH | | |] using value_nested_ind;
    intros Hf out Hs; simpl in Hs; try discriminate;
    try (inversion Hs; subst; repeat constructor; fail).
  - inversion Hs. apply int_repr_printable.
  - inversion Hs; subst. exact Hf.
  - inversion Hs. apply encode_basestring_ascii_printable.
  - match type of Hs with
    | rbind ?m _ = _ => destruct m as [parts|e] eqn:Eparts; [|discriminate]
    end.
    cbn [rbind] in Hs. inversion Hs; subst.
    assert (Hparts : Forall printable parts).
    { clear Hs. revert parts Eparts. simpl in Hf.
      induction IH as [|x l Hx _ IHl]; intros parts Eparts.
      - inversion Eparts. constructor.
      - destruct Hf as [Hfx Hfl].
        destruct (json_dumps x) as [sx|e] eqn:Ex; [|discriminate].
        cbn [rbind] in Eparts.
        match type of Eparts with
        | rbind ?m _ = _ => destruct m as [sl|e] eqn:Esl; [|discriminate]
        end.
        cbn [rbind] in Eparts. inversion Eparts; subst.
        constructor; [now apply Hx | now apply IHl]. }
    repeat apply printable_append; try (repeat constructor; fail).
    apply str_join_printable; [repeat constructor | exact Hparts].
  - match type of Hs with
    | rbind ?m _ = _ => destruct m as [parts|e] eqn:Eparts; [|discriminate]
    end.
    cbn [rbind] in Hs. inversion Hs; subst.
    assert (Hparts : Forall printable parts).
    { clear Hs. revert parts Eparts. simpl in Hf.
      induction IH as [|[k x] l Hx _ IHl]; intros parts Eparts.
      - inversion Eparts. constructor.
      - destruct Hf as [Hfx Hfl]. cbn [snd] in Hx.
        destruct (json_dumps x) as [sx|e] eqn:Ex; [|discriminate].
        cbn [rbind] in Eparts.
        match type of Eparts with
        | rbind ?m _ = _ => destruct m as [sl|e] eqn:Esl; [|discriminate]
        end.
        cbn [rbind] in Eparts. inversion Eparts; subst.
        constructor; [|now apply IHl].
        repeat apply printable_append;
          [apply encode_basestring_ascii_printable | repeat constructor
          | now apply Hx]. }
    repeat apply printable_append; try (repeat constructor; fail).
    apply str_join_printable; [repeat constructor | exact Hparts].
Qed.

(** The raw column is plain printable ASCII: every [details_raw] cell is a
    string of characters from space to tilde, without line break, control
    or non-ASCII character, whatever the strings inside the details are
    (as long as [details_raw] is not itself a requested field). *)
Theorem details_raw_is_printable_ascii w r df det fields :
  frames w !! r = Some df ->
  column_lookup "details" (data df) = Some det ->
  length det = index_len df ->
  Forall (fun x => json_serializable x = true) det ->
  Forall float_reprs_printable det ->
  "details_raw" ∉ or_empty fields ->
  exists df' raw,
    extract_details_fields r fields w = (Ok r, put w r df') /\
    column_lookup "details_raw" (data df') = Some raw /\
    Forall (fun y => exists s, y = VStr s /\ printable s) raw.
Proof.
  intros Hr Hd Hn Hser Hfl Hreq.
  destruct (series_apply_dumps_total det Hser) as [raw Hraw].
  pose proof (series_apply_dumps_cells _ _ Hraw) as Hcells.
  eexists _, raw. split; [eapply run_extract_details_fields; eassumption|].
  cbn [data]. split.
  - rewrite project_fields_lookup_other by now apply details_raw_not_effective.
    apply column_lookup_assign_eq.
  - clear -Hcells Hfl. induction Hcells as [|x y det raw (s & Hs & ->) _ IH];
      [constructor|].
    apply Forall_cons in Hfl as [Hx Hfl]. constructor; [|now apply IH].
    exists s. split; [reflexivity|]. now apply (json_dumps_printable x).
Qed.

Lemma details_raw_is_printable_ascii_witness :
  frames scenario_world !! 1%nat = Some scenario_events /\
  exists df' raw,
    extract_details_fields 1 None scenario_world = (Ok 1%nat, put scenario_world 1 df') /\
    column_lookup "details_raw" (data df') = Some raw /\
    Forall (fun y => exists s, y = VStr s /\ printable s) raw.
Proof.
  split; [reflexivity|].
  apply (details_raw_is_printable_ascii scenario_world 1 scenario_events
           [VDict [("page_url", VStr "/x")]; VNone] None);
    [reflexivity | reflexivity | reflexivity | repeat constructor
    | repeat constructor | simpl; apply not_elem_of_nil].
Defined.

(** ** The event loader *)

Lemma load_event_files_each read_json : forall paths dfs,
  load_event_files read_json paths = Ok dfs ->
  Forall2 (fun path df => read_json path = Ok df) paths dfs.
Proof.
  induction paths as [|p paths IH]; intros dfs H; cbn [load_event_files] in H.
  - inversion H. constructor.
  - destruct (read_json p) as [df|e] eqn:E; [|discriminate].
    cbn [rbind] in H.
    destruct (load_event_files read_json paths) as [dfs'|e]; [|discriminate].
    inversion H; subst. constructor; [exact E | now apply IH].
Qed.

Lemma column_lookup_map_labels (g : string -> list value) c : forall labels,
  column_lookup c (map (fun l => (l, g l)) labels) =
  if label_in c labels then Some (g c) else None.
Proof.
  induction labels as [|l labels IH]; [reflexivity|].
  cbn [map column_lookup]. rewrite label_in_cons, (String.eqb_sym c l).
  destruct (String.eqb_spec l c) as [->|Hne]; [reflexivity | exact IH].
Qed.

(** What the loader does once the files are read: the frame it builds,
    the reading of its [timestamp] column and the call of the parser. *)
Lemma run_load_user_events_head read_json to_datetime dt_date paths dfs w :
  load_event_files read_json paths = Ok dfs ->
  dfs <> [] ->
  let combined := concatenated dfs in
  let r := fresh (dom (frames w)) in
  load_user_events read_json to_datetime dt_date paths w =
  (raw <- df_getitem r "timestamp" ;;
   parsed <- lift (to_datetime raw) ;;
   df_setitem r "timestamp" parsed ;;;
   stamps <- df_getitem r "timestamp" ;;
   dates <- lift (dt_date stamps) ;;
   df_setitem r "event_date" dates ;;;
   ret r) (put w r combined).
Proof.
  intros Hload Hne combined r.
  unfold load_user_events. unfold bind at 1. unfold lift at 1. rewrite Hload.
  unfold bind at 1. unfold lift at 1.
  destruct dfs as [|df0 dfs0]; [congruence|].
  rewrite concat_nonempty. unfold bind at 1. reflexivity.
Qed.

(** The run of the event loader when nothing fails. *)
Lemma run_load_user_events_ok read_json to_datetime dt_date paths dfs parsed dates w :
  load_event_files read_json paths = Ok dfs ->
  Forall full_columns dfs ->
  (exists df, df ∈ dfs /\ "timestamp" ∈ columns df) ->
  one_dtype "timestamp" dfs ->
  to_datetime (stacked_cells "timestamp" dfs) = Ok parsed ->
  length parsed = length (stacked_cells "timestamp" dfs) ->
  dt_date parsed = Ok dates ->
  length dates = length parsed ->
  load_user_events read_json to_datetime dt_date paths w =
  (Ok (fresh (dom (frames w))),
   put w (fresh (dom (frames w))) (with_dates parsed dates (concatenated dfs))).
Proof.
  intros Hload Hfull Hts H1 Hparse Hlp Hdate Hld.
  rewrite (length_stacked_cells _ _ Hfull), <- concatenated_rows in Hlp.
  rewrite Hlp in Hld.
  assert (Hne : dfs <> []).
  { destruct Hts as (df & Hdf & _). intros ->. inversion Hdf. }
  rewrite (run_load_user_events_head _ to_datetime dt_date _ _ w Hload Hne).
  set (r := fresh (dom (frames w))).
  assert (Hraw : column_lookup "timestamp" (data (concatenated dfs))
                 = Some (stacked_cells "timestamp" dfs))
    by (apply concatenated_lookup; [now apply concatenated_labels | exact H1]).
  unfold bind at 1.
  rewrite (run_df_getitem _ r _ "timestamp" _ (frames_put _ _ _) Hraw).
  unfold bind at 1. unfold lift at 1. rewrite Hparse.
  unfold bind at 1.
  rewrite (run_df_setitem _ r (concatenated dfs) "timestamp" parsed
             (frames_put _ _ _) Hlp).
  rewrite put_put.
  set (df1 := mkDF (index_len (concatenated dfs))
                (column_assign "timestamp" parsed (data (concatenated dfs)))).
  unfold bind at 1.
  rewrite (run_df_getitem _ r df1 "timestamp" parsed (frames_put _ _ _)
             (column_lookup_assign_eq _ _ _)).
  unfold bind at 1. unfold lift at 1. rewrite Hdate.
  unfold bind at 1.
  rewrite (run_df_setitem _ r df1 "event_date" dates (frames_put _ _ _) Hld).
  rewrite put_put. reflexivity.
Qed.





(** The event loader fails fast: with no path at all it raises the
    [ValueError] of [pd.concat]; otherwise it raises the error of the
    first file that cannot be read.  In both cases the store of frames is
    as before and the date parser is not called. *)
Theorem event_loader_fails_fast
  (read_json : string -> result DataFrame)
  (to_datetime dt_date : list value -> result (list value)) (w : world) :
  load_user_events read_json to_datetime dt_date [] w =
    (Raise (ValueError "No objects to concatenate"), w) /\
  forall before path after e,
    Forall (fun q => exists df, read_json q = Ok df) before ->
    read_json path = Raise e ->
    load_user_events read_json to_datetime dt_date (before ++ path :: after) w
      = (Raise e, w).
Proof.
  split; [reflexivity|].
  intros before path after e Hbefore Hpath.
  assert (H : load_event_files read_json (before ++ path :: after) = Raise e).
  { induction Hbefore as [|q before [df Hq] _ IH]; cbn [app load_event_files].
    - now rewrite Hpath.
    - rewrite Hq. cbn [rbind]. now rewrite IH. }
  unfold load_user_events, bind, lift. now rewrite H.
Qed.

Lemma event_loader_fails_fast_witness :
  let read_json := fun p : string =>
    if String.eqb p "a.json" then Ok raw_events
    else Raise (ValueError "Expected object or value") in
  load_user_events read_json sample_to_datetime sample_dt_date
    ["a.json"; "broken.json"; "a.json"] scenario_world
  = (Raise (ValueError "Expected object or value"), scenario_world).
Proof.
  intros read_json.
  apply (proj2 (event_loader_fails_fast read_json sample_to_datetime
                  sample_dt_date scenario_world)
           ["a.json"] "broken.json" ["a.json"]
           (ValueError "Expected object or value")).
  - constructor; [|constructor]. exists raw_events. reflexivity.
  - reflexivity.
Defined.

(** Once the files are read, a failure of the event loader leaves every
    frame that existed as it was.  The failure is [KeyError] for
    [timestamp] when no file has that column, and then the date parser is
    not called; it is the parser's own error when every file has a
    [timestamp] column of one dtype and the parser rejects the stacked
    cells. *)
Theorem event_loader_requires_timestamp
  (read_json : string -> result DataFrame)
  (to_datetime dt_date : list value -> result (list value))
  (json_paths : list string) (dfs : list DataFrame) (w : world) :
  load_event_files read_json json_paths = Ok dfs ->
  dfs <> [] ->
  exists w',
    (forall q df, frames w !! q = Some df -> frames w' !! q = Some df) /\
    ((forall df, df ∈ dfs -> "timestamp" ∉ columns df) ->
       load_user_events read_json to_datetime dt_date json_paths w
         = (Raise (KeyError "timestamp"), w')) /\
    (forall e,
       one_dtype "timestamp" dfs ->
       to_datetime (stacked_cells "timestamp" dfs) = Raise e ->
       load_user_events read_json to_datetime dt_date json_paths w
         = (Raise e, w')).
Proof.
  intros Hload Hne.
  rewrite (run_load_user_events_head _ to_datetime dt_date _ _ w Hload Hne).
  set (combined := concatenated dfs).
  set (r := fresh (dom (frames w))).
  exists (put w r combined). split; [|split].
  - intros q df Hq. rewrite frames_put_ne; [exact Hq|].
    intros <-. subst r. rewrite fresh_ref_unused in Hq. discriminate.
  - intros Hnone.
    assert (Hmiss : column_lookup "timestamp" (data combined) = None).
    { apply column_lookup_None_label. intros Hin.
      apply (concatenated_labels dfs) in Hin as (df & Hdf & Hc).
      exact (Hnone df Hdf Hc). }
    unfold bind at 1.
    now rewrite (run_df_getitem_missing _ r combined "timestamp"
                   (frames_put _ _ _) Hmiss).
  - intros e H1 Hparse.
    assert (Hraw : column_lookup "timestamp" (data combined)
                   = Some (stacked_cells "timestamp" dfs)).
    { apply concatenated_lookup; [|exact H1]. apply concatenated_labels.
      destruct dfs as [|df0 dfs0]; [congruence|]. exists df0. split; [left|].
      destruct H1 as [d H1]. inversion H1 as [|? ? (cells & Hc & _) _]; subst.
      eapply column_lookup_Some_label, Hc. }
    unfold bind at 1.
    rewrite (run_df_getitem _ r combined "timestamp" _ (frames_put _ _ _) Hraw).
    unfold bind at 1. unfold lift at 1. now rewrite Hparse.
Qed.

Lemma event_loader_requires_timestamp_witness :
  let read_json := fun _ : string => Ok scenario_profiles in
  exists w',
    (forall q df, frames scenario_world !! q = Some df -> frames w' !! q = Some df) /\
    load_user_events read_json sample_to_datetime sample_dt_date ["a.json"]
      scenario_world = (Raise (KeyError "timestamp"), w').
Proof.
  intros read_json.
  destruct (event_loader_requires_timestamp read_json sample_to_datetime
              sample_dt_date ["a.json"] [scenario_profiles] scenario_world
              eq_refl ltac:(discriminate)) as (w' & Hkeep & Hkey & _).
  exists w'. split; [exact Hkeep|].
  apply Hkey. intros df Hdf. apply list_elem_of_singleton in Hdf. subst df.
  intros Hin. repeat (apply elem_of_cons in Hin as [Hin|Hin]; [discriminate|]).
  inversion Hin.
Defined.

(** ** The transform stages end to end *)

Lemma column_lookup_label_segment c l (d : list (string * list value)) :
  column_lookup c (List.filter (fun cd => String.eqb (fst cd) l) d) =
  if String.eqb l c then column_lookup c d else None.
Proof.
  induction d as [|[k v] d IH]; cbn [List.filter fst column_lookup].
  - now destruct (String.eqb l c).
  - destruct (String.eqb_spec k l) as [->|Hkl]; cbn [column_lookup].
    + destruct (String.eqb_spec l c); [reflexivity | exact IH].
    + rewrite IH. destruct (String.eqb_spec l c) as [->|Hlc]; [|reflexivity].
      destruct (String.eqb_spec k c); [congruence | reflexivity].
Qed.

(** The cells of a projected column are those of the first column with
    that label in the input. *)
Lemma column_lookup_selected c (d : list (string * list value)) : forall labels,
  c ∈ labels ->
  column_lookup c
    (flat_map (fun l => List.filter (fun cd => String.eqb (fst cd) l) d) labels)
  = column_lookup c d.
Proof.
  induction labels as [|l labels IH]; intros Hc; [inversion Hc|].
  cbn [flat_map]. rewrite column_lookup_app, column_lookup_label_segment.
  destruct (String.eqb_spec l c) as [->|Hne].
  - destruct (column_lookup c d) as [cells|] eqn:E; [reflexivity|].
    assert (Hnone : forall ls,
      column_lookup c
        (flat_map (fun l => List.filter (fun cd => String.eqb (fst cd) l) d) ls)
      = None).
    { induction ls as [|l' ls IHls]; [reflexivity|].
      cbn [flat_map]. rewrite column_lookup_app, column_lookup_label_segment, E.
      now destruct (String.eqb l' c). }
    apply Hnone.
  - apply IH. apply elem_of_cons in Hc as [?|?]; [congruence | assumption].
Qed.

Lemma frames_put_is_Some w a df q :
  is_Some (frames w !! q) -> is_Some (frames (put w a df) !! q).
Proof.
  intros H. destruct (Nat.eq_dec a q) as [->|Hne].
  - rewrite frames_put. eauto.
  - now rewrite frames_put_ne.
Qed.

Lemma elem_of_projected_labels fields df c :
  c ∈ columns (projected fields df) ->
  c ∈ columns df /\ c ∈ select_final_column_list fields.
Proof.
  unfold projected. rewrite columns_mk. cbn [data]. intros Hc.
  apply elem_of_map in Hc as (cd & -> & Hcd).
  apply list_elem_of_In, in_flat_map in Hcd as (l & Hl & Hcd).
  apply filter_In in Hcd as [Hin Hcd]. apply String.eqb_eq in Hcd. subst l.
  apply filter_In in Hl as [Hl _]. split; [|now apply list_elem_of_In].
  unfold columns. apply elem_of_map. exists cd.
  split; [reflexivity | now apply list_elem_of_In].
Qed.

Lemma projected_lookup fields df c cells :
  c ∈ select_final_column_list fields ->
  column_lookup c (data df) = Some cells ->
  column_lookup c (data (projected fields df)) = Some cells.
Proof.
  intros Hc Hl. unfold projected. cbn [data].
  rewrite column_lookup_selected; [exact Hl|].
  apply list_elem_of_In, filter_In. split; [now apply list_elem_of_In|].
  apply label_in_spec. eapply column_lookup_Some_label, Hl.
Qed.

(** Where a label of a left join comes from: an unrenamed label of the
    left frame that is the key or no label of the right frame, an
    unrenamed label of the right frame that is no label of the left one,
    or a label with one of the two suffixes. *)
Lemma merge_left_labels left right key out c :
  merge_left left right key = Ok out ->
  c ∈ columns out ->
  (c ∈ columns left /\ (c = key \/ c ∉ columns right)) \/
  (c ∈ columns right /\ c <> key /\ c ∉ columns left) \/
  (exists l, c = l +:+ "_x") \/ (exists l, c = l +:+ "_y").
Proof.
  unfold merge_left, frame_getitem.
  destruct (column_lookup key (data left)) as [lkeys|]; [|discriminate].
  destruct (column_lookup key (data right)) as [rkeys|]; [|discriminate].
  cbn [rbind].
  destruct (coerce_merge_keys key lkeys rkeys) as [[lk rk]|]; [|discriminate].
  cbn [rbind fst snd].
  destruct (suffix_dups _ _ ++ suffix_dups _ _); [|discriminate].
  intros H. inversion H; subst out; clear H.
  rewrite columns_mk. cbn [data].
  rewrite map_app, !map_map, elem_of_app, !elem_of_map.
  intros [(cd & Hc & Hcd)|(cd & Hc & Hcd)]; cbn [fst] in Hc.
  - unfold left_label in Hc.
    destruct (label_in (fst cd)
                (map fst (List.filter (fun cd0 => negb (String.eqb (fst cd0) key))
                            (data right)))) eqn:E.
    + right; right; left. now exists (fst cd).
    + left. subst c. split.
      * unfold columns. apply elem_of_map. now exists cd.
      * destruct (String.eqb_spec (fst cd) key) as [Hk|Hk]; [now left|].
        right. intros Hin. apply label_in_false in E. apply E.
        apply elem_of_filter_labels. split; assumption.
  - assert (Hr : fst cd ∈ map fst (List.filter
                    (fun cd0 => negb (String.eqb (fst cd0) key)) (data right))).
    { apply elem_of_map. now exists cd. }
    apply elem_of_filter_labels in Hr as [Hr Hk].
    unfold right_label in Hc.
    destruct (label_in (fst cd) (columns left)) eqn:E.
    + right; right; right. now exists (fst cd).
    + right; left. subst c. split; [exact Hr|]. split; [exact Hk|].
      now apply label_in_false.
Qed.

(** *** Labels that make no clash *)

Lemma append_inj_l s : forall a b, a +:+ s = b +:+ s -> a = b.
Proof.
  induction a as [|c a IH]; intros [|c' b] H.
  - reflexivity.
  - exfalso. apply (f_equal String.length) in H.
    rewrite append_nil, append_cons in H. cbn [String.length] in H.
    rewrite length_append in H. lia.
  - exfalso. apply (f_equal String.length) in H.
    rewrite append_nil, append_cons in H. cbn [String.length] in H.
    rewrite length_append in H. lia.
  - rewrite !append_cons in H. inversion H. f_equal. now apply IH.
Qed.

Lemma duplicated_rename (ren : string -> string) : forall l seen,
  (forall a b, a ∈ seen ++ l -> b ∈ seen ++ l -> ren a = ren b -> a = b) ->
  duplicated (map ren seen) (map ren l) = duplicated seen l.
Proof.
  induction l as [|x l IH]; intros seen Hinj; [reflexivity|].
  cbn [map duplicated]. f_equal.
  - destruct (label_in x seen) eqn:E.
    + apply label_in_spec. apply label_in_spec in E.
      apply elem_of_map. now exists x.
    + apply label_in_false. apply label_in_false in E. intros Hin.
      apply elem_of_map in Hin as (y & Hy & Hyin). apply Hinj in Hy.
      * now subst.
      * apply elem_of_app. right. left.
      * apply elem_of_app. now left.
  - change (ren x :: map ren seen) with (map ren (x :: seen)). apply IH.
    intros a b Ha Hb. apply Hinj.
    + rewrite elem_of_app, elem_of_cons in *. tauto.
    + rewrite elem_of_app, elem_of_cons in *. tauto.
Qed.

Lemma pick_suffix_dups_same renamed : forall d, pick_suffix_dups renamed d d = [].
Proof.
  induction renamed as [|x renamed IH]; intros [|b d]; cbn [pick_suffix_dups];
    try reflexivity.
  destruct b; cbn [andb negb]; apply IH.
Qed.

Lemma suffix_dups_injective (ren : string -> string) labels :
  (forall a b, a ∈ labels -> b ∈ labels -> ren a = ren b -> a = b) ->
  suffix_dups labels (map ren labels) = [].
Proof.
  intros H. unfold suffix_dups.
  change (duplicated [] (map ren labels))
    with (duplicated (map ren []) (map ren labels)).
  rewrite duplicated_rename by exact H. apply pick_suffix_dups_same.
Qed.

(** When no label of the left frame ends in [_x] and no label of the
    right frame ends in [_y], the suffixes make no two labels equal. *)
Lemma plain_labels_no_clash left right key :
  Forall (fun c => has_suffix "_x" c = false) (columns left) ->
  Forall (fun c => has_suffix "_y" c = false) (columns right) ->
  no_suffix_clash left right key.
Proof.
  intros Hx Hy. rewrite Forall_forall in Hx, Hy. split.
  - apply suffix_dups_injective. intros a b Ha Hb. unfold left_label.
    destruct (label_in a _), (label_in b _); intros H.
    + now apply append_inj_l in H.
    + exfalso. specialize (Hx b Hb). rewrite <- H, has_suffix_append in Hx.
      discriminate.
    + exfalso. specialize (Hx a Ha). rewrite H, has_suffix_append in Hx.
      discriminate.
    + exact H.
  - apply suffix_dups_injective. intros a b Ha Hb.
    apply elem_of_filter_labels in Ha as [Ha _].
    apply elem_of_filter_labels in Hb as [Hb _].
    unfold right_label.
    destruct (label_in a _), (label_in b _); intros H.
    + now apply append_inj_l in H.
    + exfalso. specialize (Hy b Hb). rewrite <- H, has_suffix_append in Hy.
      discriminate.
    + exfalso. specialize (Hy a Ha). rewrite H, has_suffix_append in Hy.
      discriminate.
    + exact H.
Qed.

(** The labels of the event frame after the flattener. *)
Lemma flattened_labels fields raw ef det c :
  column_lookup "details" (data ef) = Some det ->
  c ∈ columns (flattened fields raw ef) <->
  c ∈ columns ef \/ c = "details_raw" \/ c ∈ extract_all_fields fields.
Proof.
  intros Hd. unfold flattened. rewrite columns_mk. cbn [data].
  rewrite (labels_project_fields _ _ det);
    [| apply strictly_ascending_NoDup, extract_all_fields_effective
     | now rewrite column_lookup_assign_ne by discriminate].
  rewrite elem_of_app. unfold fresh_labels.
  rewrite (list_elem_of_In (List.filter _ _) c), filter_In, <- list_elem_of_In.
  rewrite negb_true_iff, label_in_false.
  assert (Hl : c ∈ map fst (column_assign "details_raw" raw (data ef)) <->
               c ∈ columns ef \/ c = "details_raw").
  { rewrite labels_assign. unfold columns.
    destruct (label_in "details_raw" (map fst (data ef))) eqn:E.
    - apply label_in_spec in E. split; [now left|]. intros [H| ->]; assumption.
    - rewrite elem_of_app, list_elem_of_singleton. reflexivity. }
  rewrite Hl. split.
  - intros [[H|H]|[H _]]; auto.
  - intros [H|[H|H]]; [left; now left | left; now right|].
    destruct (decide (c ∈ columns ef \/ c = "details_raw")) as [Hin|Hout];
      [now left | right; now split].
Qed.

Lemma flattened_no_clash fields raw ef pf det :
  column_lookup "details" (data ef) = Some det ->
  Forall (fun c => has_suffix "_x" c = false) (columns ef ++ or_empty fields) ->
  Forall (fun c => has_suffix "_y" c = false) (columns pf) ->
  no_suffix_clash (flattened fields raw ef) pf "user_id".
Proof.
  intros Hd Hx Hy. apply plain_labels_no_clash; [|exact Hy].
  apply Forall_forall. intros c Hc. rewrite Forall_forall in Hx.
  apply (flattened_labels fields raw ef det c Hd) in Hc as [Hc|[->|Hc]].
  - apply Hx, elem_of_app. now left.
  - reflexivity.
  - apply (proj2 (extract_all_fields_effective fields)) in Hc.
    destruct Hc as [Hc|Hc]; [|apply Hx, elem_of_app; now right].
    repeat (apply elem_of_cons in Hc as [->|Hc]; [reflexivity|]).
    inversion Hc.
Qed.

(** The run of the four stages, frame by frame: the flattener rewrites
    the event frame in place, the joiner makes a new frame, the identity
    assigner rewrites that one in place, the projector makes the frame
    that is returned. *)
Lemma run_transform_steps w p e pf ef det ekeys pkeys fields :
  frames w !! p = Some pf ->
  frames w !! e = Some ef ->
  p <> e ->
  column_lookup "details" (data ef) = Some det ->
  length det = index_len ef ->
  Forall (fun x => json_serializable x = true) det ->
  column_lookup "user_id" (data ef) = Some ekeys ->
  column_lookup "user_id" (data pf) = Some pkeys ->
  "user_id" ∉ or_empty fields ->
  same_kind_keys ekeys pkeys ->
  Forall (fun c => has_suffix "_x" c = false) (columns ef ++ or_empty fields) ->
  Forall (fun c => has_suffix "_y" c = false) (columns pf) ->
  let ix := left_indexer ekeys pkeys 0 in
  let ids := map (event_id_of_draw w) (seq (drawn w) (length ix)) in
  exists raw dj r w',
    series_apply dumps_cell det = Ok raw /\
    column_lookup "user_id" (data (flattened fields raw ef)) = Some ekeys /\
    no_suffix_clash (flattened fields raw ef) pf "user_id" /\
    merge_left (flattened fields raw ef) pf "user_id" = Ok (mkDF (length ix) dj) /\
    run_transform p e fields w = (Ok r, w') /\
    frames w !! r = None /\
    frames w' !! r =
      Some (projected fields
              (mkDF (length ix) (column_assign "event_id" ids dj))) /\
    frames w' !! p = Some pf /\
    drawn w' = (drawn w + length ix)%nat.
Proof.
  intros Hp He Hpe Hd Hn Hser Hek Hpk Hreq Hkind Hsx Hsy ix ids.
  destruct (series_apply_dumps_total det Hser) as [raw Hraw].
  pose proof (flattened_no_clash fields raw ef pf det Hd Hsx Hsy) as Hclash.
  pose proof (run_extract_details_fields w e ef det raw fields He Hd Hn Hraw) as E1.
  fold (flattened fields raw ef) in E1.
  set (ef1 := flattened fields raw ef) in *.
  set (w1 := put w e ef1) in *.
  assert (Hkey_not_eff : "user_id" ∉ extract_all_fields fields).
  { intros Hin. apply (proj2 (extract_all_fields_effective fields)) in Hin.
    destruct Hin as [Hin|Hin]; [|contradiction].
    repeat (apply elem_of_cons in Hin as [Hin|Hin]; [discriminate|]).
    inversion Hin. }
  assert (Hek1 : column_lookup "user_id" (data ef1) = Some ekeys).
  { subst ef1. unfold flattened. cbn [data].
    rewrite project_fields_lookup_other by assumption.
    now rewrite column_lookup_assign_ne by discriminate. }
  assert (Hp1 : frames w1 !! p = Some pf)
    by (subst w1; rewrite frames_put_ne by congruence; exact Hp).
  assert (He1 : frames w1 !! e = Some ef1) by apply frames_put.
  destruct (merge_left_columns ef1 pf "user_id" ekeys pkeys Hek1 Hpk Hkind Hclash)
    as (dj & Hm & _).
  fold ix in Hm.
  pose proof (run_join_data w1 p e pf ef1 _ Hp1 He1 Hm) as E2.
  set (r2 := fresh (dom (frames w1))) in *.
  set (j := mkDF (length ix) dj) in *.
  set (w2 := put w1 r2 j) in *.
  assert (Hr2p : r2 <> p).
  { intros Heq. pose proof (fresh_ref_unused w1) as Hf. fold r2 in Hf.
    rewrite Heq, Hp1 in Hf. discriminate. }
  pose proof (run_generate_event_id w2 r2 j (frames_put _ _ _)) as E3.
  cbn [index_len data j] in E3.
  change (event_id_of_draw w2) with (event_id_of_draw w) in E3.
  change (drawn w2) with (drawn w) in E3.
  fold ids in E3.
  set (j2 := mkDF (length ix) (column_assign "event_id" ids dj)) in *.
  set (w3 := put (advance w2 (length ix)) r2 j2) in *.
  pose proof (run_select_final_columns w3 r2 j2 fields (frames_put _ _ _)) as E4.
  fold (projected fields j2) in E4.
  set (r3 := fresh (dom (frames w3))) in *.
  exists raw, dj, r3, (put w3 r3 (projected fields j2)).
  split; [exact Hraw|]. split; [exact Hek1|]. split; [exact Hclash|].
  split; [exact Hm|].
  split.
  { unfold run_transform. unfold bind at 1. rewrite E1.
    unfold bind at 1. rewrite E2. unfold bind at 1. rewrite E3. exact E4. }
  split.
  { pose proof (fresh_ref_unused w3) as Hf. fold r3 in Hf.
    destruct (frames w !! r3) as [x|] eqn:Ex; [|reflexivity].
    assert (Hs : is_Some (frames w3 !! r3)).
    { subst w3 w2 w1. repeat apply frames_put_is_Some.
      change (frames (advance (put (put w e ef1) r2 j) (length ix)))
        with (frames (put (put w e ef1) r2 j)).
      repeat apply frames_put_is_Some. rewrite Ex. eauto. }
    rewrite Hf in Hs. destruct Hs as [? Hs]. discriminate. }
  split; [apply frames_put|].
  split; [|reflexivity].
  assert (Hr3p : r3 <> p).
  { intros Heq. pose proof (fresh_ref_unused w3) as Hf. fold r3 in Hf.
    rewrite Heq in Hf. subst w3. rewrite frames_put_ne in Hf by assumption.
    change (frames (advance w2 (length ix))) with (frames w2) in Hf.
    subst w2. rewrite frames_put_ne in Hf by assumption.
    rewrite Hp1 in Hf. discriminate. }
  rewrite frames_put_ne by assumption. subst w3.
  rewrite frames_put_ne by assumption.
  change (frames (advance w2 (length ix))) with (frames w2).
  subst w2. rewrite frames_put_ne by assumption. exact Hp1.
Qed.

(** The columns of the frame the projector makes from the joined frame
    with its identifiers. *)
Lemma transform_event_column fields raw ef pf ekeys pkeys dj ids c cells :
  column_lookup "user_id" (data (flattened fields raw ef)) = Some ekeys ->
  column_lookup "user_id" (data pf) = Some pkeys ->
  same_kind_keys ekeys pkeys ->
  no_suffix_clash (flattened fields raw ef) pf "user_id" ->
  let ix := left_indexer ekeys pkeys 0 in
  merge_left (flattened fields raw ef) pf "user_id" = Ok (mkDF (length ix) dj) ->
  c ∈ select_final_column_list fields ->
  column_lookup c (data ef) = Some cells ->
  c = "user_id" \/ c ∉ columns pf ->
  c ∉ extract_all_fields fields -> c <> "details_raw" -> c <> "event_id" ->
  has_suffix "_x" c = false ->
  column_lookup c
    (data (projected fields (mkDF (length ix) (column_assign "event_id" ids dj))))
  = Some (take_left cells ix).
Proof.
  intros Hek1 Hpk Hkind Hclash ix Hm Hc Hl Hnp Hne Hraw Hid Hx.
  destruct (merge_left_columns _ pf "user_id" ekeys pkeys Hek1 Hpk Hkind Hclash)
    as (dj' & Hm' & Hev & _).
  fold ix in Hm', Hev. rewrite Hm in Hm'. inversion Hm'; subst dj'; clear Hm'.
  apply projected_lookup; [exact Hc|]. cbn [data].
  rewrite column_lookup_assign_ne by congruence.
  apply Hev; [|exact Hnp | now apply no_suffix_ne].
  unfold flattened. cbn [data].
  rewrite project_fields_lookup_other by assumption.
  now rewrite column_lookup_assign_ne by congruence.
Qed.

Lemma transform_profile_column fields raw ef pf det ekeys pkeys dj ids c cells :
  column_lookup "details" (data ef) = Some det ->
  column_lookup "user_id" (data (flattened fields raw ef)) = Some ekeys ->
  column_lookup "user_id" (data pf) = Some pkeys ->
  same_kind_keys ekeys pkeys ->
  no_suffix_clash (flattened fields raw ef) pf "user_id" ->
  let ix := left_indexer ekeys pkeys 0 in
  merge_left (flattened fields raw ef) pf "user_id" = Ok (mkDF (length ix) dj) ->
  c ∈ select_final_column_list fields ->
  column_lookup c (data pf) = Some cells ->
  c ∉ columns ef ->
  c ∉ extract_all_fields fields -> c <> "details_raw" -> c <> "event_id" ->
  c <> "user_id" ->
  has_suffix "_x" c = false -> has_suffix "_y" c = false ->
  column_lookup c
    (data (projected fields (mkDF (length ix) (column_assign "event_id" ids dj))))
  = Some (take_right cells ix).
Proof.
  intros Hd Hek1 Hpk Hkind Hclash ix Hm Hc Hl Hne Hneff Hraw Hid Hkey Hx Hy.
  destruct (merge_left_columns _ pf "user_id" ekeys pkeys Hek1 Hpk Hkind Hclash)
    as (dj' & Hm' & _ & Hpr).
  fold ix in Hm', Hpr. rewrite Hm in Hm'. inversion Hm'; subst dj'; clear Hm'.
  apply projected_lookup; [exact Hc|]. cbn [data].
  rewrite column_lookup_assign_ne by congruence.
  apply Hpr; [exact Hl | exact Hkey | | now apply no_suffix_ne
             | now apply no_suffix_ne].
  rewrite (flattened_labels _ _ _ det) by assumption.
  intros [H|[H|H]]; contradiction.
Qed.

Lemma transform_shared_label fields raw ef pf det dj n ids c :
  column_lookup "details" (data ef) = Some det ->
  merge_left (flattened fields raw ef) pf "user_id" = Ok (mkDF n dj) ->
  c ∈ columns pf ->
  c ∈ columns ef \/ c = "details_raw" \/ c ∈ extract_all_fields fields ->
  c <> "user_id" -> c <> "event_id" ->
  has_suffix "_x" c = false -> has_suffix "_y" c = false ->
  c ∉ columns (projected fields (mkDF n (column_assign "event_id" ids dj))).
Proof.
  intros Hd Hm Hcp Hce Hkey Hid Hx Hy Hc.
  apply elem_of_projected_labels in Hc as [Hc _].
  rewrite columns_mk, labels_assign in Hc.
  assert (Hj : c ∈ map fst dj).
  { destruct (label_in "event_id" (map fst dj)); [exact Hc|].
    apply elem_of_app in Hc as [Hc|Hc]; [exact Hc|].
    apply list_elem_of_singleton in Hc. contradiction. }
  apply (flattened_labels fields raw ef det c Hd) in Hce.
  destruct (merge_left_labels _ _ _ _ c Hm Hj)
    as [[_ [H|H]]|[(_ & _ & H)|[[l H]|[l H]]]].
  - contradiction.
  - contradiction.
  - contradiction.
  - symmetry in H. now apply (no_suffix_ne "_x" c Hx l).
  - symmetry in H. now apply (no_suffix_ne "_y" c Hy l).
Qed.

(** The four transform stages in a row, as [run_etl] chains them.  On an
    event frame with [details] and [user_id] columns and a profile frame
    with a [user_id] column ([user_id] not being requested as a detail
    field), they succeed and return a new frame: its row count is the
    number of pairs of the join, its only labels are names of the final
    column list, its [event_id] column holds the identifiers made from the
    next answers of the entropy source, one per row, and its [user_id]
    column the event keys.  The profile frame is as before. *)
Theorem run_transform_end_to_end w p e pf ef det ekeys pkeys fields :
  frames w !! p = Some pf ->
  frames w !! e = Some ef ->
  p <> e ->
  column_lookup "details" (data ef) = Some det ->
  length det = index_len ef ->
  Forall (fun x => json_serializable x = true) det ->
  column_lookup "user_id" (data ef) = Some ekeys ->
  column_lookup "user_id" (data pf) = Some pkeys ->
  "user_id" ∉ or_empty fields ->
  same_kind_keys ekeys pkeys ->
  Forall (fun c => has_suffix "_x" c = false) (columns ef ++ or_empty fields) ->
  Forall (fun c => has_suffix "_y" c = false) (columns pf) ->
  exists r out w',
    run_transform p e fields w = (Ok r, w') /\
    frames w !! r = None /\
    frames w' !! r = Some out /\
    frames w' !! p = Some pf /\
    index_len out = length (left_indexer ekeys pkeys 0) /\
    index_len out =
      sum_list_with (fun k => Nat.max 1 (match_count k pkeys)) ekeys /\
    drawn w' = (drawn w + index_len out)%nat /\
    (forall c, c ∈ columns out -> c ∈ select_final_column_list fields) /\
    column_lookup "event_id" (data out) =
      Some (map (event_id_of_draw w) (seq (drawn w) (index_len out))) /\
    column_lookup "user_id" (data out) =
      Some (map (fun pr => nth (fst pr) ekeys NA) (left_indexer ekeys pkeys 0)).
Proof.
  intros Hp He Hpe Hd Hn Hser Hek Hpk Hreq Hkind Hsx Hsy.
  destruct (run_transform_steps w p e pf ef det ekeys pkeys fields
              Hp He Hpe Hd Hn Hser Hek Hpk Hreq Hkind Hsx Hsy)
    as (raw & dj & r & w' & Hraw & Hek1 & Hclash & Hm & Hrun & Hfresh & Hout
        & Hpf & Hdr).
  eexists r, _, w'. split; [exact Hrun|]. split; [exact Hfresh|].
  split; [exact Hout|]. split; [exact Hpf|].
  split; [reflexivity|]. split; [apply length_left_indexer|].
  split; [exact Hdr|].
  split; [intros c Hc; now apply elem_of_projected_labels in Hc|].
  split.
  - apply projected_lookup; [left | apply column_lookup_assign_eq].
  - apply (transform_event_column fields raw ef pf ekeys pkeys dj _ "user_id" ekeys
             Hek1 Hpk Hkind Hclash Hm); [right; left | exact Hek | now left | | discriminate
                           | discriminate | reflexivity].
    intros Hin. apply (proj2 (extract_all_fields_effective fields)) in Hin.
    destruct Hin as [Hin|Hin]; [|contradiction].
    repeat (apply elem_of_cons in Hin as [Hin|Hin]; [discriminate|]).
    inversion Hin.
Qed.

Lemma run_transform_end_to_end_witness :
  frames scenario_world !! 0%nat = Some scenario_profiles /\
  frames scenario_world !! 1%nat = Some scenario_events /\
  exists r out w',
    run_transform 0 1 None scenario_world = (Ok r, w') /\
    frames scenario_world !! r = None /\
    frames w' !! r = Some out /\
    frames w' !! 0%nat = Some scenario_profiles /\
    index_len out = length (left_indexer [VInt 1; VInt 3] [VInt 1; VInt 2] 0) /\
    index_len out =
      sum_list_with (fun k => Nat.max 1 (match_count k [VInt 1; VInt 2]))
        [VInt 1; VInt 3] /\
    drawn w' = (drawn scenario_world + index_len out)%nat /\
    (forall c, c ∈ columns out -> c ∈ select_final_column_list None) /\
    column_lookup "event_id" (data out) =
      Some (map (event_id_of_draw scenario_world)
              (seq (drawn scenario_world) (index_len out))) /\
    column_lookup "user_id" (data out) =
      Some (map (fun pr => nth (fst pr) [VInt 1; VInt 3] NA)
              (left_indexer [VInt 1; VInt 3] [VInt 1; VInt 2] 0)).
Proof.
  split; [reflexivity|]. split; [reflexivity|].
  apply (run_transform_end_to_end scenario_world 0 1 scenario_profiles
           scenario_events [VDict [("page_url", VStr "/x")]; VNone]
           [VInt 1; VInt 3] [VInt 1; VInt 2] None);
    [reflexivity | reflexivity | discriminate | reflexivity | reflexivity
    | repeat constructor | reflexivity | reflexivity
    | simpl; apply not_elem_of_nil
    | left; split; repeat constructor; eexists; split; reflexivity
    | repeat constructor | repeat constructor].
Defined.

(** What reaches the output of the transform stages.  A column of the
    event frame that the flattener does not write, whose label is in the
    final list and is no label of the profile frame, holds the event's
    cell on every row of the join.  A column of the profile frame whose
    label is in the final list and is no label of the flattened event
    frame holds the matched profile's cell, the missing marker where
    there is no match. *)
Theorem transform_passes_columns_through w p e pf ef det ekeys pkeys fields :
  frames w !! p = Some pf ->
  frames w !! e = Some ef ->
  p <> e ->
  column_lookup "details" (data ef) = Some det ->
  length det = index_len ef ->
  Forall (fun x => json_serializable x = true) det ->
  column_lookup "user_id" (data ef) = Some ekeys ->
  column_lookup "user_id" (data pf) = Some pkeys ->
  "user_id" ∉ or_empty fields ->
  same_kind_keys ekeys pkeys ->
  Forall (fun c => has_suffix "_x" c = false) (columns ef ++ or_empty fields) ->
  Forall (fun c => has_suffix "_y" c = false) (columns pf) ->
  let ix := left_indexer ekeys pkeys 0 in
  exists r out w',
    run_transform p e fields w = (Ok r, w') /\
    frames w' !! r = Some out /\
    (forall c cells,
       c ∈ select_final_column_list fields ->
       column_lookup c (data ef) = Some cells ->
       c ∉ columns pf ->
       c ∉ extract_all_fields fields -> c <> "details_raw" -> c <> "event_id" ->
       has_suffix "_x" c = false ->
       column_lookup c (data out) = Some (take_left cells ix)) /\
    (forall c cells,
       c ∈ select_final_column_list fields ->
       column_lookup c (data pf) = Some cells ->
       c ∉ columns ef ->
       c ∉ extract_all_fields fields -> c <> "details_raw" -> c <> "event_id" ->
       c <> "user_id" ->
       has_suffix "_x" c = false -> has_suffix "_y" c = false ->
       column_lookup c (data out) = Some (take_right cells ix)).
Proof.
  intros Hp He Hpe Hd Hn Hser Hek Hpk Hreq Hkind Hsx Hsy ix.
  destruct (run_transform_steps w p e pf ef det ekeys pkeys fields
              Hp He Hpe Hd Hn Hser Hek Hpk Hreq Hkind Hsx Hsy)
    as (raw & dj & r & w' & Hraw & Hek1 & Hclash & Hm & Hrun & Hfresh & Hout
        & Hpf & Hdr).
  eexists r, _, w'. split; [exact Hrun|]. split; [exact Hout|]. split.
  - intros c cells Hc Hl Hnp Hne Hraw' Hid Hx.
    apply (transform_event_column fields raw ef pf ekeys pkeys dj _ c cells
             Hek1 Hpk Hkind Hclash Hm); auto.
  - intros c cells Hc Hl Hne Hneff Hraw' Hid Hkey Hx Hy.
    apply (transform_profile_column fields raw ef pf det ekeys pkeys dj _ c cells
             Hd Hek1 Hpk Hkind Hclash Hm); auto.
Qed.

Lemma transform_passes_columns_through_witness :
  exists r out w',
    run_transform 0 1 None scenario_world = (Ok r, w') /\
    frames w' !! r = Some out /\
    column_lookup "event_date" (data out) =
      Some (take_left [VDate 19754; VDate 19755]
              (left_indexer [VInt 1; VInt 3] [VInt 1; VInt 2] 0)) /\
    column_lookup "name" (data out) =
      Some (take_right [VStr "A"; VStr "B"]
              (left_indexer [VInt 1; VInt 3] [VInt 1; VInt 2] 0)).
Proof.
  destruct (transform_passes_columns_through scenario_world 0 1 scenario_profiles
              scenario_events [VDict [("page_url", VStr "/x")]; VNone]
              [VInt 1; VInt 3] [VInt 1; VInt 2] None)
    as (r & out & w' & Hrun & Hout & Hev & Hpr);
    [reflexivity | reflexivity | discriminate | reflexivity | reflexivity
    | repeat constructor | reflexivity | reflexivity
    | simpl; apply not_elem_of_nil
    | left; split; repeat constructor; eexists; split; reflexivity
    | repeat constructor | repeat constructor |].
  exists r, out, w'. split; [exact Hrun|]. split; [exact Hout|]. split.
  - apply Hev.
    + do 7 right. left.
    + reflexivity.
    + intros H. repeat (apply elem_of_cons in H as [H|H]; [discriminate|]).
      inversion H.
    + intros H. vm_compute in H.
      repeat (apply elem_of_cons in H as [H|H]; [discriminate|]). inversion H.
    + discriminate.
    + discriminate.
    + reflexivity.
  - apply Hpr.
    + do 2 right. left.
    + reflexivity.
    + intros H. repeat (apply elem_of_cons in H as [H|H]; [discriminate|]).
      inversion H.
    + intros H. vm_compute in H.
      repeat (apply elem_of_cons in H as [H|H]; [discriminate|]). inversion H.
    + discriminate.
    + discriminate.
    + discriminate.
    + reflexivity.
    + reflexivity.
Defined.

(** A label carried by both frames does not reach the output: the join
    renames both columns with a suffix, and the projector, which looks
    for the plain name, leaves them out.  This holds for every label
    other than [user_id] and [event_id] that has no such suffix itself,
    and so for [event_date], the column the writer partitions by. *)
Theorem transform_drops_shared_labels w p e pf ef det ekeys pkeys fields c :
  frames w !! p = Some pf ->
  frames w !! e = Some ef ->
  p <> e ->
  column_lookup "details" (data ef) = Some det ->
  length det = index_len ef ->
  Forall (fun x => json_serializable x = true) det ->
  column_lookup "user_id" (data ef) = Some ekeys ->
  column_lookup "user_id" (data pf) = Some pkeys ->
  "user_id" ∉ or_empty fields ->
  same_kind_keys ekeys pkeys ->
  Forall (fun c => has_suffix "_x" c = false) (columns ef ++ or_empty fields) ->
  Forall (fun c => has_suffix "_y" c = false) (columns pf) ->
  c ∈ columns pf ->
  c ∈ columns ef \/ c = "details_raw" \/ c ∈ extract_all_fields fields ->
  c <> "user_id" -> c <> "event_id" ->
  has_suffix "_x" c = false -> has_suffix "_y" c = false ->
  exists r out w',
    run_transform p e fields w = (Ok r, w') /\
    frames w' !! r = Some out /\
    c ∉ columns out.
Proof.
  intros Hp He Hpe Hd Hn Hser Hek Hpk Hreq Hkind Hsx Hsy Hcp Hce Hkey Hid Hx Hy.
  destruct (run_transform_steps w p e pf ef det ekeys pkeys fields
              Hp He Hpe Hd Hn Hser Hek Hpk Hreq Hkind Hsx Hsy)
    as (raw & dj & r & w' & Hraw & Hek1 & Hclash & Hm & Hrun & Hfresh & Hout
        & Hpf & Hdr).
  eexists r, _, w'. split; [exact Hrun|]. split; [exact Hout|].
  now apply (transform_shared_label fields raw ef pf det dj _ _ c Hd Hm).
Qed.

Lemma transform_drops_shared_labels_witness :
  frames dated_world !! 0%nat = Some dated_profiles /\
  frames dated_world !! 1%nat = Some scenario_events /\
  "event_date" ∈ columns dated_profiles /\
  "event_date" ∈ columns scenario_events /\
  exists r out w',
    run_transform 0 1 None dated_world = (Ok r, w') /\
    frames w' !! r = Some out /\
    "event_date" ∉ columns out.
Proof.
  split; [reflexivity|]. split; [reflexivity|].
  split; [do 2 right; left|]. split; [do 4 right; left|].
  apply (transform_drops_shared_labels dated_world 0 1 dated_profiles
           scenario_events [VDict [("page_url", VStr "/x")]; VNone]
           [VInt 1; VInt 3] [VInt 1; VInt 2] None "event_date");
    [reflexivity | reflexivity | discriminate | reflexivity | reflexivity
    | repeat constructor | reflexivity | reflexivity
    | simpl; apply not_elem_of_nil
    | left; split; repeat constructor; eexists; split; reflexivity
    | repeat constructor | repeat constructor
    | do 2 right; left
    | left; do 4 right; left
    | discriminate | discriminate | reflexivity | reflexivity].
Defined.

(** ** The pipeline runner *)

Lemma run_load_user_profiles_ok open_utf8 read_csv paths dfs w :
  load_profile_files open_utf8 read_csv paths = Ok dfs ->
  dfs <> [] ->
  load_user_profiles open_utf8 read_csv paths w =
  (Ok (fresh (dom (frames w))), put w (fresh (dom (frames w))) (concatenated dfs)).
Proof.
  intros Hload Hne. unfold load_user_profiles, bind, lift, new_frame.
  rewrite Hload. destruct dfs as [|df0 dfs0]; [congruence|].
  now rewrite concat_nonempty.
Qed.

Lemma with_dates_lookup parsed dates df c :
  c <> "timestamp" -> c <> "event_date" ->
  column_lookup c (data (with_dates parsed dates df)) = column_lookup c (data df).
Proof.
  intros H1 H2. unfold with_dates. cbn [data].
  now rewrite !column_lookup_assign_ne by congruence.
Qed.

Lemma with_dates_labels parsed dates df c :
  c ∈ columns (with_dates parsed dates df) ->
  c ∈ columns df \/ c = "timestamp" \/ c = "event_date".
Proof.
  unfold with_dates. rewrite columns_mk. cbn [data]. rewrite !labels_assign.
  fold (columns df).
  destruct (label_in "timestamp" (columns df));
    destruct (label_in "event_date" _);
    rewrite ?elem_of_app, ?list_elem_of_singleton; tauto.
Qed.

Lemma one_dtype_carried c dfs :
  one_dtype c dfs -> dfs <> [] -> exists df, df ∈ dfs /\ c ∈ columns df.
Proof.
  intros [d H] Hne. destruct dfs as [|df dfs]; [congruence|].
  exists df. split; [left|].
  inversion H as [|? ? (cells & Hc & _) _]; subst.
  eapply column_lookup_Some_label, Hc.
Qed.

Lemma plain_labels_concatenated suffix dfs c :
  plain_labels suffix dfs -> c ∈ columns (concatenated dfs) ->
  has_suffix suffix c = false.
Proof.
  intros H Hc. apply concatenated_labels in Hc as (df & Hdf & Hc).
  unfold plain_labels in H. rewrite Forall_forall in H.
  specialize (H df Hdf). rewrite Forall_forall in H. now apply H.
Qed.

(** The run of the pipeline when nothing fails before the writer: the
    frames the stages make, and the calls to the file system. *)
Lemma run_etl_steps
  (open_utf8 : string -> result (list N))
  (read_csv : list N -> list string -> result DataFrame)
  (read_json : string -> result DataFrame)
  (to_datetime dt_date : list value -> result (list value))
  (mkdir : string -> result unit)
  (to_parquet : DataFrame -> parquet_target -> option (list string) -> result unit)
  profiles_paths events_paths output_dir fields pdfs edfs parsed dates w :
  load_profile_files open_utf8 read_csv profiles_paths = Ok pdfs ->
  load_event_files read_json events_paths = Ok edfs ->
  pdfs <> [] -> edfs <> [] ->
  Forall full_columns edfs ->
  one_dtype "user_id" pdfs ->
  one_dtype "timestamp" edfs ->
  one_dtype "user_id" edfs ->
  one_dtype "details" edfs ->
  to_datetime (stacked_cells "timestamp" edfs) = Ok parsed ->
  length parsed = length (stacked_cells "timestamp" edfs) ->
  dt_date parsed = Ok dates ->
  length dates = length parsed ->
  Forall (fun x => json_serializable x = true) (stacked_cells "details" edfs) ->
  "user_id" ∉ or_empty fields ->
  same_kind_keys (stacked_cells "user_id" edfs) (stacked_cells "user_id" pdfs) ->
  plain_labels "_x" edfs ->
  Forall (fun c => has_suffix "_x" c = false) (or_empty fields) ->
  plain_labels "_y" pdfs ->
  mkdir output_dir = Ok tt ->
  let pf := concatenated pdfs in
  let ef := with_dates parsed dates (concatenated edfs) in
  let ekeys := stacked_cells "user_id" edfs in
  let pkeys := stacked_cells "user_id" pdfs in
  let ix := left_indexer ekeys pkeys 0 in
  exists raw dj ids w',
    column_lookup "details" (data ef) = Some (stacked_cells "details" edfs) /\
    column_lookup "user_id" (data ef) = Some ekeys /\
    column_lookup "user_id" (data (flattened fields raw ef)) = Some ekeys /\
    column_lookup "user_id" (data pf) = Some pkeys /\
    no_suffix_clash (flattened fields raw ef) pf "user_id" /\
    merge_left (flattened fields raw ef) pf "user_id" = Ok (mkDF (length ix) dj) /\
    let out :=
      projected fields (mkDF (length ix) (column_assign "event_id" ids dj)) in
    run_etl open_utf8 read_csv read_json to_datetime dt_date mkdir to_parquet
      profiles_paths events_paths output_dir fields w =
    ((to_parquet out (Directory output_dir) (Some ["event_date"]),
      [Mkdir output_dir;
       ToParquet out (Directory output_dir) (Some ["event_date"])]), w').
Proof.
  intros Hpl Hel Hpne Hene Hfull Hpu Hts Heu Hed Hparse Hlp Hdate Hld Hser Hreq
         Hkind Hsx Hsf Hsy Hmk pf ef ekeys pkeys ix.
  set (p := fresh (dom (frames w))).
  set (w1 := put w p pf).
  set (e := fresh (dom (frames w1))).
  set (w2 := put w1 e ef).
  assert (Hpe : p <> e).
  { intros Heq. pose proof (fresh_ref_unused w1) as Hf. fold e in Hf.
    rewrite <- Heq in Hf. subst w1. rewrite frames_put in Hf. discriminate. }
  assert (Hp2 : frames w2 !! p = Some pf).
  { subst w2. rewrite frames_put_ne by congruence. apply frames_put. }
  assert (He2 : frames w2 !! e = Some ef) by apply frames_put.
  assert (Hdet : column_lookup "details" (data ef)
                 = Some (stacked_cells "details" edfs)).
  { subst ef. rewrite with_dates_lookup by discriminate.
    apply concatenated_lookup; [|exact Hed].
    now apply concatenated_labels, one_dtype_carried. }
  assert (Hek : column_lookup "user_id" (data ef) = Some ekeys).
  { subst ef. rewrite with_dates_lookup by discriminate.
    apply concatenated_lookup; [|exact Heu].
    now apply concatenated_labels, one_dtype_carried. }
  assert (Hpk : column_lookup "user_id" (data pf) = Some pkeys).
  { apply concatenated_lookup; [|exact Hpu].
    now apply concatenated_labels, one_dtype_carried. }
  assert (Hn : length (stacked_cells "details" edfs) = index_len ef).
  { subst ef. unfold with_dates. cbn [index_len].
    rewrite concatenated_rows. now apply length_stacked_cells. }
  assert (Hsx' : Forall (fun c => has_suffix "_x" c = false)
                   (columns ef ++ or_empty fields)).
  { apply Forall_app. split; [|exact Hsf].
    apply Forall_forall. intros c Hc.
    apply with_dates_labels in Hc as [Hc|[->| ->]]; try reflexivity.
    now apply (plain_labels_concatenated "_x" edfs). }
  assert (Hsy' : Forall (fun c => has_suffix "_y" c = false) (columns pf)).
  { apply Forall_forall. intros c Hc.
    now apply (plain_labels_concatenated "_y" pdfs). }
  destruct (run_transform_steps w2 p e pf ef _ ekeys pkeys fields
              Hp2 He2 Hpe Hdet Hn Hser Hek Hpk Hreq Hkind Hsx' Hsy')
    as (raw & dj & r & w' & Hraw & Hek1 & Hclash & Hm & Hrun & _ & Hout & _ & _).
  exists raw, dj, (map (event_id_of_draw w2) (seq (drawn w2) (length ix))), w'.
  split; [exact Hdet|]. split; [exact Hek|]. split; [exact Hek1|].
  split; [exact Hpk|]. split; [exact Hclash|]. split; [exact Hm|].
  cbv zeta. unfold run_etl.
  unfold bind at 1.
  rewrite (run_load_user_profiles_ok _ _ _ pdfs w Hpl Hpne).
  fold pf p w1. unfold bind at 1.
  rewrite (run_load_user_events_ok _ _ _ _ edfs parsed dates w1
             Hel Hfull (one_dtype_carried _ _ Hts Hene) Hts Hparse Hlp Hdate Hld).
  fold ef e w2. unfold bind at 1. rewrite Hrun.
  unfold deref. rewrite Hout.
  unfold write_to_parquet. rewrite Hmk. reflexivity.
Qed.

(** The whole pipeline.  When the files load, the event files carry
    [timestamp], [user_id] and [details] columns, each of one dtype, with
    serializable details, the profile files carry a [user_id] column of
    one dtype and no [event_date] column, the keys are of one kind, no
    label ends in a suffix of the merge and the output directory can be
    made, the runner makes the directory and then asks once for a write,
    into that directory and partitioned by [event_date], of a frame that
    has one row per pair of the join, the event keys in [user_id] and in
    [event_date] the dates taken from the parsed time stamps. *)
Theorem run_etl_writes_joined_events
  (open_utf8 : string -> result (list N))
  (read_csv : list N -> list string -> result DataFrame)
  (read_json : string -> result DataFrame)
  (to_datetime dt_date : list value -> result (list value))
  (mkdir : string -> result unit)
  (to_parquet : DataFrame -> parquet_target -> option (list string) -> result unit)
  profiles_paths events_paths output_dir fields pdfs edfs parsed dates w :
  load_profile_files open_utf8 read_csv profiles_paths = Ok pdfs ->
  load_event_files read_json events_paths = Ok edfs ->
  pdfs <> [] -> edfs <> [] ->
  Forall full_columns edfs ->
  one_dtype "user_id" pdfs ->
  one_dtype "timestamp" edfs ->
  one_dtype "user_id" edfs ->
  one_dtype "details" edfs ->
  to_datetime (stacked_cells "timestamp" edfs) = Ok parsed ->
  length parsed = length (stacked_cells "timestamp" edfs) ->
  dt_date parsed = Ok dates ->
  length dates = length parsed ->
  Forall (fun x => json_serializable x = true) (stacked_cells "details" edfs) ->
  "user_id" ∉ or_empty fields ->
  same_kind_keys (stacked_cells "user_id" edfs) (stacked_cells "user_id" pdfs) ->
  plain_labels "_x" edfs ->
  Forall (fun c => has_suffix "_x" c = false) (or_empty fields) ->
  plain_labels "_y" pdfs ->
  mkdir output_dir = Ok tt ->
  "event_date" ∉ or_empty fields ->
  (forall df, df ∈ pdfs -> "event_date" ∉ columns df) ->
  let ekeys := stacked_cells "user_id" edfs in
  let pkeys := stacked_cells "user_id" pdfs in
  let ix := left_indexer ekeys pkeys 0 in
  exists out w',
    run_etl open_utf8 read_csv read_json to_datetime dt_date mkdir to_parquet
      profiles_paths events_paths output_dir fields w =
    ((to_parquet out (Directory output_dir) (Some ["event_date"]),
      [Mkdir output_dir;
       ToParquet out (Directory output_dir) (Some ["event_date"])]), w') /\
    index_len out = length ix /\
    column_lookup "user_id" (data out) = Some (take_left ekeys ix) /\
    column_lookup "event_date" (data out) = Some (take_left dates ix) /\
    (forall c, c ∈ columns out -> c ∈ select_final_column_list fields).
Proof.
  intros Hpl Hel Hpne Hene Hfull Hpu Hts Heu Hed Hparse Hlp Hdate Hld Hser Hreq
         Hkind Hsx Hsf Hsy Hmk Hreq' Hnodate ekeys pkeys ix.
  destruct (run_etl_steps open_utf8 read_csv read_json to_datetime dt_date mkdir
              to_parquet profiles_paths events_paths output_dir fields pdfs edfs
              parsed dates w Hpl Hel Hpne Hene Hfull Hpu Hts Heu Hed Hparse Hlp
              Hdate Hld Hser Hreq Hkind Hsx Hsf Hsy Hmk)
    as (raw & dj & ids & w' & Hdet & Hek & Hek1 & Hpk & Hclash & Hm & Hrun).
  cbv zeta in Hrun. fold ekeys pkeys in Hek, Hek1, Hpk, Hm, Hrun, Hkind.
  fold ix in Hm, Hrun.
  assert (Hdefaults : forall c, c ∉ or_empty fields ->
            c <> "page_url" -> c <> "button_id" -> c <> "item_id" ->
            c ∉ extract_all_fields fields).
  { intros c Hc H1 H2 H3 Hin.
    apply (proj2 (extract_all_fields_effective fields)) in Hin.
    destruct Hin as [Hin|Hin]; [|contradiction].
    repeat (apply elem_of_cons in Hin as [Hin|Hin]; [congruence|]).
    inversion Hin. }
  eexists _, w'. split; [exact Hrun|]. split; [reflexivity|].
  split; [|split].
  - apply (transform_event_column fields raw _ _ ekeys pkeys dj ids "user_id" ekeys
             Hek1 Hpk Hkind Hclash Hm);
      [right; left | exact Hek | now left | apply Hdefaults; [exact Hreq|..]
      | | | reflexivity]; discriminate.
  - apply (transform_event_column fields raw _ _ ekeys pkeys dj ids "event_date" dates
             Hek1 Hpk Hkind Hclash Hm);
      [do 7 right; left | apply column_lookup_assign_eq | right
      | apply Hdefaults; [exact Hreq'|..] | | | reflexivity]; try discriminate.
    intros Hin. apply concatenated_labels in Hin as (df & Hdf & Hc).
    exact (Hnodate df Hdf Hc).
  - intros c Hc. now apply elem_of_projected_labels in Hc.
Qed.

Lemma one_dtype_single c df cells :
  column_lookup c (data df) = Some cells -> one_dtype c [df].
Proof.
  intros H. exists (column_dtype cells).
  repeat constructor. exists cells. split; auto.
Qed.

Lemma run_etl_writes_joined_events_witness :
  let open_utf8 := fun _ : string => Ok [97; 10]%N in
  let read_csv := fun (_ : list N) (_ : list string) => Ok scenario_profiles in
  let read_json := fun _ : string => Ok raw_events in
  let mkdir := fun _ : string => Ok tt in
  let to_parquet :=
    fun (_ : DataFrame) (_ : parquet_target) (_ : option (list string)) => Ok tt in
  let ix := left_indexer [VInt 1; VInt 3] [VInt 1; VInt 2] 0 in
  exists out w',
    run_etl open_utf8 read_csv read_json sample_to_datetime sample_dt_date
      mkdir to_parquet ["profiles.csv"] ["events.json"] "out" None scenario_world =
    ((Ok tt,
      [Mkdir "out"; ToParquet out (Directory "out") (Some ["event_date"])]), w') /\
    index_len out = length ix /\
    column_lookup "user_id" (data out) = Some (take_left [VInt 1; VInt 3] ix) /\
    column_lookup "event_date" (data out) =
      Some (take_left [VDate 19754; VDate 19755] ix) /\
    (forall c, c ∈ columns out -> c ∈ select_final_column_list None).
Proof.
  intros open_utf8 read_csv read_json mkdir to_parquet ix.
  apply (run_etl_writes_joined_events open_utf8 read_csv read_json
           sample_to_datetime sample_dt_date mkdir to_parquet
           ["profiles.csv"] ["events.json"] "out" None
           [scenario_profiles] [raw_events]
           [VTimestamp 1706781600; VTimestamp 1706871600]
           [VDate 19754; VDate 19755] scenario_world).
  - reflexivity.
  - reflexivity.
  - discriminate.
  - discriminate.
  - repeat constructor.
  - eapply one_dtype_single. reflexivity.
  - eapply one_dtype_single. reflexivity.
  - eapply one_dtype_single. reflexivity.
  - eapply one_dtype_single. reflexivity.
  - reflexivity.
  - reflexivity.
  - reflexivity.
  - reflexivity.
  - repeat constructor.
  - apply not_elem_of_nil.
  - left. split; repeat constructor; eexists; split; reflexivity.
  - repeat constructor.
  - constructor.
  - repeat constructor.
  - reflexivity.
  - apply not_elem_of_nil.
  - intros df Hdf. apply list_elem_of_singleton in Hdf. subst df.
    intros H. repeat (apply elem_of_cons in H as [H|H]; [discriminate|]).
    inversion H.
Defined.

(** The partition column can be lost on the way.  Under the same
    conditions on the files, when a profile file has an [event_date]
    column of its own, the join renames both [event_date] columns, and
    the frame handed to the writer has no [event_date] column, although
    the write is still asked to be partitioned by it. *)
Theorem run_etl_loses_shared_partition_column
  (open_utf8 : string -> result (list N))
  (read_csv : list N -> list string -> result DataFrame)
  (read_json : string -> result DataFrame)
  (to_datetime dt_date : list value -> result (list value))
  (mkdir : string -> result unit)
  (to_parquet : DataFrame -> parquet_target -> option (list string) -> result unit)
  profiles_paths events_paths output_dir fields pdfs edfs parsed dates w :
  load_profile_files open_utf8 read_csv profiles_paths = Ok pdfs ->
  load_event_files read_json events_paths = Ok edfs ->
  pdfs <> [] -> edfs <> [] ->
  Forall full_columns edfs ->
  one_dtype "user_id" pdfs ->
  one_dtype "timestamp" edfs ->
  one_dtype "user_id" edfs ->
  one_dtype "details" edfs ->
  to_datetime (stacked_cells "timestamp" edfs) = Ok parsed ->
  length parsed = length (stacked_cells "timestamp" edfs) ->
  dt_date parsed = Ok dates ->
  length dates = length parsed ->
  Forall (fun x => json_serializable x = true) (stacked_cells "details" edfs) ->
  "user_id" ∉ or_empty fields ->
  same_kind_keys (stacked_cells "user_id" edfs) (stacked_cells "user_id" pdfs) ->
  plain_labels "_x" edfs ->
  Forall (fun c => has_suffix "_x" c = false) (or_empty fields) ->
  plain_labels "_y" pdfs ->
  mkdir output_dir = Ok tt ->
  (exists df, df ∈ pdfs /\ "event_date" ∈ columns df) ->
  exists out w',
    run_etl open_utf8 read_csv read_json to_datetime dt_date mkdir to_parquet
      profiles_paths events_paths output_dir fields w =
    ((to_parquet out (Directory output_dir) (Some ["event_date"]),
      [Mkdir output_dir;
       ToParquet out (Directory output_dir) (Some ["event_date"])]), w') /\
    "event_date" ∉ columns out.
Proof.
  intros Hpl Hel Hpne Hene Hfull Hpu Hts Heu Hed Hparse Hlp Hdate Hld Hser Hreq
         Hkind Hsx Hsf Hsy Hmk Hshared.
  destruct (run_etl_steps open_utf8 read_csv read_json to_datetime dt_date mkdir
              to_parquet profiles_paths events_paths output_dir fields pdfs edfs
              parsed dates w Hpl Hel Hpne Hene Hfull Hpu Hts Heu Hed Hparse Hlp
              Hdate Hld Hser Hreq Hkind Hsx Hsf Hsy Hmk)
    as (raw & dj & ids & w' & Hdet & Hek & Hek1 & Hpk & Hclash & Hm & Hrun).
  eexists _, w'. split; [exact Hrun|].
  apply (transform_shared_label fields raw _ _ _ dj _ ids "event_date" Hdet Hm).
  - now apply concatenated_labels.
  - left. unfold with_dates. rewrite columns_mk, labels_assign. cbn [data].
    destruct (label_in "event_date" _) eqn:E.
    + now apply label_in_spec.
    + apply elem_of_app. right. left.
  - discriminate.
  - discriminate.
  - reflexivity.
  - reflexivity.
Qed.

Lemma run_etl_loses_shared_partition_column_witness :
  let open_utf8 := fun _ : string => Ok [97; 10]%N in
  let read_csv := fun (_ : list N) (_ : list string) => Ok dated_profiles in
  let read_json := fun _ : string => Ok raw_events in
  let mkdir := fun _ : string => Ok tt in
  let to_parquet :=
    fun (df : DataFrame) (_ : parquet_target) (cols : option (list string)) =>
      match cols with
      | Some [c] => if label_in c (columns df) then Ok tt else Raise (KeyError c)
      | _ => Ok tt
      end in
  exists out w',
    run_etl open_utf8 read_csv read_json sample_to_datetime sample_dt_date
      mkdir to_parquet ["profiles.csv"] ["events.json"] "out" None scenario_world =
    ((to_parquet out (Directory "out") (Some ["event_date"]),
      [Mkdir "out"; ToParquet out (Directory "out") (Some ["event_date"])]), w') /\
    "event_date" ∉ columns out.
Proof.
  intros open_utf8 read_csv read_json mkdir to_parquet.
  apply (run_etl_loses_shared_partition_column open_utf8 read_csv read_json
           sample_to_datetime sample_dt_date mkdir to_parquet
           ["profiles.csv"] ["events.json"] "out" None
           [dated_profiles] [raw_events]
           [VTimestamp 1706781600; VTimestamp 1706871600]
           [VDate 19754; VDate 19755] scenario_world).
  - reflexivity.
  - reflexivity.
  - discriminate.
  - discriminate.
  - repeat constructor.
  - eapply one_dtype_single. reflexivity.
  - eapply one_dtype_single. reflexivity.
  - eapply one_dtype_single. reflexivity.
  - eapply one_dtype_single. reflexivity.
  - reflexivity.
  - reflexivity.
  - reflexivity.
  - reflexivity.
  - repeat constructor.
  - apply not_elem_of_nil.
  - left. split; repeat constructor; eexists; split; reflexivity.
  - repeat constructor.
  - constructor.
  - repeat constructor.
  - reflexivity.
  - exists dated_profiles. split; [left | do 2 right; left].
Defined.

(** ** The query utility: every placeholder *)

Lemma str_replace_join c old new parts :
  Forall (fun p => occurs c p = false) parts ->
  str_replace (str_join (String c old) parts) (String c old) new
  = str_join new parts.
Proof.
  induction 1 as [|p parts Hp Hparts IH]; [reflexivity|].
  destruct parts as [|q parts].
  - cbn [str_join]. now apply str_replace_no_occurrence.
  - change (str_join (String c old) (p :: q :: parts))
      with (p +:+ String c old +:+ str_join (String c old) (q :: parts)).
    rewrite str_replace_first_occurrence by assumption. now rewrite IH.
Qed.

(** Every occurrence of the placeholder is replaced.  A query made of
    pieces without an opening brace, with the placeholder between
    consecutive pieces, is run -- when the resolved path exists -- with
    the recursive glob in the place of each placeholder, on a connection
    that is opened before and closed after, whatever the engine answers. *)
Theorem query_replaces_every_placeholder
  (path_resolve : string -> string) (path_exists : string -> bool)
  (engine_run : string -> result DataFrame)
  (parts : list string) (parquet_path : string) :
  Forall (fun p => occurs "{" p = false) parts ->
  path_exists (path_resolve parquet_path) = true ->
  snd (query_output_parquet path_resolve path_exists engine_run
         (str_join "{parquet_path}" parts) parquet_path)
  = [Connect;
     Execute (str_join (path_join (path_resolve parquet_path) "**/*.parquet") parts);
     Close].
Proof.
  intros Hparts Hex. unfold query_output_parquet. rewrite Hex. cbn [negb].
  rewrite (str_replace_join "{" "parquet_path}") by exact Hparts.
  now destruct (engine_run _).
Qed.

Lemma query_replaces_every_placeholder_witness :
  let path_resolve := fun p : string => p in
  let path_exists := fun p : string => String.eqb p "/data/out" in
  let engine_run := fun _ : string => Raise (EngineError "Parser Error") in
  snd (query_output_parquet path_resolve path_exists engine_run
         "SELECT a FROM '{parquet_path}' UNION ALL SELECT b FROM '{parquet_path}'"
         "/data/out")
  = [Connect;
     Execute "SELECT a FROM '/data/out/**/*.parquet' UNION ALL SELECT b FROM '/data/out/**/*.parquet'";
     Close].
Proof.
  intros path_resolve path_exists engine_run.
  apply (query_replaces_every_placeholder path_resolve path_exists engine_run
           ["SELECT a FROM '"; "' UNION ALL SELECT b FROM '"; "'"] "/data/out").
  - repeat constructor.
  - reflexivity.
Defined.
